(** * The lwnl event queue (fan-out notification channel)

    A shallow embedding of the event-queue engine of the lwnl driver:
    the array [g_queue] of listener slots, the counter [g_connected],
    the heap-allocated [struct lwnl_event] nodes chained through [flink]
    and shared between the slots, and the two-phase read protocol of
    [lwnl_get_event].

    Pointers are integers ([NULL] is 0).  The kernel heap is split in two
    finite maps: live event nodes and live payload buffers.  [kmm_free]
    deletes the entry; touching an address that is not live is a [Fault].
    What [kmm_malloc] returns is an input of the functions that call it.
    Every function is executed atomically (the code holds [LWQ_LOCK] from
    entry to exit), so the lock itself is not part of the model.

    [int] and [uint32_t] are 32 bits wide, [int8_t] 8 bits, and the
    enumeration [lwnl_cb_status] is stored as a 4-byte object. *)

From Stdlib Require Import ZArith List Lia.
From stdpp Require Import base option list gmap fin_maps.

Open Scope Z_scope.

(** ** Machine integers *)

Definition to_int8 (x : Z) : Z := (x + 128) mod 256 - 128.
Definition to_int (x : Z) : Z := (x + 2147483648) mod 4294967296 - 2147483648.
Definition to_uint32 (x : Z) : Z := x mod 4294967296.
(** [size_t] on the 32-bit targets of the kernel. *)
Definition to_size_t (x : Z) : Z := x mod 4294967296.

Definition INT_MAX : Z := 2147483647.

(** ** Pointers and outcomes *)

Abbreviation ptr := Z (only parsing).
Definition NULL : ptr := 0.

Inductive outcome (A : Type) : Type :=
| Ok (a : A)
| Fault
| OutOfFuel.
Arguments Ok {A} a.
Arguments Fault {A}.
Arguments OutOfFuel {A}.

Definition obind {A B} (m : outcome A) (k : A -> outcome B) : outcome B :=
  match m with
  | Ok a => k a
  | Fault => Fault
  | OutOfFuel => OutOfFuel
  end.

#[global] Instance outcome_bind : MBind outcome := fun A B k m => obind m k.

(** ** Data model *)

Inductive lwnl_cb_status : Type :=
| LWNL_STA_CONNECTED
| LWNL_STA_CONNECT_FAILED
| LWNL_STA_DISCONNECTED
| LWNL_SOFTAP_STA_JOINED
| LWNL_SOFTAP_STA_LEFT
| LWNL_SCAN_FAILED
| LWNL_SCAN_DONE
| LWNL_UNKNOWN.

#[global] Instance lwnl_cb_status_eq_dec : EqDecision lwnl_cb_status.
Proof. solve_decision. Defined.

Record lwnl_cb_data : Type := mk_cb_data {
  status : lwnl_cb_status;
  data : ptr;
  data_len : Z
}.

Record lwnl_event : Type := mk_event {
  flink : ptr;
  evt_data : lwnl_cb_data;
  refs : Z
}.

Record lwnl_queue : Type := mk_queue {
  filep : ptr;
  check_header : Z;
  front : ptr;
  rear : ptr
}.

(** One scan record ([trwifi_ap_scan_info_s]) is kept as its object
    representation, a list of bytes. *)
Definition trwifi_ap_scan_info_s := list Z.
(** The scan list is a NULL-terminated linked list owned by the caller;
    only its sequence of records matters here. *)
Definition trwifi_scan_list_s := list trwifi_ap_scan_info_s.

Record lwq_state : Type := mk_state {
  g_queue : list lwnl_queue;
  g_connected : Z;
  events : gmap Z lwnl_event;
  buffers : gmap Z (list Z)
}.

Definition set_flink (p : ptr) (e : lwnl_event) : lwnl_event :=
  mk_event p (evt_data e) (refs e).
Definition set_refs (r : Z) (e : lwnl_event) : lwnl_event :=
  mk_event (flink e) (evt_data e) r.

Definition set_front (p : ptr) (q : lwnl_queue) : lwnl_queue :=
  mk_queue (filep q) (check_header q) p (rear q).
Definition set_rear (p : ptr) (q : lwnl_queue) : lwnl_queue :=
  mk_queue (filep q) (check_header q) (front q) p.
Definition set_check_header (c : Z) (q : lwnl_queue) : lwnl_queue :=
  mk_queue (filep q) c (front q) (rear q).
Definition set_filep (f : ptr) (q : lwnl_queue) : lwnl_queue :=
  mk_queue f (check_header q) (front q) (rear q).

Definition empty_queue : lwnl_queue := mk_queue NULL 0 NULL NULL.

(** A store through an event pointer; the pointer must be live. *)
Definition store_event (f : lwnl_event -> lwnl_event) (p : ptr)
    (h : gmap Z lwnl_event) : outcome (gmap Z lwnl_event) :=
  match h !! p with
  | Some e => Ok (<[p := f e]> h)
  | None => Fault
  end.

(** [memcpy(dst + off, src, |src|)] on the caller's memory. *)
Definition memcpy (dst : list Z) (off : nat) (src : list Z) : list Z :=
  take off dst ++ src ++ drop (off + length src) dst.

(** The four bytes of a 32-bit object, least significant first. *)
Definition le32 (v : Z) : list Z :=
  [v mod 256; (v / 256) mod 256; (v / 65536) mod 256; (v / 16777216) mod 256].

(** One call into the queue.  The two pointers of [Emit] are what the two
    [kmm_malloc] calls return. *)
Inductive op : Type :=
| Emit (type : lwnl_cb_status) (buffer : trwifi_scan_list_s)
       (evt_p out_p : ptr) (junk : list Z)
| Read (f : ptr) (buf : list Z) (len : Z)
| Register (f : ptr)
| Deregister (f : ptr).

(** ** A concrete queue

    Used to run the model: two slots, scan records of two bytes,
    enumerators numbered in declaration order.  One consumer (file
    pointer 100) registers; then a connection event or a scan result of
    two records is emitted. *)

Definition demo_status_code (st : lwnl_cb_status) : Z :=
  match st with
  | LWNL_STA_CONNECTED => 0
  | LWNL_STA_CONNECT_FAILED => 1
  | LWNL_STA_DISCONNECTED => 2
  | LWNL_SOFTAP_STA_JOINED => 3
  | LWNL_SOFTAP_STA_LEFT => 4
  | LWNL_SCAN_FAILED => 5
  | LWNL_SCAN_DONE => 6
  | LWNL_UNKNOWN => 7
  end.

(** The queue after [lwnl_queue_initialize]. *)
Definition demo_boot : lwq_state := mk_state [empty_queue; empty_queue] 0 ∅ ∅.

(** After [lwnl_add_listener(100)]. *)
Definition demo_registered : lwq_state :=
  mk_state [mk_queue 100 0 NULL NULL; empty_queue] 1 ∅ ∅.

Definition demo_scan_node : lwnl_event :=
  mk_event NULL (mk_cb_data LWNL_SCAN_DONE 20 4) 1.

(** After the emit of a scan result, node at 11 and payload at 20. *)
Definition demo_scanned : lwq_state :=
  mk_state [mk_queue 100 0 11 11; empty_queue] 1
           {[11 := demo_scan_node]} {[20 := [1; 2; 3; 4]]}.

Definition demo_register : op := Register 100.
Definition demo_emit_connected : op := Emit LWNL_STA_CONNECTED [] 10 0 [].
Definition demo_emit_scan : op := Emit LWNL_SCAN_DONE [[1; 2]; [3; 4]] 11 20 [].

(** The queue of [demo_scanned] after its consumer has read the header. *)
Definition demo_payload : lwq_state :=
  mk_state [mk_queue 100 1 11 11; empty_queue] 1
           {[11 := demo_scan_node]} {[20 := [1; 2; 3; 4]]}.

(** An identity registered twice. *)
Definition demo_twice : lwq_state :=
  mk_state [mk_queue 100 0 NULL NULL; mk_queue 100 0 NULL NULL] 2 ∅ ∅.

(** * The functions of the queue *)

Section LwnlEvtQueue.

(** Constants of headers that are not part of this development:
    the integer value of each [lwnl_cb_status] enumerator, the size of
    [trwifi_ap_scan_info_s], and the number of slots. *)
Variable status_code : lwnl_cb_status -> Z.

Variable SCAN_INFO_SIZE : Z.

Variable LWNL_NPOLLWAITERS : nat.

(** ** [_lwnl_add_event] *)

Definition add_event_slot (event : ptr) (connected : Z) (q : lwnl_queue)
    (h : gmap Z lwnl_event) : outcome (gmap Z lwnl_event * lwnl_queue) :=
  if filep q =? NULL then Ok (h, q)
  else
    h1 ← store_event (set_refs (to_int8 connected)) event h;
    if front q =? NULL then Ok (h1, set_rear event (set_front event q))
    else
      h2 ← store_event (set_flink event) (rear q) h1;
      Ok (h2, set_rear event q).

Fixpoint add_event_loop (event : ptr) (connected : Z) (qs : list lwnl_queue)
    (h : gmap Z lwnl_event) : outcome (gmap Z lwnl_event * list lwnl_queue) :=
  match qs with
  | [] => Ok (h, [])
  | q :: qs' =>
      '(h1, q') ← add_event_slot event connected q h;
      '(h2, qs'') ← add_event_loop event connected qs' h1;
      Ok (h2, q' :: qs'')
  end.

Definition _lwnl_add_event (event : ptr) (s : lwq_state) : outcome (Z * lwq_state) :=
  h0 ← store_event (set_flink NULL) event (events s);
  '(h, qs) ← add_event_loop event (g_connected s) (g_queue s) h0;
  Ok (0, mk_state qs (g_connected s) h (buffers s)).

(** ** [_lwnl_remove_event] *)

Definition kmm_free_buffer (p : ptr) (b : gmap Z (list Z)) : outcome (gmap Z (list Z)) :=
  match b !! p with
  | Some _ => Ok (delete p b)
  | None => Fault
  end.

Definition _lwnl_remove_event (evt : ptr) (h : gmap Z lwnl_event)
    (b : gmap Z (list Z)) : outcome (Z * gmap Z lwnl_event * gmap Z (list Z)) :=
  match h !! evt with
  | None => Fault
  | Some e =>
      let r := to_int8 (refs e - 1) in
      if 0 <? r then Ok (0, <[evt := set_refs r e]> h, b)
      else
        b' ← (if data (evt_data e) =? NULL then Ok b
               else kmm_free_buffer (data (evt_data e)) b);
        Ok (0, delete evt h, b')
  end.

(** ** [_lwnl_copy_scan_info] *)

Fixpoint scan_count (item : trwifi_scan_list_s) (cnt : Z) : Z :=
  match item with
  | [] => cnt
  | _ :: next => scan_count next (to_int (cnt + 1))
  end.

(** [memcpy] into a heap block of known size; out-of-block accesses fault,
    and so does reading past the end of the source record. *)
Definition memcpy_block (block : list Z) (off : Z) (src : list Z) (n : Z)
    : outcome (list Z) :=
  if (off + n <=? Z.of_nat (length block)) && (n <=? Z.of_nat (length src))
  then Ok (memcpy block (Z.to_nat off) (take (Z.to_nat n) src))
  else Fault.

Fixpoint scan_copy (item : trwifi_scan_list_s) (cnt : Z) (block : list Z)
    : outcome (list Z) :=
  match item with
  | [] => Ok block
  | ap_info :: next =>
      block' ← memcpy_block block (to_size_t (SCAN_INFO_SIZE * cnt)) ap_info SCAN_INFO_SIZE;
      scan_copy next (to_int (cnt + 1)) block'
  end.

(** [out] is what [kmm_malloc] returns ([NULL] when it fails) and [junk]
    the previous contents of the block it hands out.  The result is the
    return value, the pointer stored in [*buffer] and the buffer heap. *)
Definition _lwnl_copy_scan_info (out : ptr) (junk : list Z)
    (scan_list : trwifi_scan_list_s) (b : gmap Z (list Z))
    : outcome (Z * ptr * gmap Z (list Z)) :=
  let total := scan_count scan_list 0 in
  let size := to_size_t (SCAN_INFO_SIZE * total) in
  if out =? NULL then Ok (-1, NULL, b)
  else
    let block := take (Z.to_nat size) (junk ++ replicate (Z.to_nat size) 0) in
    block' ← scan_copy scan_list 0 block;
    Ok (to_int (to_size_t (total * SCAN_INFO_SIZE)), out, <[out := block']> b).

(** ** [lwnl_queue_initialize] *)

Definition lwnl_queue_initialize (s : lwq_state) : lwq_state :=
  mk_state (replicate LWNL_NPOLLWAITERS empty_queue) 0 (events s) (buffers s).

(** ** [lwnl_add_event] *)

(** [evt_p] and [out_p] are the results of the two [kmm_malloc] calls. *)
Definition lwnl_add_event (type : lwnl_cb_status) (buffer : trwifi_scan_list_s)
    (evt_p out_p : ptr) (junk : list Z) (s : lwq_state) : outcome (Z * lwq_state) :=
  if evt_p =? NULL then Ok (-1, s)
  else
    let fresh_evt := mk_event NULL (mk_cb_data LWNL_UNKNOWN NULL 0) 0 in
    let plain := mk_event NULL (mk_cb_data type NULL 0) 0 in
    built ←
      match type with
      | LWNL_STA_CONNECTED | LWNL_STA_CONNECT_FAILED | LWNL_STA_DISCONNECTED
      | LWNL_SOFTAP_STA_JOINED | LWNL_SOFTAP_STA_LEFT | LWNL_SCAN_FAILED =>
          Ok (Some plain, buffers s)
      | LWNL_SCAN_DONE =>
          '(res, output, b') ← _lwnl_copy_scan_info out_p junk buffer (buffers s);
          if res <? 0 then
            Ok (Some (mk_event NULL (mk_cb_data LWNL_SCAN_FAILED NULL 0) 0), b')
          else
            Ok (Some (mk_event NULL (mk_cb_data LWNL_SCAN_DONE output (to_uint32 res)) 0), b')
      | LWNL_UNKNOWN => Ok (None, buffers s)
      end;
    match built with
    | (None, b') =>
        Ok (-3, mk_state (g_queue s) (g_connected s) (<[evt_p := fresh_evt]> (events s)) b')
    | (Some evt, b') =>
        let s1 := mk_state (g_queue s) (g_connected s) (<[evt_p := evt]> (events s)) b' in
        '(res, s2) ← _lwnl_add_event evt_p s1;
        if res <? 0 then
          b2 ← (if data (evt_data evt) =? NULL then Ok (buffers s2)
                 else kmm_free_buffer (data (evt_data evt)) (buffers s2));
          Ok (-2, mk_state (g_queue s2) (g_connected s2) (delete evt_p (events s2)) b2)
        else Ok (0, s2)
    end.

(** ** [lwnl_get_event] *)

(** The body of the loop for the slot whose [filep] matched.  The two
    [sizeof] of the header are 4 each; [len] is compared as an unsigned
    value, as C does for [int < size_t] and [int < uint32_t]. *)
Definition get_event_slot (q : lwnl_queue) (buf : list Z) (len : Z)
    (h : gmap Z lwnl_event) (b : gmap Z (list Z))
    : outcome (Z * list Z * lwnl_queue * gmap Z lwnl_event * gmap Z (list Z)) :=
  if front q =? NULL then Ok (0, buf, q, h, b)
  else
    match h !! front q with
    | None => Fault
    | Some evt =>
        let advance (written : Z) (buf' : list Z) (q' : lwnl_queue) :=
          '(_, h', b') ← _lwnl_remove_event (front q) h b;
          Ok (written, buf', set_front (flink evt) q', h', b') in
        if check_header q =? 0 then
          if to_size_t len <? 4 + 4 then Ok (-1, buf, q, h, b)
          else
            let buf1 := memcpy buf 0 (le32 (status_code (status (evt_data evt)))) in
            let buf2 := memcpy buf1 4 (le32 (data_len (evt_data evt))) in
            if 0 <? data_len (evt_data evt) then
              Ok (4 + 4, buf2, set_check_header 1 q, h, b)
            else advance (4 + 4) buf2 q
        else
          if to_uint32 len <? data_len (evt_data evt) then Ok (-1, buf, q, h, b)
          else
            match b !! data (evt_data evt) with
            | None => Fault
            | Some payload =>
                if Z.of_nat (length payload) <? data_len (evt_data evt) then Fault
                else
                  let buf' := memcpy buf 0 (take (Z.to_nat (data_len (evt_data evt))) payload) in
                  advance (to_int (data_len (evt_data evt))) buf' (set_check_header 0 q)
            end
    end.

Fixpoint get_event_loop (f : ptr) (buf : list Z) (len : Z) (qs : list lwnl_queue)
    (h : gmap Z lwnl_event) (b : gmap Z (list Z))
    : outcome (Z * list Z * list lwnl_queue * gmap Z lwnl_event * gmap Z (list Z)) :=
  match qs with
  | [] => Ok (-1, buf, [], h, b)
  | q :: qs' =>
      if negb (filep q =? f) then
        '(r, buf', qs'', h', b') ← get_event_loop f buf len qs' h b;
        Ok (r, buf', q :: qs'', h', b')
      else
        '(r, buf', q', h', b') ← get_event_slot q buf len h b;
        Ok (r, buf', q' :: qs', h', b')
  end.

Definition lwnl_get_event (f : ptr) (buf : list Z) (len : Z) (s : lwq_state)
    : outcome (Z * list Z * lwq_state) :=
  '(r, buf', qs, h, b) ← get_event_loop f buf len (g_queue s) (events s) (buffers s);
  Ok (r, buf', mk_state qs (g_connected s) h b).

(** ** [lwnl_add_listener] *)

Fixpoint add_listener_loop (f : ptr) (qs : list lwnl_queue) : option (list lwnl_queue) :=
  match qs with
  | [] => None
  | q :: qs' =>
      if filep q =? NULL then Some (set_filep f q :: qs')
      else option_map (cons q) (add_listener_loop f qs')
  end.

Definition lwnl_add_listener (f : ptr) (s : lwq_state) : Z * lwq_state :=
  match add_listener_loop f (g_queue s) with
  | Some qs => (0, mk_state qs (to_int (g_connected s + 1)) (events s) (buffers s))
  | None => (-1, s)
  end.

(** ** [lwnl_remove_listener] *)

(** The [while (g_queue[i].front)] loop; the cursor is the slot's [front]. *)
Fixpoint drain (fuel : nat) (p : ptr) (h : gmap Z lwnl_event) (b : gmap Z (list Z))
    : outcome (gmap Z lwnl_event * gmap Z (list Z)) :=
  if p =? NULL then Ok (h, b)
  else
    match fuel with
    | O => OutOfFuel
    | S fuel' =>
        match h !! p with
        | None => Fault
        | Some evt =>
            '(_, h', b') ← _lwnl_remove_event p h b;
            drain fuel' (flink evt) h' b'
        end
    end.

Fixpoint remove_listener_loop (fuel : nat) (f : ptr) (qs : list lwnl_queue)
    (h : gmap Z lwnl_event) (b : gmap Z (list Z))
    : outcome (option (list lwnl_queue) * gmap Z lwnl_event * gmap Z (list Z)) :=
  match qs with
  | [] => Ok (None, h, b)
  | q :: qs' =>
      if filep q =? f then
        '(h', b') ← drain fuel (front q) h b;
        Ok (Some (mk_queue NULL 0 NULL NULL :: qs'), h', b')
      else
        '(r, h', b') ← remove_listener_loop fuel f qs' h b;
        Ok (option_map (cons q) r, h', b')
  end.

Definition lwnl_remove_listener (fuel : nat) (f : ptr) (s : lwq_state)
    : outcome (Z * lwq_state) :=
  '(r, h, b) ← remove_listener_loop fuel f (g_queue s) (events s) (buffers s);
  match r with
  | Some qs => Ok (0, mk_state qs (to_int (g_connected s - 1)) h b)
  | None => Ok (0, s)
  end.

(** ** [lwnl_check_queue] *)

Fixpoint check_queue_loop (f : ptr) (qs : list lwnl_queue) : Z :=
  match qs with
  | [] => 0
  | q :: qs' =>
      if filep q =? f then (if negb (front q =? NULL) then 1 else 0)
      else check_queue_loop f qs'
  end.

Definition lwnl_check_queue (f : ptr) (s : lwq_state) : Z :=
  check_queue_loop f (g_queue s).

(** * Invariant and specification *)

(** ** The shape of the shared log *)

(** [chain h p l]: following [flink] from [p] through live nodes visits
    exactly the addresses [l] and then reaches [NULL]. *)
Inductive chain (h : gmap Z lwnl_event) : ptr -> list ptr -> Prop :=
| chain_nil : chain h NULL []
| chain_cons p e l :
    p <> NULL -> h !! p = Some e -> chain h (flink e) l -> chain h p (p :: l).

(** Number of slot chains that contain the node [p]. *)
Fixpoint holders (Ls : list (list ptr)) (p : ptr) : Z :=
  match Ls with
  | [] => 0
  | L :: Ls' => (if decide (p ∈ L) then 1 else 0) + holders Ls' p
  end.

(** Number of slots that hold a consumer. *)
Fixpoint occupied_count (qs : list lwnl_queue) : Z :=
  match qs with
  | [] => 0
  | q :: qs' => (if filep q =? NULL then 0 else 1) + occupied_count qs'
  end.

(** A node owns its payload buffer: no payload at all, or a live buffer of
    exactly [data_len] bytes. *)
Definition payload_ok (b : gmap Z (list Z)) (e : lwnl_event) : Prop :=
  0 <= data_len (evt_data e) <= INT_MAX /\
  (data (evt_data e) = NULL -> data_len (evt_data e) = 0) /\
  (data (evt_data e) <> NULL ->
     exists bytes, b !! data (evt_data e) = Some bytes /\
                   Z.of_nat (length bytes) = data_len (evt_data e)).

(** A slot and the chain its cursor walks. *)
Record slot_ok (h : gmap Z lwnl_event) (q : lwnl_queue) (L : list ptr) : Prop := {
  so_chain : chain h (front q) L;
  so_rear : L <> [] -> last L = Some (rear q);
  so_free : filep q = NULL -> front q = NULL /\ check_header q = 0;
  so_phase : check_header q = 0 \/
             (check_header q = 1 /\ front q <> NULL /\
              exists e, h !! front q = Some e /\ 0 < data_len (evt_data e))
}.

(** The invariant of the queue: [Ls] lists, slot by slot, the nodes still
    to be read. *)
Record wf (s : lwq_state) (Ls : list (list ptr)) : Prop := {
  wf_slots : Forall2 (slot_ok (events s)) (g_queue s) Ls;
  wf_bound : Z.of_nat (length (g_queue s)) <= 127;
  wf_connected : g_connected s = occupied_count (g_queue s);
  wf_refs : forall p e, events s !! p = Some e -> refs e = holders Ls p;
  wf_tail : exists r, forall L, L ∈ Ls -> L <> [] -> last L = Some r;
  wf_payload : forall p e, events s !! p = Some e -> payload_ok (buffers s) e;
  wf_excl : forall p1 p2 e1 e2,
      events s !! p1 = Some e1 -> events s !! p2 = Some e2 ->
      data (evt_data e1) <> NULL ->
      data (evt_data e1) = data (evt_data e2) -> p1 = p2
}.

(** ** Definitions used by the specification *)

(** Two heaps agree on the nodes of [L]: same successor, same event. *)
Definition agree_on (h h' : gmap Z lwnl_event) (L : list ptr) : Prop :=
  forall x e, x ∈ L -> h !! x = Some e ->
    exists e', h' !! x = Some e' /\ flink e' = flink e /\ evt_data e' = evt_data e.

(** What [_lwnl_remove_event] does to the two heaps. *)
Definition release_events (p : ptr) (e : lwnl_event) (h : gmap Z lwnl_event)
    : gmap Z lwnl_event :=
  if 0 <? refs e - 1 then <[p := set_refs (refs e - 1) e]> h else delete p h.

Definition release_buffers (e : lwnl_event) (b : gmap Z (list Z)) : gmap Z (list Z) :=
  if 0 <? refs e - 1 then b
  else if data (evt_data e) =? NULL then b
  else delete (data (evt_data e)) b.

(** [first_slot f qs qs1 q qs2]: [q] is the first slot of [qs] whose
    [filep] is [f]. *)
Definition first_slot (f : ptr) (qs qs1 : list lwnl_queue) (q : lwnl_queue)
    (qs2 : list lwnl_queue) : Prop :=
  qs = qs1 ++ q :: qs2 /\ Forall (fun x => filep x <> f) qs1 /\ filep q = f.

(** The 8-byte header of a node. *)
Definition header_of (e : lwnl_event) : list Z :=
  le32 (status_code (status (evt_data e))) ++ le32 (data_len (evt_data e)).

(** The successive deliveries of one node: its header, then its payload
    when the length is not zero. *)
Definition node_chunks (h : gmap Z lwnl_event) (b : gmap Z (list Z)) (x : ptr)
    : list (list Z) :=
  match h !! x with
  | Some e =>
      header_of e ::
      (if 0 <? data_len (evt_data e)
       then [default [] (b !! data (evt_data e))] else [])
  | None => []
  end.

(** The deliveries a slot still owes its consumer; in the payload phase
    the header of the first node is already out. *)
Definition slot_chunks (h : gmap Z lwnl_event) (b : gmap Z (list Z))
    (q : lwnl_queue) (L : list ptr) : list (list Z) :=
  drop (if check_header q =? 0 then 0%nat else 1%nat)
       (concat (map (node_chunks h b) L)).

(** Every node that is live afterwards was live before and delivers the
    same bytes. *)
Definition frame (h : gmap Z lwnl_event) (b : gmap Z (list Z))
    (h' : gmap Z lwnl_event) (b' : gmap Z (list Z)) : Prop :=
  forall x, is_Some (h' !! x) ->
    is_Some (h !! x) /\ node_chunks h' b' x = node_chunks h b x.

(** Node lifetime across a step: a node that some consumer still has to
    read either stays, with a positive reference count and its payload,
    or is destroyed together with its payload. *)
Definition lifetime (h : gmap Z lwnl_event) (b : gmap Z (list Z))
    (h' : gmap Z lwnl_event) (b' : gmap Z (list Z)) : Prop :=
  forall p e, h !! p = Some e -> 0 < refs e ->
    (exists e', h' !! p = Some e' /\ 0 < refs e' /\ refs e' <= refs e /\
       evt_data e' = evt_data e /\
       (data (evt_data e) <> NULL ->
        b' !! data (evt_data e) = b !! data (evt_data e))) \/
    (h' !! p = None /\
     (data (evt_data e) <> NULL -> b' !! data (evt_data e) = None)).

(** How the heaps evolve when nodes are only released. *)
Record evolves (h : gmap Z lwnl_event) (b : gmap Z (list Z))
    (h' : gmap Z lwnl_event) (b' : gmap Z (list Z)) : Prop := {
  ev_frame : frame h b h' b';
  ev_life : lifetime h b h' b';
  ev_bufs : forall k v, b' !! k = Some v -> b !! k = Some v
}.

(** The caller's buffer cannot hold what the current phase delivers. *)
Definition too_small (q : lwnl_queue) (len : Z) (e : lwnl_event) : Prop :=
  if check_header q =? 0 then to_size_t len < 4 + 4
  else to_uint32 len < data_len (evt_data e).

(** Why a call delivered nothing: the slot is empty (result 0) or the
    buffer is too small for the node at the front (result -1). *)
Definition nothing_read (h : gmap Z lwnl_event) (q : lwnl_queue) (L : list ptr)
    (len r : Z) : Prop :=
  (r = 0 /\ L = []) \/
  (r = -1 /\ exists e, h !! front q = Some e /\ front q <> NULL /\ too_small q len e).

(** [slot_at f qs i q]: the linear search for [f] stops at index [i]. *)
Definition slot_at (f : ptr) (qs : list lwnl_queue) (i : nat) (q : lwnl_queue) : Prop :=
  qs !! i = Some q /\ filep q = f /\
  forall k x, (k < i)%nat -> qs !! k = Some x -> filep x <> f.

Definition sized (r : trwifi_ap_scan_info_s) : Prop :=
  Z.of_nat (length r) = SCAN_INFO_SIZE.

Definition upd_slot (e : ptr) (q : lwnl_queue) : lwnl_queue :=
  if filep q =? NULL then q
  else if front q =? NULL then set_rear e (set_front e q)
  else set_rear e q.

Definition upd_chain (e : ptr) (q : lwnl_queue) (L : list ptr) : list ptr :=
  if filep q =? NULL then L else L ++ [e].

Arguments upd_slot : simpl never.

Arguments upd_chain : simpl never.

Definition any_occupied (qs : list lwnl_queue) : bool :=
  existsb (fun q => negb (filep q =? NULL)) qs.

Definition any_pending (qs : list lwnl_queue) : bool :=
  existsb (fun q => negb (filep q =? NULL) && negb (front q =? NULL)) qs.

(** The event a call delivers: kind, payload pointer and payload length. *)
Definition built_data (type : lwnl_cb_status) (items : trwifi_scan_list_s)
    (out_p : ptr) : lwnl_cb_data :=
  match type with
  | LWNL_SCAN_DONE =>
      if out_p =? NULL then mk_cb_data LWNL_SCAN_FAILED NULL 0
      else mk_cb_data LWNL_SCAN_DONE out_p (SCAN_INFO_SIZE * Z.of_nat (length items))
  | _ => mk_cb_data type NULL 0
  end.

Definition built_buffers (type : lwnl_cb_status) (items : trwifi_scan_list_s)
    (out_p : ptr) (b : gmap Z (list Z)) : gmap Z (list Z) :=
  match type with
  | LWNL_SCAN_DONE => if out_p =? NULL then b else <[out_p := concat items]> b
  | _ => b
  end.

(** What the environment must guarantee for one emit: [kmm_malloc] hands
    out memory that is not in use, and the scan list is made of records
    of the declared size whose total fits an [int]. *)
Definition emit_ok (s : lwq_state) (type : lwnl_cb_status)
    (items : trwifi_scan_list_s) (evt_p out_p : ptr) : Prop :=
  (evt_p <> NULL -> events s !! evt_p = None) /\
  (type = LWNL_SCAN_DONE -> out_p <> NULL ->
   buffers s !! out_p = None /\
   0 < SCAN_INFO_SIZE /\ Forall sized items /\
   SCAN_INFO_SIZE * Z.of_nat (length items) <= INT_MAX).

(** The result of a call: return value, caller's buffer, new state.  The
    drain loop of a de-registration gets one unit of fuel per live node. *)
Definition step (o : op) (s : lwq_state) : outcome (Z * list Z * lwq_state) :=
  match o with
  | Emit type buffer evt_p out_p junk =>
      '(r, s') ← lwnl_add_event type buffer evt_p out_p junk s; Ok (r, [], s')
  | Read f buf len => lwnl_get_event f buf len s
  | Register f => let '(r, s') := lwnl_add_listener f s in Ok (r, [], s')
  | Deregister f =>
      '(r, s') ← lwnl_remove_listener (size (events s)) f s; Ok (r, [], s')
  end.

(** Assumptions on the environment of a call: the allocator and the scan
    list for an emit, a real file pointer for the listener calls. *)
Definition op_ok (s : lwq_state) (o : op) : Prop :=
  match o with
  | Emit type buffer evt_p out_p _ => emit_ok s type buffer evt_p out_p
  | Read _ _ _ => True
  | Register f => f <> NULL
  | Deregister f => f <> NULL
  end.

(** States the queue can be in: the freshly initialised one and those
    reached from it by calls. *)
Inductive reachable : lwq_state -> Prop :=
| reach_init :
    (LWNL_NPOLLWAITERS <= 127)%nat ->
    reachable (lwnl_queue_initialize (mk_state [] 0 ∅ ∅))
| reach_step s o r buf s' :
    reachable s -> op_ok s o -> step o s = Ok (r, buf, s') -> reachable s'.

(** The deliveries of one emitted event, as the consumer should see them. *)
Definition event_chunks (d : lwnl_cb_data) (items : trwifi_scan_list_s)
    : list (list Z) :=
  (le32 (status_code (status d)) ++ le32 (data_len d)) ::
  (if 0 <? data_len d then [concat items] else []).

Definition emitted (o : op) (r : Z) : list (list Z) :=
  match o with
  | Emit type buffer _ out_p _ =>
      if r =? 0 then event_chunks (built_data type buffer out_p) buffer else []
  | _ => []
  end.

(** What the consumer [f] receives from a call: the bytes a successful
    read of its own wrote into its buffer. *)
Definition observed (f : ptr) (o : op) (r : Z) (buf : list Z) : list (list Z) :=
  match o with
  | Read g _ _ => if (g =? f) && (0 <? r) then [take (Z.to_nat r) buf] else []
  | _ => []
  end.

(** The consumer [f] neither registers again nor de-registers. *)
Definition stays (f : ptr) (o : op) : Prop :=
  match o with
  | Register g | Deregister g => g <> f
  | _ => True
  end.

(** Runs a sequence of calls; collects what [f] received and what was
    emitted. *)
Fixpoint run (f : ptr) (ops : list op) (s : lwq_state)
    : outcome (list (list Z) * list (list Z) * lwq_state) :=
  match ops with
  | [] => Ok ([], [], s)
  | o :: ops' =>
      '(r, buf, s1) ← step o s;
      '(seen, sent, s2) ← run f ops' s1;
      Ok (observed f o r buf ++ seen, emitted o r ++ sent, s2)
  end.

Fixpoint valid (f : ptr) (ops : list op) (s : lwq_state) : Prop :=
  match ops with
  | [] => True
  | o :: ops' =>
      op_ok s o /\ stays f o /\
      forall r buf s', step o s = Ok (r, buf, s') -> valid f ops' s'
  end.

(** [n] successive reads by [f] with a buffer large enough for anything. *)
Fixpoint read_n (n : nat) (f : ptr) (s : lwq_state)
    : outcome (list (list Z) * lwq_state) :=
  match n with
  | O => Ok ([], s)
  | S n' =>
      '(r, buf, s1) ← lwnl_get_event f [] INT_MAX s;
      '(rest, s2) ← read_n n' f s1;
      Ok (observed f (Read f [] INT_MAX) r buf ++ rest, s2)
  end.

(** ** Drivers for the further properties *)

(** Registers the identities of [fs] one after the other; collects the
    return values. *)
Fixpoint register_all (fs : list ptr) (s : lwq_state) : list Z * lwq_state :=
  match fs with
  | [] => ([], s)
  | f :: fs' =>
      let '(r, s1) := lwnl_add_listener f s in
      let '(rs, s2) := register_all fs' s1 in
      (r :: rs, s2)
  end.

(** A call made on behalf of an identity other than [f]: a read, a
    registration or a de-registration. *)
Definition foreign (f : ptr) (o : op) : Prop :=
  match o with
  | Read g _ _ | Register g | Deregister g => g <> f
  | Emit _ _ _ _ _ => False
  end.

(** * Properties of the functions *)

(** ** Machine-integer facts *)

Lemma to_int8_small x : -128 <= x <= 127 -> to_int8 x = x.
Proof. intros H. unfold to_int8. rewrite Z.mod_small; lia. Qed.

Lemma to_int_small x : - 2147483648 <= x <= 2147483647 -> to_int x = x.
Proof. intros H. unfold to_int. rewrite Z.mod_small; lia. Qed.

Lemma to_uint32_small x : 0 <= x < 4294967296 -> to_uint32 x = x.
Proof. intros H. unfold to_uint32. rewrite Z.mod_small; lia. Qed.

Lemma to_size_t_small x : 0 <= x < 4294967296 -> to_size_t x = x.
Proof. intros H. unfold to_size_t. rewrite Z.mod_small; lia. Qed.

(** ** Chains *)

Lemma chain_null_inv h l : chain h NULL l -> l = [].
Proof. inversion 1; [done | congruence]. Qed.

Lemma chain_cons_inv h p x l :
  chain h p (x :: l) ->
  p = x /\ x <> NULL /\ exists e, h !! x = Some e /\ chain h (flink e) l.
Proof. inversion 1; subst. eauto. Qed.

Lemma chain_det h p l1 : chain h p l1 -> forall l2, chain h p l2 -> l1 = l2.
Proof.
  induction 1 as [| p e l Hp He Hc IH]; intros l2 H2.
  - symmetry. by eapply chain_null_inv.
  - inversion H2 as [| p' e' l' Hp' He' Hc']; subst; [congruence |].
    assert (e' = e) as -> by congruence. f_equal. by apply IH.
Qed.

Lemma chain_elem_live h p l x : chain h p l -> x ∈ l -> is_Some (h !! x) /\ x <> NULL.
Proof.
  induction 1 as [| p e l Hp He Hc IH]; intros Hx.
  - by apply elem_of_nil in Hx.
  - apply elem_of_cons in Hx as [-> | Hx]; [eauto | by apply IH].
Qed.

Lemma chain_from_elem h p l x :
  chain h p l -> x ∈ l -> exists l1 l2, l = l1 ++ x :: l2 /\ chain h x (x :: l2).
Proof.
  induction 1 as [| p e l Hp He Hc IH]; intros Hx.
  - by apply elem_of_nil in Hx.
  - apply elem_of_cons in Hx as [-> | Hx].
    + exists [], l. split; [done | by econstructor].
    + destruct (IH Hx) as (l1 & l2 & -> & Hc2).
      exists (p :: l1), l2. done.
Qed.

Lemma chain_head_fresh h p e l : h !! p = Some e -> chain h (flink e) l -> p ∉ l.
Proof.
  intros He Hc Hin.
  destruct (chain_from_elem _ _ _ _ Hc Hin) as (l1 & l2 & -> & Hc2).
  inversion Hc2 as [| p' e' l' Hp' He' Hc']; subst.
  assert (e' = e) as -> by congruence.
  pose proof (chain_det _ _ _ Hc _ Hc') as Heq.
  apply (f_equal length) in Heq. rewrite length_app in Heq. simpl in Heq. lia.
Qed.

Lemma chain_NoDup h p l : chain h p l -> NoDup l.
Proof.
  induction 1 as [| p e l Hp He Hc IH]; constructor; [| done].
  by eapply chain_head_fresh.
Qed.

(** A chain only depends on the [flink] fields of its own nodes. *)
Lemma chain_agree h h' p l :
  chain h p l ->
  (forall x e, x ∈ l -> h !! x = Some e ->
     exists e', h' !! x = Some e' /\ flink e' = flink e) ->
  chain h' p l.
Proof.
  induction 1 as [| p e l Hp He Hc IH]; intros Hag; [constructor |].
  destruct (Hag p e) as (e' & He' & Hfl); [by left | done |].
  econstructor; [done | exact He' |]. rewrite Hfl. apply IH.
  intros x ex Hx Hex. apply Hag; [by right | done].
Qed.

(** Appending a node behind the last one. *)
Lemma chain_snoc h h' p l r n en :
  chain h p l -> last l = Some r -> n <> NULL -> n ∉ l ->
  h' !! n = Some en -> flink en = NULL ->
  (forall x e, x ∈ l -> h !! x = Some e ->
     exists e', h' !! x = Some e' /\ flink e' = if decide (x = r) then n else flink e) ->
  chain h' p (l ++ [n]).
Proof.
  intros Hc. revert r.
  induction Hc as [| p e l Hp He Hc IH]; intros r Hlast Hn Hnin Hen Hfl Hag; [done |].
  destruct (Hag p e) as (e' & He' & Hfl'); [by left | done |].
  simpl. econstructor; [done | exact He' |].
  destruct l as [| y l'].
  - simpl in Hlast. injection Hlast as <-. rewrite decide_True in Hfl' by done.
    rewrite Hfl'.
    simpl. econstructor; [done | exact Hen |]. rewrite Hfl. constructor.
  - assert (Hpr : p <> r).
    { intros ->. apply (chain_head_fresh _ _ _ _ He Hc).
      change (last (r :: y :: l') = Some r) with (last (y :: l') = Some r) in Hlast.
      by apply last_Some_elem_of. }
    rewrite decide_False in Hfl' by done. rewrite Hfl'.
    apply (IH r); try done.
    + intros Hin. apply Hnin. by right.
    + intros x ex Hx Hex. apply Hag; [by right | done].
Qed.

(** ** Counting holders *)

Lemma holders_nonneg Ls p : 0 <= holders Ls p.
Proof. induction Ls as [| L Ls IH]; simpl; [lia | case_decide; lia]. Qed.

Lemma holders_le_length Ls p : holders Ls p <= Z.of_nat (length Ls).
Proof. induction Ls as [| L Ls IH]; simpl; [lia | case_decide; lia]. Qed.

Lemma holders_app Ls1 Ls2 p : holders (Ls1 ++ Ls2) p = holders Ls1 p + holders Ls2 p.
Proof. induction Ls1 as [| L Ls1 IH]; simpl; [lia | rewrite IH; lia]. Qed.

Lemma holders_zero Ls p L : holders Ls p = 0 -> L ∈ Ls -> p ∉ L.
Proof.
  induction Ls as [| L0 Ls IH]; simpl; intros H0 HL.
  - by apply elem_of_nil in HL.
  - pose proof (holders_nonneg Ls p).
    apply elem_of_cons in HL as [-> | HL].
    + case_decide; [lia | done].
    + apply IH; [| done]. case_decide; lia.
Qed.

(** ** Slots *)

Lemma occupied_count_app qs1 qs2 :
  occupied_count (qs1 ++ qs2) = occupied_count qs1 + occupied_count qs2.
Proof. induction qs1 as [| q qs1 IH]; simpl; [lia | rewrite IH; lia]. Qed.

Lemma occupied_count_bounds qs : 0 <= occupied_count qs <= Z.of_nat (length qs).
Proof. induction qs as [| q qs IH]; simpl; [lia | destruct (filep q =? NULL); lia]. Qed.

Lemma Forall2_impl_elem {A B} (P Q : A -> B -> Prop) l k :
  Forall2 P l k ->
  (forall x y, x ∈ l -> y ∈ k -> P x y -> Q x y) ->
  Forall2 Q l k.
Proof.
  induction 1 as [| x y l k Hxy _ IH]; intros HPQ; constructor.
  - apply HPQ; [by left | by left | done].
  - apply IH. intros x' y' Hx' Hy'. apply HPQ; by right.
Qed.

Lemma chain_front_in h p l : chain h p l -> p <> NULL -> p ∈ l.
Proof. inversion 1; [congruence | by left]. Qed.

Lemma chain_front_null h p : chain h p [] -> p = NULL.
Proof. by inversion 1. Qed.

Lemma slot_ok_agree h h' q L : slot_ok h q L -> agree_on h h' L -> slot_ok h' q L.
Proof.
  intros [Hc Hr Hf Hph] Hag. split; [| done | done |].
  - eapply chain_agree; [done |]. intros x e Hx He.
    destruct (Hag x e Hx He) as (e' & He' & Hfl & _). eauto.
  - destruct Hph as [H0 | (H1 & Hne & e & He & Hlen)]; [by left | right].
    split; [done |]. split; [done |].
    destruct (Hag (front q) e) as (e' & He' & _ & Hd); [by eapply chain_front_in | done |].
    exists e'. by rewrite Hd.
Qed.

Lemma wf_lengths s Ls : wf s Ls -> length (g_queue s) = length Ls.
Proof. intros H. eapply Forall2_length, wf_slots, H. Qed.

Lemma wf_chain_live s Ls L x :
  wf s Ls -> L ∈ Ls -> x ∈ L -> is_Some (events s !! x) /\ x <> NULL.
Proof.
  intros Hwf HL Hx.
  destruct (proj1 (list_elem_of_lookup Ls L) HL) as [i Hi].
  destruct (Forall2_lookup_r _ _ _ _ _ (wf_slots _ _ Hwf) Hi) as (q & _ & Hq).
  eapply chain_elem_live; [apply Hq | done].
Qed.

(** ** Releasing the node at the head of a slot *)

Lemma wf_split s qs1 q qs2 Ls1 L Ls2 :
  wf s (Ls1 ++ L :: Ls2) -> g_queue s = qs1 ++ q :: qs2 -> length qs1 = length Ls1 ->
  Forall2 (slot_ok (events s)) qs1 Ls1 /\ slot_ok (events s) q L /\
  Forall2 (slot_ok (events s)) qs2 Ls2.
Proof.
  intros Hwf Hq Hlen. pose proof (wf_slots _ _ Hwf) as Hs. rewrite Hq in Hs.
  apply Forall2_app_inv in Hs as [H1 H2]; [| done].
  apply Forall2_cons_1 in H2 as [H2 H3]. done.
Qed.

Lemma release_events_agree p e h L :
  h !! p = Some e -> (refs e - 1 <= 0 -> p ∉ L) -> agree_on h (release_events p e h) L.
Proof.
  intros He Hfree x ex Hx Hex. unfold release_events.
  destruct (0 <? refs e - 1) eqn:Hr.
  - destruct (decide (x = p)) as [-> | Hne].
    + rewrite lookup_insert_eq. assert (ex = e) as -> by congruence. eauto.
    + rewrite lookup_insert_ne by done. eauto.
  - apply Z.ltb_ge in Hr. rewrite lookup_delete_ne; [eauto |].
    intros <-. by apply Hfree.
Qed.

Lemma release_events_lookup p e h x e1 :
  h !! p = Some e -> release_events p e h !! x = Some e1 ->
  exists e0, h !! x = Some e0 /\ evt_data e1 = evt_data e0 /\ flink e1 = flink e0 /\
    ((x = p /\ 0 < refs e - 1 /\ refs e1 = refs e - 1) \/ (x <> p /\ e1 = e0)).
Proof.
  intros He. unfold release_events. destruct (0 <? refs e - 1) eqn:Hr.
  - apply Z.ltb_lt in Hr. destruct (decide (x = p)) as [-> | Hne].
    + rewrite lookup_insert_eq. intros [= <-]. exists e. split; [done |].
      split; [done |]. split; [done |]. left. done.
    + rewrite lookup_insert_ne by done. intros Hx. exists e1. eauto 10.
  - destruct (decide (x = p)) as [-> | Hne].
    + by rewrite lookup_delete_eq.
    + rewrite lookup_delete_ne by done. intros Hx. exists e1. eauto 10.
Qed.

Lemma release_head s qs1 q qs2 Ls1 p L' Ls2 :
  wf s (Ls1 ++ (p :: L') :: Ls2) ->
  g_queue s = qs1 ++ q :: qs2 -> length qs1 = length Ls1 ->
  exists e, events s !! p = Some e /\ front q = p /\ p <> NULL /\
    filep q <> NULL /\ 1 <= refs e <= 127 /\
    chain (events s) (flink e) L' /\
    _lwnl_remove_event p (events s) (buffers s)
      = Ok (0, release_events p e (events s), release_buffers e (buffers s)) /\
    wf (mk_state (qs1 ++ set_front (flink e) (set_check_header 0 q) :: qs2)
                 (g_connected s)
                 (release_events p e (events s)) (release_buffers e (buffers s)))
       (Ls1 ++ L' :: Ls2).
Proof.
  intros Hwf Hq Hlen.
  destruct (wf_split _ _ _ _ _ _ _ Hwf Hq Hlen) as (Hs1 & Hsq & Hs2).
  pose proof (so_chain _ _ _ Hsq) as Hc.
  apply chain_cons_inv in Hc as (Hfr & Hp & e & He & Hct).
  exists e.
  assert (Hfilep : filep q <> NULL).
  { intros Hnull. destruct (so_free _ _ _ Hsq Hnull) as [Hf0 _]. congruence. }
  assert (Hrefs : refs e = holders Ls1 p + 1 + holders Ls2 p).
  { rewrite (wf_refs _ _ Hwf p e He), holders_app. simpl.
    rewrite decide_True by (by left). lia. }
  pose proof (holders_nonneg Ls1 p) as Hn1. pose proof (holders_nonneg Ls2 p) as Hn2.
  assert (Hbound : 1 <= refs e <= 127).
  { split; [lia |]. rewrite (wf_refs _ _ Hwf p e He).
    pose proof (holders_le_length (Ls1 ++ (p :: L') :: Ls2) p) as Hle.
    rewrite <- (wf_lengths _ _ Hwf) in Hle. pose proof (wf_bound _ _ Hwf). lia. }
  assert (HpL' : p ∉ L') by (by eapply chain_head_fresh).
  assert (Hothers : refs e - 1 <= 0 -> forall L, L ∈ Ls1 ++ Ls2 -> p ∉ L).
  { intros Hz L HL. apply elem_of_app in HL as [HL | HL].
    - eapply holders_zero; [| done]. lia.
    - eapply holders_zero; [| done]. lia. }
  assert (Hpay := wf_payload _ _ Hwf p e He).
  split; [done |]. split; [done |]. split; [done |]. split; [done |].
  split; [done |]. split; [done |]. split.
  { unfold _lwnl_remove_event, release_events, release_buffers. rewrite He. simpl.
    rewrite to_int8_small by lia. destruct (0 <? refs e - 1); [done |].
    destruct (data (evt_data e) =? NULL) eqn:Hd; [done |].
    apply Z.eqb_neq in Hd. destruct Hpay as (_ & _ & Hb).
    destruct (Hb Hd) as (bytes & Hbytes & _).
    unfold kmm_free_buffer. by rewrite Hbytes. }
  split; simpl.
  - apply Forall2_app; [| constructor].
    + eapply Forall2_impl_elem; [exact Hs1 |]. intros x y _ Hy Hxy.
      eapply slot_ok_agree; [done |]. apply release_events_agree; [done |].
      intros Hz. apply Hothers; [done |]. apply elem_of_app. by left.
    + split; simpl.
      * eapply chain_agree; [done |]. intros x ex Hx Hex.
        destruct (release_events_agree p e (events s) L' He (fun _ => HpL') x ex Hx Hex)
          as (e' & He' & Hfl & _). eauto.
      * intros Hne. rewrite <- (so_rear _ _ _ Hsq) by done.
        destruct L'; [done | done].
      * intros Hnull. by destruct Hfilep.
      * by left.
    + eapply Forall2_impl_elem; [exact Hs2 |]. intros x y _ Hy Hxy.
      eapply slot_ok_agree; [done |]. apply release_events_agree; [done |].
      intros Hz. apply Hothers; [done |]. apply elem_of_app. by right.
  - pose proof (wf_bound _ _ Hwf) as Hb. rewrite Hq in Hb.
    rewrite !length_app in *. simpl in *. done.
  - rewrite (wf_connected _ _ Hwf), Hq, !occupied_count_app. simpl. done.
  - intros x e1 Hx.
    destruct (release_events_lookup _ _ _ _ _ He Hx)
      as (e0 & He0 & _ & _ & [(-> & Hpos & Hr) | (Hne & ->)]).
    + rewrite Hr, Hrefs, holders_app. simpl. rewrite decide_False by done. lia.
    + rewrite (wf_refs _ _ Hwf x e0 He0), !holders_app. simpl.
      assert (Hiff : x ∈ p :: L' <-> x ∈ L') by (rewrite elem_of_cons; tauto).
      f_equal. f_equal. repeat case_decide; first [done | tauto].
  - destruct (wf_tail _ _ Hwf) as [r Hr]. exists r. intros L HL Hne.
    apply elem_of_app in HL as [HL | HL].
    + apply Hr; [| done]. apply elem_of_app. by left.
    + apply elem_of_cons in HL as [-> | HL].
      * rewrite <- (Hr (p :: L')); [by destruct L' | | done].
        apply elem_of_app. right. by left.
      * apply Hr; [| done]. apply elem_of_app. right. by right.
  - intros x e1 Hx.
    destruct (release_events_lookup _ _ _ _ _ He Hx)
      as (e0 & He0 & Hd & _ & Hcase).
    destruct (wf_payload _ _ Hwf x e0 He0) as (Hlen0 & Hnull & Hbuf).
    unfold payload_ok. rewrite Hd. split; [done |]. split; [done |].
    intros Hdn. destruct (Hbuf Hdn) as (bytes & Hbytes & Hl).
    exists bytes. split; [| done]. unfold release_buffers.
    destruct (0 <? refs e - 1) eqn:Hr; [done |].
    destruct (data (evt_data e) =? NULL) eqn:Hde; [done |].
    rewrite lookup_delete_ne; [done |]. intros Heq.
    destruct Hcase as [(_ & Hpos & _) | (Hne & _)].
    * apply Z.ltb_ge in Hr. lia.
    * apply Hne. symmetry. apply Z.eqb_neq in Hde.
      eapply (wf_excl _ _ Hwf p x e e0); done.
  - intros x1 x2 e1 e2 Hx1 Hx2 Hdn Heq.
    destruct (release_events_lookup _ _ _ _ _ He Hx1) as (a1 & Ha1 & Hd1 & _ & _).
    destruct (release_events_lookup _ _ _ _ _ He Hx2) as (a2 & Ha2 & Hd2 & _ & _).
    rewrite Hd1, Hd2 in *. eapply (wf_excl _ _ Hwf); done.
Qed.

Lemma wf_replace_slot s qs1 q q' qs2 Ls1 L Ls2 gc' :
  wf s (Ls1 ++ L :: Ls2) -> g_queue s = qs1 ++ q :: qs2 -> length qs1 = length Ls1 ->
  slot_ok (events s) q' L ->
  gc' = occupied_count (qs1 ++ q' :: qs2) ->
  wf (mk_state (qs1 ++ q' :: qs2) gc' (events s) (buffers s)) (Ls1 ++ L :: Ls2).
Proof.
  intros Hwf Hq Hlen Hq' Hgc.
  destruct (wf_split _ _ _ _ _ _ _ Hwf Hq Hlen) as (Hs1 & Hsq & Hs2).
  split; simpl.
  - apply Forall2_app; [done |]. by constructor.
  - pose proof (wf_bound _ _ Hwf) as Hb. rewrite Hq in Hb.
    rewrite !length_app in *. simpl in *. done.
  - done.
  - apply (wf_refs _ _ Hwf).
  - apply (wf_tail _ _ Hwf).
  - apply (wf_payload _ _ Hwf).
  - apply (wf_excl _ _ Hwf).
Qed.

(** ** Linear search for a slot *)

Lemma first_slot_dec f qs :
  Forall (fun x => filep x <> f) qs \/ exists qs1 q qs2, first_slot f qs qs1 q qs2.
Proof.
  induction qs as [| q qs IH]; [by left |].
  destruct (decide (filep q = f)) as [Heq | Hne].
  - right. exists [], q, qs. by repeat split.
  - destruct IH as [Hall | (qs1 & q0 & qs2 & -> & Hall & Hf)].
    + left. by constructor.
    + right. exists (q :: qs1), q0, qs2. repeat split; [| done]. by constructor.
Qed.

Lemma get_event_loop_miss f buf len qs h b :
  Forall (fun x => filep x <> f) qs ->
  get_event_loop f buf len qs h b = Ok (-1, buf, qs, h, b).
Proof.
  induction 1 as [| q qs Hq _ IH]; simpl; [done |].
  apply Z.eqb_neq in Hq. rewrite Hq. simpl. by rewrite IH.
Qed.

Lemma get_event_loop_hit f buf len qs qs1 q qs2 h b :
  first_slot f qs qs1 q qs2 ->
  get_event_loop f buf len qs h b =
    '(r, buf', q', h', b') ← get_event_slot q buf len h b;
    Ok (r, buf', qs1 ++ q' :: qs2, h', b').
Proof.
  intros (-> & Hall & Hf).
  induction Hall as [| x qs1 Hx _ IH]; simpl.
  - apply Z.eqb_eq in Hf. rewrite Hf. simpl. done.
  - apply Z.eqb_neq in Hx. rewrite Hx. simpl. rewrite IH.
    destruct (get_event_slot q buf len h b) as [[[[[r buf'] q'] h'] b'] | |]; done.
Qed.

Lemma remove_listener_loop_miss fuel f qs h b :
  Forall (fun x => filep x <> f) qs ->
  remove_listener_loop fuel f qs h b = Ok (None, h, b).
Proof.
  induction 1 as [| q qs Hq _ IH]; simpl; [done |].
  apply Z.eqb_neq in Hq. rewrite Hq. by rewrite IH.
Qed.

Lemma remove_listener_loop_hit fuel f qs qs1 q qs2 h b :
  first_slot f qs qs1 q qs2 ->
  remove_listener_loop fuel f qs h b =
    '(h', b') ← drain fuel (front q) h b;
    Ok (Some (qs1 ++ mk_queue NULL 0 NULL NULL :: qs2), h', b').
Proof.
  intros (-> & Hall & Hf).
  induction Hall as [| x qs1 Hx _ IH]; simpl.
  - apply Z.eqb_eq in Hf. rewrite Hf. done.
  - apply Z.eqb_neq in Hx. rewrite Hx. rewrite IH.
    destruct (drain fuel (front q) h b) as [[h' b'] | |]; done.
Qed.

Lemma add_listener_loop_miss f qs :
  Forall (fun x => filep x <> NULL) qs -> add_listener_loop f qs = None.
Proof.
  induction 1 as [| q qs Hq _ IH]; simpl; [done |].
  apply Z.eqb_neq in Hq. rewrite Hq. by rewrite IH.
Qed.

Lemma add_listener_loop_hit f qs qs1 q qs2 :
  first_slot NULL qs qs1 q qs2 ->
  add_listener_loop f qs = Some (qs1 ++ set_filep f q :: qs2).
Proof.
  intros (-> & Hall & Hf).
  induction Hall as [| x qs1 Hx _ IH]; simpl.
  - apply Z.eqb_eq in Hf. by rewrite Hf.
  - apply Z.eqb_neq in Hx. rewrite Hx. by rewrite IH.
Qed.

Lemma check_queue_loop_miss f qs :
  Forall (fun x => filep x <> f) qs -> check_queue_loop f qs = 0.
Proof.
  induction 1 as [| q qs Hq _ IH]; simpl; [done |].
  apply Z.eqb_neq in Hq. by rewrite Hq.
Qed.

Lemma check_queue_loop_hit f qs qs1 q qs2 :
  first_slot f qs qs1 q qs2 ->
  check_queue_loop f qs = if negb (front q =? NULL) then 1 else 0.
Proof.
  intros (-> & Hall & Hf).
  induction Hall as [| x qs1 Hx _ IH]; simpl.
  - apply Z.eqb_eq in Hf. by rewrite Hf.
  - apply Z.eqb_neq in Hx. by rewrite Hx.
Qed.

Lemma first_slot_chains f s Ls qs1 q qs2 :
  wf s Ls -> first_slot f (g_queue s) qs1 q qs2 ->
  exists Ls1 L Ls2, Ls = Ls1 ++ L :: Ls2 /\ length qs1 = length Ls1.
Proof.
  intros Hwf (Hq & _ & _). pose proof (wf_slots _ _ Hwf) as Hs. rewrite Hq in Hs.
  apply Forall2_app_inv_l in Hs as (Ls1 & Ls' & H1 & H2 & ->).
  apply Forall2_cons_inv_l in H2 as (L & Ls2 & _ & _ & ->).
  exists Ls1, L, Ls2. split; [done |]. by eapply Forall2_length.
Qed.

(** ** What a consumer still has to receive *)

Lemma header_read_bytes buf a c :
  take 8 (memcpy (memcpy buf 0 (le32 a)) 4 (le32 c)) = le32 a ++ le32 c.
Proof. unfold memcpy, le32. simpl. done. Qed.

Lemma payload_read_bytes buf bytes n :
  Z.of_nat (length bytes) = n ->
  take (Z.to_nat n) (memcpy buf 0 (take (Z.to_nat n) bytes)) = bytes.
Proof.
  intros Hn. assert (Z.to_nat n = length bytes) as -> by lia.
  unfold memcpy. rewrite firstn_all. simpl.
  rewrite take_app_length. done.
Qed.

Lemma release_buffers_lookup s Ls p e x e0 :
  wf s Ls -> events s !! p = Some e -> events s !! x = Some e0 ->
  (x <> p \/ 0 < refs e - 1) -> data (evt_data e0) <> NULL ->
  release_buffers e (buffers s) !! data (evt_data e0) = buffers s !! data (evt_data e0).
Proof.
  intros Hwf He He0 Hcase Hdn. unfold release_buffers.
  destruct (0 <? refs e - 1) eqn:Hr; [done |].
  destruct (data (evt_data e) =? NULL) eqn:Hde; [done |].
  apply Z.ltb_ge in Hr. apply Z.eqb_neq in Hde.
  rewrite lookup_delete_ne; [done |]. intros Heq.
  destruct Hcase as [Hne | Hpos]; [| lia].
  apply Hne. symmetry. eapply (wf_excl _ _ Hwf p x e e0); done.
Qed.

Lemma frame_refl h b : frame h b h b.
Proof. by intros x Hx. Qed.

Lemma frame_trans h1 b1 h2 b2 h3 b3 :
  frame h1 b1 h2 b2 -> frame h2 b2 h3 b3 -> frame h1 b1 h3 b3.
Proof.
  intros H12 H23 x Hx. destruct (H23 x Hx) as [Hx2 Heq2].
  destruct (H12 x Hx2) as [Hx1 Heq1]. split; [done | congruence].
Qed.

Lemma release_chunks s Ls p e :
  wf s Ls -> events s !! p = Some e ->
  frame (events s) (buffers s)
        (release_events p e (events s)) (release_buffers e (buffers s)).
Proof.
  intros Hwf He x [e1 Hx]. unfold node_chunks. rewrite Hx.
  destruct (release_events_lookup _ _ _ _ _ He Hx) as (e0 & He0 & Hd & _ & Hcase).
  rewrite He0. split; [done |]. unfold header_of. rewrite Hd. f_equal.
  destruct (0 <? data_len (evt_data e0)) eqn:Hlen; [| done].
  apply Z.ltb_lt in Hlen.
  destruct (wf_payload _ _ Hwf x e0 He0) as (_ & Hnull & _).
  assert (Hdn : data (evt_data e0) <> NULL) by (intros Hn; specialize (Hnull Hn); lia).
  rewrite (release_buffers_lookup s Ls p e x e0); try done.
  destruct Hcase as [(_ & Hpos & _) | (Hne & _)]; [by right | by left].
Qed.

Lemma evolves_refl h b : evolves h b h b.
Proof.
  split; [apply frame_refl | | done].
  intros p e He Hpos. left. exists e. split; [done |]. split; [done |].
  split; [lia |]. done.
Qed.

Lemma evolves_trans h1 b1 h2 b2 h3 b3 :
  evolves h1 b1 h2 b2 -> evolves h2 b2 h3 b3 -> evolves h1 b1 h3 b3.
Proof.
  intros [Hf12 Hl12 Hb12] [Hf23 Hl23 Hb23].
  split; [by eapply frame_trans | | by eauto].
  intros p e He Hpos.
  destruct (Hl12 p e He Hpos) as [(e2 & He2 & Hpos2 & Hle2 & Hd2 & Hb2) | [Hnone Hfreed]].
  - destruct (Hl23 p e2 He2 Hpos2) as [(e3 & He3 & Hpos3 & Hle3 & Hd3 & Hb3) | [Hnone Hfreed]].
    + left. exists e3. split; [done |]. split; [done |]. split; [lia |].
      split; [congruence |]. intros Hdn. rewrite <- Hb2 by done.
      rewrite <- Hd2. apply Hb3. by rewrite Hd2.
    + right. split; [done |]. intros Hdn. rewrite <- Hd2. apply Hfreed. by rewrite Hd2.
  - right. split.
    + destruct (h3 !! p) eqn:H3; [| done].
      destruct (Hf23 p) as [[? Hsome] _]; [eauto | congruence].
    + intros Hdn. specialize (Hfreed Hdn).
      destruct (b3 !! data (evt_data e)) eqn:H3; [| done].
      apply Hb23 in H3. congruence.
Qed.

Lemma release_evolves s Ls p e :
  wf s Ls -> events s !! p = Some e -> 1 <= refs e ->
  evolves (events s) (buffers s)
          (release_events p e (events s)) (release_buffers e (buffers s)).
Proof.
  intros Hwf He Hrefs. split; [by eapply release_chunks | |].
  - intros x ex Hex Hpos. destruct (decide (x = p)) as [-> | Hne].
    + assert (ex = e) as -> by congruence.
      unfold release_events, release_buffers.
      destruct (0 <? refs e - 1) eqn:Hr.
      * apply Z.ltb_lt in Hr. left. exists (set_refs (refs e - 1) e).
        rewrite lookup_insert_eq. simpl. split; [done |]. split; [lia |].
        split; [lia |]. done.
      * right. rewrite lookup_delete_eq. split; [done |]. intros Hdn.
        apply Z.eqb_neq in Hdn. rewrite Hdn. apply lookup_delete_eq.
    + left. exists ex. split.
      { unfold release_events. destruct (0 <? refs e - 1);
          [by rewrite lookup_insert_ne | by rewrite lookup_delete_ne]. }
      split; [done |]. split; [lia |]. split; [done |]. intros Hdn.
      eapply release_buffers_lookup; try done. by left.
  - intros k v. unfold release_buffers.
    destruct (0 <? refs e - 1); [done |].
    destruct (data (evt_data e) =? NULL); [done |].
    intros Hk. destruct (decide (k = data (evt_data e))) as [-> | Hne].
    + by rewrite lookup_delete_eq in Hk.
    + by rewrite lookup_delete_ne in Hk.
Qed.

Lemma chunks_frame (h h' : gmap Z lwnl_event) (b b' : gmap Z (list Z)) (L : list ptr) :
  (forall x, x ∈ L -> node_chunks h' b' x = node_chunks h b x) ->
  concat (map (node_chunks h' b') L) = concat (map (node_chunks h b) L).
Proof.
  induction L as [| y L IH]; intros Hfr; simpl; [done |].
  rewrite Hfr by (by left). rewrite IH; [done |].
  intros x Hx. apply Hfr. by right.
Qed.

(** ** One call of [lwnl_get_event] on the slot it found *)

Lemma slot_chunks_cons h b q p L e :
  h !! p = Some e ->
  slot_chunks h b q (p :: L) =
    drop (if check_header q =? 0 then 0%nat else 1%nat)
         (header_of e ::
          (if 0 <? data_len (evt_data e)
           then [default [] (b !! data (evt_data e))] else [])
          ++ concat (map (node_chunks h b) L)).
Proof. intros He. unfold slot_chunks. simpl. unfold node_chunks at 1. by rewrite He. Qed.

Lemma get_event_slot_spec s qs1 q qs2 Ls1 L Ls2 buf len :
  wf s (Ls1 ++ L :: Ls2) -> g_queue s = qs1 ++ q :: qs2 -> length qs1 = length Ls1 ->
  exists r buf' q' h' b' L',
    get_event_slot q buf len (events s) (buffers s) = Ok (r, buf', q', h', b') /\
    wf (mk_state (qs1 ++ q' :: qs2) (g_connected s) h' b') (Ls1 ++ L' :: Ls2) /\
    filep q' = filep q /\
    evolves (events s) (buffers s) h' b' /\
    ((r <= 0 /\ buf' = buf /\ q' = q /\ h' = events s /\ b' = buffers s /\ L' = L /\
      nothing_read (events s) q L len r) \/
     (0 < r /\
      take (Z.to_nat r) buf' :: slot_chunks h' b' q' L'
      = slot_chunks (events s) (buffers s) q L)).
Proof.
  intros Hwf Hq Hlen. destruct s as [qs gc h b]. simpl in *. subst qs.
  destruct (wf_split _ _ _ _ _ _ _ Hwf eq_refl Hlen) as (Hs1 & Hsq & Hs2). simpl in *.
  unfold get_event_slot.
  destruct L as [| p L'].
  - rewrite (chain_front_null _ _ (so_chain _ _ _ Hsq)). simpl.
    exists 0, buf, q, h, b, []. repeat (split; [done || apply evolves_refl |]). left.
    repeat (split; [done |]). by left.
  - destruct (release_head _ _ _ _ _ _ _ _ Hwf eq_refl Hlen)
      as (e & He & Hfr & Hp & Hfilep & Hrefs & Hct & Hrem & Hwf'). simpl in *.
    assert (Hev : evolves h b (release_events p e h) (release_buffers e b)).
    { apply (release_evolves _ _ p e Hwf He). lia. }
    pose proof (ev_frame _ _ _ _ Hev) as Hframe.
    rewrite Hfr. apply Z.eqb_neq in Hp as Hpb. rewrite Hpb, He.
    destruct (wf_payload _ _ Hwf p e He) as (Hlen0 & Hnull & Hbuf). simpl in *.
    assert (Hrest : concat (map (node_chunks (release_events p e h) (release_buffers e b)) L')
                    = concat (map (node_chunks h b) L')).
    { apply chunks_frame. intros x Hx. apply Hframe.
      eapply (wf_chain_live _ _ L' x Hwf'); [| done].
      apply elem_of_app. right. by left. }
    destruct (check_header q =? 0) eqn:Hch.
    + apply Z.eqb_eq in Hch.
      destruct (to_size_t len <? 4 + 4) eqn:Hsmall.
      { exists (-1), buf, q, h, b, (p :: L').
        repeat (split; [done || apply evolves_refl |]). left.
        repeat (split; [done |]). right. split; [done |]. exists e. rewrite Hfr.
        repeat (split; [done |]). unfold too_small. rewrite Hch. simpl.
        by apply Z.ltb_lt in Hsmall. }
      destruct (0 <? data_len (evt_data e)) eqn:Hpl.
      * exists (4 + 4), (memcpy (memcpy buf 0 (le32 (status_code (status (evt_data e)))))
                           4 (le32 (data_len (evt_data e)))),
          (set_check_header 1 q), h, b, (p :: L').
        split; [done |]. split.
        { apply (wf_replace_slot (mk_state (qs1 ++ q :: qs2) gc h b) qs1 q _ qs2 Ls1 (p :: L') Ls2);
            try done.
          - split; simpl.
            + apply (so_chain _ _ _ Hsq).
            + apply (so_rear _ _ _ Hsq).
            + intros Hn. by destruct Hfilep.
            + right. split; [done |]. rewrite Hfr. split; [done |].
              exists e. split; [done |]. by apply Z.ltb_lt.
          - pose proof (wf_connected _ _ Hwf) as Hgc. simpl in Hgc.
            rewrite Hgc, !occupied_count_app. done. }
        split; [done |]. split; [apply evolves_refl |]. right. split; [lia |].
        change (Z.to_nat (4 + 4)) with 8%nat. rewrite header_read_bytes.
        rewrite !(slot_chunks_cons _ _ _ _ _ _ He). simpl. rewrite Hch, Hpl. simpl. done.
      * rewrite Hrem. simpl.
        exists (4 + 4), (memcpy (memcpy buf 0 (le32 (status_code (status (evt_data e)))))
                           4 (le32 (data_len (evt_data e)))),
          (set_front (flink e) q), (release_events p e h), (release_buffers e b), L'.
        split; [done |].
        assert (Hqeq : set_front (flink e) (set_check_header 0 q) = set_front (flink e) q).
        { destruct q; simpl in *; subst; done. }
        rewrite Hqeq in Hwf'. split; [done |]. split; [done |]. split; [done |].
        right. split; [lia |].
        change (Z.to_nat (4 + 4)) with 8%nat. rewrite header_read_bytes.
        rewrite (slot_chunks_cons _ _ _ _ _ _ He). unfold slot_chunks. simpl.
        rewrite Hch, Hpl, Hrest. simpl. done.
    + apply Z.eqb_neq in Hch.
      destruct (so_phase _ _ _ Hsq) as [H0 | (H1 & _ & e' & He' & Hpos)]; [done |].
      rewrite Hfr in He'. assert (e' = e) as -> by congruence.
      assert (Hdn : data (evt_data e) <> NULL) by (intros Hn; specialize (Hnull Hn); lia).
      destruct (Hbuf Hdn) as (bytes & Hbytes & Hblen).
      destruct (to_uint32 len <? data_len (evt_data e)) eqn:Hsmall.
      { exists (-1), buf, q, h, b, (p :: L').
        repeat (split; [done || apply evolves_refl |]). left.
        repeat (split; [done |]). right. split; [done |]. exists e. rewrite Hfr.
        repeat (split; [done |]). unfold too_small.
        apply Z.eqb_neq in Hch. rewrite Hch. by apply Z.ltb_lt in Hsmall. }
      rewrite Hbytes. rewrite Hblen, Z.ltb_irrefl. rewrite Hrem. simpl.
      exists (to_int (data_len (evt_data e))),
        (memcpy buf 0 (take (Z.to_nat (data_len (evt_data e))) bytes)),
        (set_front (flink e) (set_check_header 0 q)),
        (release_events p e h), (release_buffers e b), L'.
      split; [done |]. split; [done |]. split; [done |]. split; [done |].
      right. rewrite to_int_small by (unfold INT_MAX in *; lia). split; [lia |].
      rewrite payload_read_bytes by done.
      rewrite (slot_chunks_cons _ _ _ _ _ _ He). unfold slot_chunks. simpl.
      apply Z.eqb_neq in Hch. rewrite Hch. apply Z.ltb_lt in Hpos. rewrite Hpos, Hrest.
      simpl. rewrite Hbytes. done.
Qed.

(** ** Slots by index *)

Lemma insert_app_cons {A} (l1 l2 : list A) (x y : A) :
  <[length l1 := y]> (l1 ++ x :: l2) = l1 ++ y :: l2.
Proof. induction l1 as [| a l1 IH]; simpl; [done | by rewrite IH]. Qed.

Lemma first_slot_at f qs qs1 q qs2 :
  first_slot f qs qs1 q qs2 -> slot_at f qs (length qs1) q.
Proof.
  intros (-> & Hall & Hf). split; [by apply list_lookup_middle |]. split; [done |].
  intros k x Hk Hx. rewrite lookup_app_l in Hx by done.
  rewrite Forall_forall in Hall. apply Hall. by eapply list_elem_of_lookup_2.
Qed.

Lemma slot_at_first f qs i q :
  slot_at f qs i q ->
  first_slot f qs (take i qs) q (drop (S i) qs) /\ length (take i qs) = i.
Proof.
  intros (Hi & Hf & Hbefore).
  pose proof (lookup_lt_Some _ _ _ Hi) as Hlt.
  split; [| rewrite length_take; lia].
  split; [| split; [| done]].
  - symmetry. by apply take_drop_middle.
  - apply Forall_forall. intros x Hx.
    apply list_elem_of_lookup in Hx as [k Hk].
    pose proof (lookup_lt_Some _ _ _ Hk) as Hklt. rewrite length_take in Hklt.
    rewrite lookup_take_lt in Hk by lia. apply (Hbefore k); [lia | done].
Qed.

Lemma slot_at_insert_same f qs i q q' :
  slot_at f qs i q -> filep q' = f -> slot_at f (<[i := q']> qs) i q'.
Proof.
  intros (Hi & Hf & Hb) Hf'. pose proof (lookup_lt_Some _ _ _ Hi) as Hlt.
  split; [by apply list_lookup_insert_eq |]. split; [done |].
  intros k x Hk Hx. rewrite list_lookup_insert_ne in Hx by lia. by eapply Hb.
Qed.

Lemma slot_at_insert_other f qs i q j q' :
  slot_at f qs i q -> i <> j -> filep q' <> f -> slot_at f (<[j := q']> qs) i q.
Proof.
  intros (Hi & Hf & Hb) Hij Hf'.
  split; [by rewrite list_lookup_insert_ne |]. split; [done |].
  intros k x Hk Hx. destruct (decide (j = k)) as [-> | Hjk].
  - destruct (decide (k < length qs)%nat) as [Hlt | Hge].
    + rewrite list_lookup_insert_eq in Hx by done. by injection Hx as <-.
    + rewrite list_insert_ge in Hx by lia. by eapply Hb.
  - rewrite list_lookup_insert_ne in Hx by done. by eapply Hb.
Qed.

Lemma slot_at_split s Ls f i q :
  wf s Ls -> slot_at f (g_queue s) i q ->
  exists qs1 qs2 Ls1 L Ls2,
    g_queue s = qs1 ++ q :: qs2 /\ Ls = Ls1 ++ L :: Ls2 /\
    length qs1 = i /\ length Ls1 = i /\ Ls !! i = Some L /\
    first_slot f (g_queue s) qs1 q qs2.
Proof.
  intros Hwf Hat. destruct (slot_at_first _ _ _ _ Hat) as [Hfs Hlen].
  destruct (first_slot_chains _ _ _ _ _ _ Hwf Hfs) as (Ls1 & L & Ls2 & -> & Hl).
  exists (take i (g_queue s)), (drop (S i) (g_queue s)), Ls1, L, Ls2.
  split; [apply Hfs |]. split; [done |]. split; [done |].
  split; [lia |]. split; [| done].
  assert (i = length Ls1) as -> by lia. by apply list_lookup_middle.
Qed.

(** ** Read: [lwnl_get_event] as a whole *)

Lemma lwnl_get_event_miss f buf len s :
  Forall (fun x => filep x <> f) (g_queue s) ->
  lwnl_get_event f buf len s = Ok (-1, buf, s).
Proof.
  intros Hall. unfold lwnl_get_event. rewrite get_event_loop_miss by done.
  simpl. by destruct s.
Qed.

Lemma lwnl_get_event_spec s Ls f buf len i q :
  wf s Ls -> slot_at f (g_queue s) i q ->
  exists L r buf' q' L' s',
    Ls !! i = Some L /\
    lwnl_get_event f buf len s = Ok (r, buf', s') /\
    get_event_slot q buf len (events s) (buffers s)
      = Ok (r, buf', q', events s', buffers s') /\
    g_queue s' = <[i := q']> (g_queue s) /\
    g_connected s' = g_connected s /\
    wf s' (<[i := L']> Ls) /\
    filep q' = f /\
    evolves (events s) (buffers s) (events s') (buffers s') /\
    ((r <= 0 /\ buf' = buf /\ q' = q /\ s' = s /\ L' = L /\
      nothing_read (events s) q L len r) \/
     (0 < r /\
      take (Z.to_nat r) buf' :: slot_chunks (events s') (buffers s') q' L'
      = slot_chunks (events s) (buffers s) q L)).
Proof.
  intros Hwf Hat.
  destruct (slot_at_split _ _ _ _ _ Hwf Hat)
    as (qs1 & qs2 & Ls1 & L & Ls2 & Hq & -> & Hl1 & Hl2 & HL & Hfs).
  destruct (get_event_slot_spec s qs1 q qs2 Ls1 L Ls2 buf len Hwf Hq)
    as (r & buf' & q' & h' & b' & L' & Hslot & Hwf' & Hf' & Hfr & Hres); [lia |].
  exists L, r, buf', q', L', (mk_state (qs1 ++ q' :: qs2) (g_connected s) h' b').
  split; [done |]. split.
  { unfold lwnl_get_event. rewrite (get_event_loop_hit _ _ _ _ _ _ _ _ _ Hfs), Hslot. done. }
  split; [done |]. simpl.
  split; [by rewrite Hq, <- Hl1, insert_app_cons |]. split; [done |].
  split; [by rewrite <- Hl2, insert_app_cons |].
  split; [destruct Hat as (_ & Hf & _); congruence |]. split; [done |].
  destruct Hres as [(Hr & -> & -> & -> & -> & -> & Hwhy) | Hpos]; [left | by right].
  repeat (split; [done |]). split; [| done]. rewrite <- Hq. by destruct s.
Qed.

(** ** De-registration: [lwnl_remove_listener] *)

Lemma chain_length_le_size h p l : chain h p l -> (length l <= size h)%nat.
Proof.
  intros Hc. rewrite <- (size_list_to_set (C := gset Z) l) by (by eapply chain_NoDup).
  rewrite <- (size_dom h). apply subseteq_size.
  intros x Hx. apply elem_of_list_to_set in Hx. apply elem_of_dom.
  by eapply chain_elem_live.
Qed.

Lemma drain_spec L : forall s qs1 q qs2 Ls1 Ls2 fuel,
  wf s (Ls1 ++ L :: Ls2) -> g_queue s = qs1 ++ q :: qs2 -> length qs1 = length Ls1 ->
  (length L <= fuel)%nat ->
  exists h' b',
    drain fuel (front q) (events s) (buffers s) = Ok (h', b') /\
    wf (mk_state (qs1 ++ empty_queue :: qs2)
                 (g_connected s - (if filep q =? NULL then 0 else 1)) h' b')
       (Ls1 ++ [] :: Ls2) /\
    evolves (events s) (buffers s) h' b'.
Proof.
  induction L as [| p L' IH]; intros s qs1 q qs2 Ls1 Ls2 fuel Hwf Hq Hlen Hfuel.
  - destruct (wf_split _ _ _ _ _ _ _ Hwf Hq Hlen) as (_ & Hsq & _).
    rewrite (chain_front_null _ _ (so_chain _ _ _ Hsq)).
    exists (events s), (buffers s). split; [by destruct fuel |].
    split; [| apply evolves_refl].
    apply (wf_replace_slot s qs1 q empty_queue qs2 Ls1 [] Ls2); try done.
    + split; simpl; [constructor | done | done | by left].
    + rewrite (wf_connected _ _ Hwf), Hq, !occupied_count_app. simpl. lia.
  - destruct (release_head _ _ _ _ _ _ _ _ Hwf Hq Hlen)
      as (e & He & Hfr & Hp & Hfilep & Hrefs & Hct & Hrem & Hwf').
    assert (Hframe : evolves (events s) (buffers s)
                       (release_events p e (events s)) (release_buffers e (buffers s))).
    { apply (release_evolves _ _ p e Hwf He). lia. }
    destruct fuel as [| fuel']; [simpl in Hfuel; lia |].
    specialize (IH _ qs1 (set_front (flink e) (set_check_header 0 q)) qs2 Ls1 Ls2 fuel'
                  Hwf' eq_refl Hlen).
    destruct IH as (h' & b' & Hdr & Hwf'' & Hfr''); [simpl in Hfuel; lia |].
    simpl in Hdr, Hwf'', Hfr''.
    exists h', b'. split.
    { simpl. rewrite Hfr. apply Z.eqb_neq in Hp. rewrite Hp, He, Hrem. simpl. done. }
    split; [done |]. by eapply evolves_trans.
Qed.

Lemma lwnl_remove_listener_miss fuel f s :
  Forall (fun x => filep x <> f) (g_queue s) ->
  lwnl_remove_listener fuel f s = Ok (0, s).
Proof.
  intros Hall. unfold lwnl_remove_listener.
  by rewrite remove_listener_loop_miss.
Qed.

Lemma lwnl_remove_listener_spec s Ls f i q fuel :
  wf s Ls -> f <> NULL -> slot_at f (g_queue s) i q ->
  (size (events s) <= fuel)%nat ->
  exists s',
    lwnl_remove_listener fuel f s = Ok (0, s') /\
    g_queue s' = <[i := empty_queue]> (g_queue s) /\
    g_connected s' = g_connected s - 1 /\
    wf s' (<[i := []]> Ls) /\
    evolves (events s) (buffers s) (events s') (buffers s').
Proof.
  intros Hwf Hf Hat Hfuel.
  destruct (slot_at_split _ _ _ _ _ Hwf Hat)
    as (qs1 & qs2 & Ls1 & L & Ls2 & Hq & -> & Hl1 & Hl2 & HL & Hfs).
  destruct (wf_split _ _ _ _ _ _ _ Hwf Hq) as (_ & Hsq & _); [lia |].
  destruct (drain_spec L s qs1 q qs2 Ls1 Ls2 fuel Hwf Hq) as (h' & b' & Hdr & Hwf' & Hfr);
    [lia | |].
  { pose proof (chain_length_le_size _ _ _ (so_chain _ _ _ Hsq)). lia. }
  assert (Hfq : filep q = f) by apply Hat.
  assert (Hnb : (filep q =? NULL) = false) by (apply Z.eqb_neq; congruence).
  rewrite Hnb in Hwf'.
  assert (Hgc : 1 <= g_connected s <= 127).
  { rewrite (wf_connected _ _ Hwf), Hq, occupied_count_app. simpl. rewrite Hnb.
    pose proof (occupied_count_bounds qs1). pose proof (occupied_count_bounds qs2).
    pose proof (wf_bound _ _ Hwf) as Hb. rewrite Hq, length_app in Hb. simpl in Hb. lia. }
  exists (mk_state (qs1 ++ empty_queue :: qs2) (g_connected s - 1) h' b').
  split.
  { unfold lwnl_remove_listener.
    rewrite (remove_listener_loop_hit _ _ _ _ _ _ _ _ Hfs), Hdr. simpl.
    rewrite to_int_small by lia. done. }
  simpl. split; [by rewrite Hq, <- Hl1, insert_app_cons |]. split; [done |].
  split; [by rewrite <- Hl2, insert_app_cons | done].
Qed.

(** ** Registration, readiness and initialisation *)

Lemma lwnl_add_listener_full f s :
  Forall (fun x => filep x <> NULL) (g_queue s) -> lwnl_add_listener f s = (-1, s).
Proof. intros Hall. unfold lwnl_add_listener. by rewrite add_listener_loop_miss. Qed.

Lemma lwnl_add_listener_spec s Ls f i q :
  wf s Ls -> f <> NULL -> slot_at NULL (g_queue s) i q ->
  exists s',
    lwnl_add_listener f s = (0, s') /\
    g_queue s' = <[i := set_filep f q]> (g_queue s) /\
    g_connected s' = g_connected s + 1 /\
    events s' = events s /\ buffers s' = buffers s /\
    front q = NULL /\ check_header q = 0 /\ Ls !! i = Some [] /\
    wf s' Ls.
Proof.
  intros Hwf Hf Hat.
  destruct (slot_at_split _ _ _ _ _ Hwf Hat)
    as (qs1 & qs2 & Ls1 & L & Ls2 & Hq & -> & Hl1 & Hl2 & HL & Hfs).
  destruct (wf_split _ _ _ _ _ _ _ Hwf Hq) as (_ & Hsq & _); [lia |].
  assert (Hfq : filep q = NULL) by apply Hat.
  destruct (so_free _ _ _ Hsq Hfq) as [Hfront Hch].
  assert (L = []) as ->.
  { pose proof (so_chain _ _ _ Hsq) as Hc. rewrite Hfront in Hc.
    by apply chain_null_inv in Hc. }
  assert (Hgc : 0 <= g_connected s <= 126).
  { rewrite (wf_connected _ _ Hwf), Hq, occupied_count_app. simpl. rewrite Hfq. simpl.
    pose proof (occupied_count_bounds qs1). pose proof (occupied_count_bounds qs2).
    pose proof (wf_bound _ _ Hwf) as Hb. rewrite Hq, length_app in Hb. simpl in Hb. lia. }
  exists (mk_state (qs1 ++ set_filep f q :: qs2) (g_connected s + 1) (events s) (buffers s)).
  split.
  { unfold lwnl_add_listener. rewrite (add_listener_loop_hit _ _ _ _ _ Hfs).
    rewrite to_int_small by lia. done. }
  simpl. split; [by rewrite Hq, <- Hl1, insert_app_cons |].
  repeat (split; [done |]).
  apply (wf_replace_slot s qs1 q (set_filep f q) qs2 Ls1 [] Ls2); try done; [lia | |].
  - split; simpl; [apply (so_chain _ _ _ Hsq) | done | done | by left].
  - rewrite (wf_connected _ _ Hwf), Hq, !occupied_count_app. simpl.
    rewrite Hfq. apply Z.eqb_neq in Hf. rewrite Hf. simpl. lia.
Qed.

Lemma lwnl_check_queue_miss f s :
  Forall (fun x => filep x <> f) (g_queue s) -> lwnl_check_queue f s = 0.
Proof. apply check_queue_loop_miss. Qed.

Lemma lwnl_check_queue_spec f s i q :
  slot_at f (g_queue s) i q ->
  lwnl_check_queue f s = if front q =? NULL then 0 else 1.
Proof.
  intros Hat. destruct (slot_at_first _ _ _ _ Hat) as [Hfs _].
  unfold lwnl_check_queue. rewrite (check_queue_loop_hit _ _ _ _ _ Hfs).
  by destruct (front q =? NULL).
Qed.

Lemma wf_initialize qs gc :
  (LWNL_NPOLLWAITERS <= 127)%nat ->
  wf (lwnl_queue_initialize (mk_state qs gc ∅ ∅)) (replicate LWNL_NPOLLWAITERS []).
Proof.
  intros HN. unfold lwnl_queue_initialize. split; simpl.
  - induction LWNL_NPOLLWAITERS as [| n IH]; simpl; constructor; [| apply IH; lia].
    split; simpl; [constructor | done | done | by left].
  - rewrite length_replicate. lia.
  - clear HN. induction LWNL_NPOLLWAITERS as [| n IH]; simpl; [done | lia].
  - intros p e He. by rewrite lookup_empty in He.
  - exists NULL. intros L HL Hne. apply elem_of_replicate in HL as [-> _]. done.
  - intros p e He. by rewrite lookup_empty in He.
  - intros p1 p2 e1 e2 He. by rewrite lookup_empty in He.
Qed.

(** ** The scan-list serializer *)

Lemma scan_count_spec items : forall cnt,
  0 <= cnt -> cnt + Z.of_nat (length items) <= INT_MAX ->
  scan_count items cnt = cnt + Z.of_nat (length items).
Proof.
  unfold INT_MAX. induction items as [| r items IH]; intros cnt H0 Hmax; simpl in *; [lia |].
  rewrite to_int_small by lia. rewrite IH by lia. lia.
Qed.

Lemma scan_copy_spec items : forall cnt done rest,
  0 <= SCAN_INFO_SIZE -> Forall sized items -> 0 <= cnt ->
  Z.of_nat (length done) = SCAN_INFO_SIZE * cnt ->
  Z.of_nat (length rest) = SCAN_INFO_SIZE * Z.of_nat (length items) ->
  SCAN_INFO_SIZE * (cnt + Z.of_nat (length items)) <= INT_MAX ->
  cnt + Z.of_nat (length items) <= INT_MAX ->
  scan_copy items cnt (done ++ rest) = Ok (done ++ concat items).
Proof.
  unfold INT_MAX.
  induction items as [| r items IH]; intros cnt done rest Hs Hall Hc Hdone Hrest Hmax Hcmax.
  - simpl in *. destruct rest; [by rewrite app_nil_r | simpl in Hrest; lia].
  - apply Forall_cons in Hall as [Hr Hall]. unfold sized in Hr. simpl in *.
    assert (Hoff : to_size_t (SCAN_INFO_SIZE * cnt) = SCAN_INFO_SIZE * cnt).
    { apply to_size_t_small. nia. }
    rewrite Hoff. unfold memcpy_block.
    assert (Hchk : (SCAN_INFO_SIZE * cnt + SCAN_INFO_SIZE <=? Z.of_nat (length (done ++ rest)))
                   && (SCAN_INFO_SIZE <=? Z.of_nat (length r)) = true).
    { rewrite length_app. apply andb_true_intro. split; apply Z.leb_le; nia. }
    rewrite Hchk. simpl.
    rewrite to_int_small by lia.
    assert (Hblock : memcpy (done ++ rest) (Z.to_nat (SCAN_INFO_SIZE * cnt))
                       (take (Z.to_nat SCAN_INFO_SIZE) r)
                     = (done ++ r) ++ drop (Z.to_nat SCAN_INFO_SIZE) rest).
    { unfold memcpy.
      assert (Z.to_nat (SCAN_INFO_SIZE * cnt) = length done) as -> by lia.
      assert (Z.to_nat SCAN_INFO_SIZE = length r) as -> by lia.
      rewrite firstn_all, take_app_length, drop_app_add'; [| done].
      by rewrite <- app_assoc. }
    rewrite Hblock.
    rewrite (IH (cnt + 1) (done ++ r) (drop (Z.to_nat SCAN_INFO_SIZE) rest));
      [by rewrite <- app_assoc
      | first [done | rewrite ?length_app, ?length_drop; nia] ..].
Qed.

Lemma copy_scan_info_fail junk items b :
  _lwnl_copy_scan_info NULL junk items b = Ok (-1, NULL, b).
Proof. reflexivity. Qed.

Lemma copy_scan_info_ok out junk items b :
  out <> NULL -> 0 < SCAN_INFO_SIZE -> Forall sized items ->
  SCAN_INFO_SIZE * Z.of_nat (length items) <= INT_MAX ->
  _lwnl_copy_scan_info out junk items b
  = Ok (SCAN_INFO_SIZE * Z.of_nat (length items), out, <[out := concat items]> b).
Proof.
  unfold INT_MAX. intros Hout Hs Hall Hmax. unfold _lwnl_copy_scan_info.
  apply Z.eqb_neq in Hout. rewrite Hout.
  rewrite scan_count_spec by (unfold INT_MAX; nia). rewrite Z.add_0_l.
  rewrite (Z.mul_comm (Z.of_nat (length items)) SCAN_INFO_SIZE).
  set (n := SCAN_INFO_SIZE * Z.of_nat (length items)).
  assert (Hsz : to_size_t n = n) by (apply to_size_t_small; unfold n; nia).
  rewrite !Hsz.
  set (block := take (Z.to_nat n) (junk ++ replicate (Z.to_nat n) 0)).
  assert (Hlen : Z.of_nat (length block) = n).
  { unfold block. rewrite length_take, length_app, length_replicate. lia. }
  assert (Hcopy : scan_copy items 0 block = Ok (concat items)).
  { apply (scan_copy_spec items 0 [] block); try done; unfold INT_MAX; simpl; lia. }
  rewrite Hcopy. simpl. rewrite to_int_small by (unfold n; nia). done.
Qed.

(** ** [_lwnl_add_event]: the loop over the slots *)

Lemma store_event_some f p (h : gmap Z lwnl_event) e :
  h !! p = Some e -> store_event f p h = Ok (<[p := f e]> h).
Proof. intros He. unfold store_event. by rewrite He. Qed.

Lemma any_occupied_cons q qs :
  any_occupied (q :: qs) = negb (filep q =? NULL) || any_occupied qs.
Proof. reflexivity. Qed.

Lemma any_pending_cons q qs :
  any_pending (q :: qs)
  = negb (filep q =? NULL) && negb (front q =? NULL) || any_pending qs.
Proof. reflexivity. Qed.

Lemma add_event_loop_cons e gc q qs h :
  add_event_loop e gc (q :: qs) h =
    '(h1, q') ← add_event_slot e gc q h;
    '(h2, qs'') ← add_event_loop e gc qs h1;
    Ok (h2, q' :: qs'').
Proof. reflexivity. Qed.

Lemma add_event_loop_spec e gc r qs : forall h ee,
  h !! e = Some ee -> r <> e ->
  (forall q, q ∈ qs -> filep q <> NULL -> front q <> NULL ->
     rear q = r /\ is_Some (h !! r)) ->
  exists h',
    add_event_loop e gc qs h = Ok (h', map (upd_slot e) qs) /\
    (forall x, x <> e -> x <> r -> h' !! x = h !! x) /\
    h' !! e = Some (if any_occupied qs then set_refs (to_int8 gc) ee else ee) /\
    h' !! r = (if any_pending qs then set_flink e <$> h !! r else h !! r).
Proof.
  induction qs as [| q qs IH]; intros h ee He Hr Hrear.
  - exists h. simpl. done.
  - assert (Hrear' : forall h1 : gmap Z lwnl_event,
              h1 !! r = h !! r \/ (is_Some (h !! r) /\ is_Some (h1 !! r)) ->
              forall q0, q0 ∈ qs -> filep q0 <> NULL -> front q0 <> NULL ->
              rear q0 = r /\ is_Some (h1 !! r)).
    { intros h1 Hh1 q0 Hq0 Hf0 Hfr0.
      destruct (Hrear q0) as [Hrq Hsome]; [by right | done | done |].
      split; [done |]. destruct Hh1 as [-> | [_ ?]]; done. }
    rewrite add_event_loop_cons, any_occupied_cons, any_pending_cons, map_cons.
    unfold add_event_slot, upd_slot at 1.
    destruct (filep q =? NULL) eqn:Hfq.
    + destruct (IH h ee He Hr (Hrear' h (or_introl eq_refl))) as (h' & Hloop & Hoth & Hen & Hrn).
      exists h'. simpl. rewrite Hloop. simpl. done.
    + rewrite (store_event_some _ _ _ _ He).
      apply Z.eqb_neq in Hfq.
      set (h1 := <[e := set_refs (to_int8 gc) ee]> h).
      assert (He1 : h1 !! e = Some (set_refs (to_int8 gc) ee)) by apply lookup_insert_eq.
      assert (Hr1 : h1 !! r = h !! r) by (unfold h1; by rewrite lookup_insert_ne).
      destruct (front q =? NULL) eqn:Hfr.
      * destruct (IH h1 _ He1 Hr (Hrear' h1 (or_introl Hr1)))
          as (h' & Hloop & Hoth & Hen & Hrn).
        exists h'. simpl. rewrite Hloop. simpl. split; [done |]. split.
        { intros x Hxe Hxr. rewrite Hoth by done. unfold h1. by rewrite lookup_insert_ne. }
        split.
        { rewrite Hen. by destruct (any_occupied qs). }
        by rewrite Hrn, Hr1.
      * apply Z.eqb_neq in Hfr.
        destruct (Hrear q) as [Hrq [er Her]]; [by left | done | done |].
        rewrite Her in Hr1. simpl.
        rewrite Hrq, (store_event_some _ _ _ _ Hr1).
        set (h2 := <[r := set_flink e er]> h1).
        assert (He2 : h2 !! e = Some (set_refs (to_int8 gc) ee)).
        { unfold h2. by rewrite lookup_insert_ne. }
        assert (Hr2 : h2 !! r = Some (set_flink e er)) by apply lookup_insert_eq.
        destruct (IH h2 _ He2 Hr) as (h' & Hloop & Hoth & Hen & Hrn).
        { apply Hrear'. right. split; [by rewrite Her | by rewrite Hr2]. }
        exists h'. simpl. rewrite Hloop. simpl. split; [done |]. split.
        { intros x Hxe Hxr. rewrite Hoth by done. unfold h2, h1.
          by rewrite !lookup_insert_ne. }
        split.
        { rewrite Hen. by destruct (any_occupied qs). }
        rewrite Hrn, Hr2, Her. by destruct (any_pending qs).
Qed.

Lemma any_occupied_count qs :
  any_occupied qs = false -> occupied_count qs = 0.
Proof.
  induction qs as [| q qs IH]; simpl; [done |].
  destruct (filep q =? NULL); simpl; [| done]. intros H. rewrite IH by done. lia.
Qed.

Lemma any_pending_true q qs :
  q ∈ qs -> filep q <> NULL -> front q <> NULL -> any_pending qs = true.
Proof.
  intros Hq Hf Hfr. apply existsb_exists. exists q.
  split; [by apply list_elem_of_In |].
  apply Z.eqb_neq in Hf, Hfr. by rewrite Hf, Hfr.
Qed.

Lemma Forall2_map_zip {A B C D} (P : A -> B -> Prop) (Q : C -> D -> Prop)
    (f : A -> C) (g : A -> B -> D) l k :
  Forall2 P l k ->
  (forall x y, x ∈ l -> y ∈ k -> P x y -> Q (f x) (g x y)) ->
  Forall2 Q (map f l) (zip_with g l k).
Proof.
  induction 1 as [| x y l k Hxy _ IH]; intros HPQ; simpl; constructor.
  - apply HPQ; [by left | by left | done].
  - apply IH. intros x' y' Hx' Hy'. apply HPQ; by right.
Qed.

Lemma holders_upd_new e qs Ls :
  length qs = length Ls -> (forall L, L ∈ Ls -> e ∉ L) ->
  holders (zip_with (upd_chain e) qs Ls) e = occupied_count qs.
Proof.
  revert Ls. induction qs as [| q qs IH]; intros [| L Ls] Hlen Hnot; simpl in *; try done.
  rewrite IH; [| lia | intros L' HL'; apply Hnot; by right].
  assert (HeL : e ∉ L) by (apply Hnot; by left).
  unfold upd_chain. destruct (filep q =? NULL).
  - by rewrite decide_False.
  - rewrite decide_True; [done |]. apply elem_of_app. right. by left.
Qed.

Lemma holders_upd_old e x qs Ls :
  x <> e -> holders (zip_with (upd_chain e) qs Ls) x = holders (take (length qs) Ls) x.
Proof.
  intros Hx. revert Ls.
  induction qs as [| q qs IH]; intros [| L Ls]; simpl; try done.
  rewrite IH. f_equal. unfold upd_chain. destruct (filep q =? NULL); [done |].
  assert (Hiff : x ∈ L ++ [e] <-> x ∈ L).
  { rewrite elem_of_app, list_elem_of_singleton. tauto. }
  repeat case_decide; first [done | tauto].
Qed.

Lemma occupied_count_upd e qs : occupied_count (map (upd_slot e) qs) = occupied_count qs.
Proof.
  induction qs as [| q qs IH]; simpl; [done |]. rewrite IH. f_equal.
  unfold upd_slot. destruct (filep q =? NULL) eqn:Hf; [by rewrite Hf |].
  destruct (front q =? NULL); simpl; by rewrite Hf.
Qed.

Lemma payload_ok_mono (b b1 : gmap Z (list Z)) e e1 :
  (forall k v, b !! k = Some v -> b1 !! k = Some v) ->
  evt_data e1 = evt_data e -> payload_ok b e -> payload_ok b1 e1.
Proof.
  intros Hmono Hd (Hlen & Hnull & Hbuf). unfold payload_ok. rewrite Hd.
  split; [done |]. split; [done |]. intros Hdn.
  destruct (Hbuf Hdn) as (bytes & Hb & Hl). exists bytes. split; [by apply Hmono | done].
Qed.

Lemma node_chunks_mono (h h' : gmap Z lwnl_event) (b b1 : gmap Z (list Z)) x e e' :
  h !! x = Some e -> h' !! x = Some e' -> evt_data e' = evt_data e ->
  payload_ok b e -> (forall k v, b !! k = Some v -> b1 !! k = Some v) ->
  node_chunks h' b1 x = node_chunks h b x.
Proof.
  intros He He' Hd (Hlen & Hnull & Hbuf) Hmono. unfold node_chunks, header_of.
  rewrite He, He', Hd. f_equal.
  destruct (0 <? data_len (evt_data e)) eqn:Hpos; [| done].
  apply Z.ltb_lt in Hpos.
  assert (Hdn : data (evt_data e) <> NULL) by (intros Hn; specialize (Hnull Hn); lia).
  destruct (Hbuf Hdn) as (bytes & Hb & _). by rewrite Hb, (Hmono _ _ Hb).
Qed.

Lemma tail_after_append h e qs Ls :
  Forall2 (slot_ok h) qs Ls ->
  Forall (fun L => L <> [] -> last L = Some e) (zip_with (upd_chain e) qs Ls).
Proof.
  induction 1 as [| q L qs Ls Hq _ IH]; simpl; constructor; [| done].
  unfold upd_chain. destruct (filep q =? NULL) eqn:Hf.
  - apply Z.eqb_eq in Hf. destruct (so_free _ _ _ Hq Hf) as [Hfr _].
    pose proof (so_chain _ _ _ Hq) as Hc. rewrite Hfr in Hc.
    apply chain_null_inv in Hc. by subst L.
  - intros _. apply last_snoc.
Qed.

(** ** [_lwnl_add_event] keeps the invariant *)

Lemma lwnl_append_spec s Ls e evt b1 :
  wf s Ls -> e <> NULL -> events s !! e = None ->
  flink evt = NULL -> refs evt = 0 ->
  (forall k v, buffers s !! k = Some v -> b1 !! k = Some v) ->
  payload_ok b1 evt ->
  (data (evt_data evt) <> NULL -> buffers s !! data (evt_data evt) = None) ->
  exists h',
    _lwnl_add_event e (mk_state (g_queue s) (g_connected s) (<[e := evt]> (events s)) b1)
    = Ok (0, mk_state (map (upd_slot e) (g_queue s)) (g_connected s) h' b1) /\
    wf (mk_state (map (upd_slot e) (g_queue s)) (g_connected s) h' b1)
       (zip_with (upd_chain e) (g_queue s) Ls) /\
    (forall x ex, events s !! x = Some ex ->
       exists e', h' !! x = Some e' /\ evt_data e' = evt_data ex /\ refs e' = refs ex) /\
    (exists e', h' !! e = Some e' /\ evt_data e' = evt_data evt /\
                refs e' = g_connected s).
Proof.
  intros Hwf He Hfresh Hfl Hrf Hmono Hpay Hdfresh.
  destruct s as [qs gc h b]. simpl in *.
  pose proof (wf_slots _ _ Hwf) as Hslots. simpl in Hslots.
  pose proof (wf_lengths _ _ Hwf) as Hlens. simpl in Hlens.
  destruct (wf_tail _ _ Hwf) as [r0 Hr0].
  set (r := if decide (r0 = e) then e + 1 else r0).
  assert (Hre : r <> e) by (unfold r; case_decide; lia).
  assert (Hlive : forall q L x, q ∈ qs -> L ∈ Ls -> slot_ok h q L -> x ∈ L ->
                    is_Some (h !! x) /\ x <> e).
  { intros q L x _ _ Hq Hx.
    destruct (chain_elem_live _ _ _ _ (so_chain _ _ _ Hq) Hx) as [[ex Hex] _].
    split; [eauto | congruence]. }
  assert (Hrearq : forall q L, q ∈ qs -> L ∈ Ls -> slot_ok h q L ->
                     front q <> NULL -> L <> [] /\ last L = Some r /\ rear q = r /\
                                       is_Some (h !! r)).
  { intros q L Hq HL Hok Hfr.
    pose proof (chain_front_in _ _ _ (so_chain _ _ _ Hok) Hfr) as Hin.
    assert (Hne : L <> []) by (intros ->; by apply elem_of_nil in Hin).
    pose proof (Hr0 L HL Hne) as Hlast.
    pose proof (last_Some_elem_of _ _ Hlast) as Hr0in.
    destruct (Hlive q L r0 Hq HL Hok Hr0in) as [Hsome Hr0e].
    assert (r = r0) as -> by (unfold r; by rewrite decide_False).
    pose proof (so_rear _ _ _ Hok Hne) as Hrq.
    split; [done |]. split; [done |]. split; [congruence | done]. }
  set (h0 := <[e := set_flink NULL evt]> (<[e := evt]> h)).
  assert (He0 : h0 !! e = Some (set_flink NULL evt)) by apply lookup_insert_eq.
  assert (Hh0 : forall x, x <> e -> h0 !! x = h !! x).
  { intros x Hx. unfold h0. by rewrite !lookup_insert_ne. }
  destruct (add_event_loop_spec e gc r qs h0 _ He0 Hre) as (h' & Hloop & Hoth & Hen & Hrn).
  { intros q Hq Hf Hfr.
    destruct (proj1 (list_elem_of_lookup qs q) Hq) as [i Hi].
    destruct (Forall2_lookup_l _ _ _ _ _ Hslots Hi) as (L & HLi & Hok).
    destruct (Hrearq q L Hq (list_elem_of_lookup_2 _ _ _ HLi) Hok Hfr) as (_ & _ & Hrq & Hsome).
    split; [done |]. by rewrite Hh0. }
  rewrite Hh0 in Hrn by done.
  assert (Hold : forall x ex, h !! x = Some ex ->
            exists e', h' !! x = Some e' /\ evt_data e' = evt_data ex /\
              refs e' = refs ex /\
              flink e' = if decide (x = r /\ any_pending qs = true) then e else flink ex).
  { intros x ex Hex. assert (Hxe : x <> e) by congruence.
    destruct (decide (x = r)) as [-> | Hxr].
    - rewrite Hex in Hrn. destruct (any_pending qs) eqn:Hap.
      + exists (set_flink e ex). rewrite decide_True by done. done.
      + exists ex. rewrite decide_False by (intros [_ ?]; done). done.
    - exists ex. rewrite Hoth, Hh0 by done.
      rewrite decide_False by (intros [? _]; done). done. }
  assert (Hback : forall x e1, h' !! x = Some e1 -> x <> e -> is_Some (h !! x)).
  { intros x e1 Hx Hxe. destruct (decide (x = r)) as [-> | Hxr].
    - rewrite Hx in Hrn. destruct (any_pending qs); [| by rewrite <- Hrn].
      destruct (h !! r); [done | discriminate].
    - rewrite Hoth, Hh0 in Hx by done. eauto. }
  assert (Hgc : gc = occupied_count qs) by apply (wf_connected _ _ Hwf).
  assert (Hgcb : 0 <= gc <= 127).
  { pose proof (occupied_count_bounds qs). pose proof (wf_bound _ _ Hwf). simpl in *. lia. }
  assert (Hnew : exists e', h' !! e = Some e' /\ evt_data e' = evt_data evt /\
                   refs e' = gc /\ flink e' = NULL).
  { destruct (any_occupied qs) eqn:Hao.
    - exists (set_refs (to_int8 gc) (set_flink NULL evt)). split; [done |]. simpl.
      by rewrite to_int8_small by lia.
    - exists (set_flink NULL evt). split; [done |]. simpl.
      rewrite Hgc, (any_occupied_count _ Hao). done. }
  exists h'. split.
  { unfold _lwnl_add_event. simpl.
    rewrite (store_event_some _ _ _ evt) by apply lookup_insert_eq.
    fold h0. simpl. rewrite Hloop. done. }
  destruct Hnew as (en & Hen' & Hend & Henr & Henf).
  split; [| split; [| by exists en]].
  2: { intros x ex Hex. destruct (Hold x ex Hex) as (e' & ? & ? & ? & _). eauto. }
  split; simpl.
  - eapply Forall2_map_zip; [exact Hslots |]. intros q L Hq HL Hok.
    unfold upd_slot, upd_chain.
    destruct (filep q =? NULL) eqn:Hf.
    + apply Z.eqb_eq in Hf. destruct (so_free _ _ _ Hok Hf) as [Hfr _].
      pose proof (so_chain _ _ _ Hok) as Hc. rewrite Hfr in Hc.
      apply chain_null_inv in Hc. subst L.
      eapply slot_ok_agree; [done |]. intros x ex Hx. by apply elem_of_nil in Hx.
    + apply Z.eqb_neq in Hf. destruct (front q =? NULL) eqn:Hfr.
      * apply Z.eqb_eq in Hfr.
        pose proof (so_chain _ _ _ Hok) as Hc. rewrite Hfr in Hc.
        apply chain_null_inv in Hc. subst L. split; simpl.
        -- econstructor; [done | exact Hen' |]. rewrite Henf. constructor.
        -- done.
        -- done.
        -- destruct (so_phase _ _ _ Hok) as [H0 | (_ & Hn & _)]; [by left | done].
      * apply Z.eqb_neq in Hfr.
        destruct (Hrearq q L Hq HL Hok Hfr) as (Hne & Hlast & Hrq & Hsome).
        pose proof (any_pending_true q qs Hq Hf Hfr) as Hap.
        split; simpl.
        -- eapply (chain_snoc h h' (front q) L r e en); try done.
           ++ apply (so_chain _ _ _ Hok).
           ++ intros Hin. by destruct (Hlive q L e Hq HL Hok Hin).
           ++ intros x ex Hx Hex. destruct (Hold x ex Hex) as (e' & He' & _ & _ & Hfle).
              exists e'. split; [done |]. rewrite Hfle.
              destruct (decide (x = r)) as [-> | Hxr].
              ** by rewrite decide_True.
              ** by rewrite decide_False by (intros [? _]; done).
        -- intros _. apply last_snoc.
        -- done.
        -- destruct (so_phase _ _ _ Hok) as [H0 | (H1 & Hn & ex & Hex & Hpos)];
             [by left | right].
           split; [done |]. split; [done |].
           destruct (Hold _ ex Hex) as (e' & He' & Hd & _). exists e'. by rewrite Hd.
  - rewrite length_map. apply (wf_bound _ _ Hwf).
  - by rewrite occupied_count_upd.
  - intros x e1 Hx. destruct (decide (x = e)) as [-> | Hxe].
    + assert (e1 = en) as -> by congruence. rewrite Henr, Hgc.
      symmetry. apply holders_upd_new; [done |].
      intros L HL Hin.
      destruct (proj1 (list_elem_of_lookup Ls L) HL) as [i Hi].
      destruct (Forall2_lookup_r _ _ _ _ _ Hslots Hi) as (q & Hqi & Hok).
      by destruct (Hlive q L e (list_elem_of_lookup_2 _ _ _ Hqi) HL Hok Hin).
    + destruct (Hback x e1 Hx Hxe) as [ex Hex].
      destruct (Hold x ex Hex) as (e' & He' & _ & Hrefs & _).
      assert (e1 = e') as -> by congruence.
      rewrite Hrefs, (wf_refs _ _ Hwf x ex Hex), holders_upd_old by done.
      by rewrite Hlens, firstn_all.
  - exists e. intros L HL Hne.
    pose proof (tail_after_append h e qs Ls Hslots) as Htl.
    rewrite Forall_forall in Htl. by apply Htl.
  - intros x e1 Hx. destruct (decide (x = e)) as [-> | Hxe].
    + assert (e1 = en) as -> by congruence.
      eapply (payload_ok_mono b1 b1 evt en); done.
    + destruct (Hback x e1 Hx Hxe) as [ex Hex].
      destruct (Hold x ex Hex) as (e' & He' & Hd & _).
      assert (e1 = e') as -> by congruence.
      eapply payload_ok_mono; [done | done |]. apply (wf_payload _ _ Hwf x ex Hex).
  - assert (Hcross : forall x ex, h !! x = Some ex -> data (evt_data ex) <> NULL ->
                       data (evt_data ex) <> data (evt_data evt)).
    { intros x ex Hex Hdn Heq.
      destruct (wf_payload _ _ Hwf x ex Hex) as (_ & _ & Hbuf).
      destruct (Hbuf Hdn) as (bytes & Hb & _). simpl in Hb.
      rewrite Heq in Hb, Hdn. rewrite Hdfresh in Hb by done. discriminate. }
    intros x1 x2 e1 e2 Hx1 Hx2 Hdn Heq.
    destruct (decide (x1 = e)) as [-> | Hx1e]; destruct (decide (x2 = e)) as [-> | Hx2e]; [done | | |].
    + assert (e1 = en) as -> by congruence.
      destruct (Hback x2 e2 Hx2 Hx2e) as [ex Hex].
      destruct (Hold x2 ex Hex) as (e' & He' & Hd & _).
      assert (e2 = e') as -> by congruence. rewrite Hend, Hd in *.
      destruct (Hcross x2 ex Hex); congruence.
    + assert (e2 = en) as -> by congruence.
      destruct (Hback x1 e1 Hx1 Hx1e) as [ex Hex].
      destruct (Hold x1 ex Hex) as (e' & He' & Hd & _).
      assert (e1 = e') as -> by congruence. rewrite Hend, Hd in *.
      destruct (Hcross x1 ex Hex); congruence.
    + destruct (Hback x1 e1 Hx1 Hx1e) as [a1 Ha1].
      destruct (Hback x2 e2 Hx2 Hx2e) as [a2 Ha2].
      destruct (Hold x1 a1 Ha1) as (e1' & He1' & Hd1 & _).
      destruct (Hold x2 a2 Ha2) as (e2' & He2' & Hd2 & _).
      assert (e1 = e1') as -> by congruence. assert (e2 = e2') as -> by congruence.
      rewrite Hd1, Hd2 in *. eapply (wf_excl _ _ Hwf x1 x2 a1 a2); done.
Qed.

(** ** Emission: [lwnl_add_event] *)

Lemma concat_sized_length items :
  Forall sized items ->
  Z.of_nat (length (concat items)) = SCAN_INFO_SIZE * Z.of_nat (length items).
Proof.
  induction 1 as [| r items Hr _ IH]; simpl; [lia |].
  unfold sized in Hr. rewrite length_app. lia.
Qed.

Lemma holders_none Ls e : (forall L, L ∈ Ls -> e ∉ L) -> holders Ls e = 0.
Proof.
  induction Ls as [| L Ls IH]; intros Hnot; simpl; [done |].
  rewrite decide_False by (apply Hnot; by left).
  rewrite IH; [done |]. intros L' HL'. apply Hnot. by right.
Qed.

(** A node that no chain reaches and that owns no payload does not
    disturb the queue. *)
Lemma wf_leak s Ls e evt :
  wf s Ls -> events s !! e = None -> refs evt = 0 ->
  data (evt_data evt) = NULL -> data_len (evt_data evt) = 0 ->
  wf (mk_state (g_queue s) (g_connected s) (<[e := evt]> (events s)) (buffers s)) Ls.
Proof.
  intros Hwf Hfresh Hrf Hd Hl.
  assert (Hnot : forall L, L ∈ Ls -> e ∉ L).
  { intros L HL Hin. destruct (wf_chain_live _ _ _ _ Hwf HL Hin) as [[ex Hex] _]. congruence. }
  split; simpl.
  - eapply Forall2_impl_elem; [apply (wf_slots _ _ Hwf) |].
    intros q L _ HL Hok. eapply slot_ok_agree; [done |].
    intros x ex Hx Hex. exists ex. rewrite lookup_insert_ne; [done |].
    intros <-. by apply (Hnot L).
  - apply (wf_bound _ _ Hwf).
  - apply (wf_connected _ _ Hwf).
  - intros x e1 Hx. destruct (decide (x = e)) as [-> | Hxe].
    + rewrite lookup_insert_eq in Hx. injection Hx as <-. by rewrite holders_none.
    + rewrite lookup_insert_ne in Hx by done. by apply (wf_refs _ _ Hwf).
  - apply (wf_tail _ _ Hwf).
  - intros x e1 Hx. destruct (decide (x = e)) as [-> | Hxe].
    + rewrite lookup_insert_eq in Hx. injection Hx as <-.
      unfold payload_ok, INT_MAX. rewrite Hd, Hl. split; [lia |]. done.
    + rewrite lookup_insert_ne in Hx by done. by apply (wf_payload _ _ Hwf x).
  - intros x1 x2 e1 e2 Hx1 Hx2 Hdn Heq.
    destruct (decide (x1 = e)) as [-> | Hx1e].
    { rewrite lookup_insert_eq in Hx1. injection Hx1 as <-. congruence. }
    destruct (decide (x2 = e)) as [-> | Hx2e].
    { rewrite lookup_insert_eq in Hx2. injection Hx2 as <-. congruence. }
    rewrite lookup_insert_ne in Hx1, Hx2 by done.
    by apply (wf_excl _ _ Hwf x1 x2 e1 e2).
Qed.

Lemma lwnl_add_event_nomem type items out_p junk s :
  lwnl_add_event type items NULL out_p junk s = Ok (-1, s).
Proof. reflexivity. Qed.

Lemma lwnl_add_event_unknown items evt_p out_p junk s :
  evt_p <> NULL ->
  lwnl_add_event LWNL_UNKNOWN items evt_p out_p junk s
  = Ok (-3, mk_state (g_queue s) (g_connected s)
              (<[evt_p := mk_event NULL (mk_cb_data LWNL_UNKNOWN NULL 0) 0]> (events s))
              (buffers s)).
Proof.
  intros Hp. unfold lwnl_add_event. apply Z.eqb_neq in Hp. by rewrite Hp.
Qed.

Lemma lwnl_add_event_built type items evt_p out_p junk s :
  evt_p <> NULL -> type <> LWNL_UNKNOWN ->
  (type = LWNL_SCAN_DONE -> out_p <> NULL ->
   0 < SCAN_INFO_SIZE /\ Forall sized items /\
   SCAN_INFO_SIZE * Z.of_nat (length items) <= INT_MAX) ->
  lwnl_add_event type items evt_p out_p junk s =
    '(res, s2) ← _lwnl_add_event evt_p
        (mk_state (g_queue s) (g_connected s)
           (<[evt_p := mk_event NULL (built_data type items out_p) 0]> (events s))
           (built_buffers type items out_p (buffers s)));
    if res <? 0 then
      b2 ← (if data (built_data type items out_p) =? NULL then Ok (buffers s2)
            else kmm_free_buffer (data (built_data type items out_p)) (buffers s2));
      Ok (-2, mk_state (g_queue s2) (g_connected s2) (delete evt_p (events s2)) b2)
    else Ok (0, s2).
Proof.
  intros Hp Hty Hscan. unfold lwnl_add_event. apply Z.eqb_neq in Hp. rewrite Hp.
  destruct type; try done.
  unfold built_data, built_buffers.
  destruct (out_p =? NULL) eqn:Hout.
  - apply Z.eqb_eq in Hout. subst out_p. rewrite copy_scan_info_fail. done.
  - apply Z.eqb_neq in Hout. destruct (Hscan eq_refl Hout) as (Hs & Hall & Hmax).
    rewrite copy_scan_info_ok by done. simpl.
    assert (Hnn : (SCAN_INFO_SIZE * Z.of_nat (length items) <? 0) = false)
      by (apply Z.ltb_ge; nia).
    rewrite Hnn. simpl.
    rewrite to_uint32_small by (unfold INT_MAX in Hmax; nia). done.
Qed.

Lemma lwnl_add_event_spec s Ls type items evt_p out_p junk :
  wf s Ls -> evt_p <> NULL -> type <> LWNL_UNKNOWN ->
  emit_ok s type items evt_p out_p ->
  exists s',
    lwnl_add_event type items evt_p out_p junk s = Ok (0, s') /\
    g_queue s' = map (upd_slot evt_p) (g_queue s) /\
    g_connected s' = g_connected s /\
    buffers s' = built_buffers type items out_p (buffers s) /\
    wf s' (zip_with (upd_chain evt_p) (g_queue s) Ls) /\
    (forall x ex, events s !! x = Some ex ->
       exists e', events s' !! x = Some e' /\ evt_data e' = evt_data ex /\
                  refs e' = refs ex /\
                  node_chunks (events s') (buffers s') x
                  = node_chunks (events s) (buffers s) x) /\
    lifetime (events s) (buffers s) (events s') (buffers s') /\
    (exists e', events s' !! evt_p = Some e' /\
                evt_data e' = built_data type items out_p /\
                refs e' = g_connected s).
Proof.
  intros Hwf Hp Hty [Hfresh Hscan]. specialize (Hfresh Hp).
  rewrite lwnl_add_event_built;
    [| done | done | intros Ht Ho; by destruct (Hscan Ht Ho) as (_ & ?)].
  assert (Hmono : forall k v, buffers s !! k = Some v ->
                    built_buffers type items out_p (buffers s) !! k = Some v).
  { intros k v Hk. unfold built_buffers. destruct type; try done.
    destruct (out_p =? NULL) eqn:Ho; [done |]. apply Z.eqb_neq in Ho.
    destruct (Hscan eq_refl Ho) as (Hnone & _). rewrite lookup_insert_ne; [done |]. congruence. }
  destruct (lwnl_append_spec s Ls evt_p
              (mk_event NULL (built_data type items out_p) 0)
              (built_buffers type items out_p (buffers s)) Hwf Hp Hfresh eq_refl eq_refl Hmono)
    as (h' & Hadd & Hwf' & Hold & Hnew).
  - unfold payload_ok, built_data, built_buffers, INT_MAX. simpl.
    destruct type; simpl; try (split; [lia |]; done).
    destruct (out_p =? NULL) eqn:Ho; simpl; [split; [lia |]; done |].
    apply Z.eqb_neq in Ho. destruct (Hscan eq_refl Ho) as (_ & Hs & Hall & Hmax).
    unfold INT_MAX in Hmax. split; [nia |]. split; [done |]. intros _.
    exists (concat items). split; [apply lookup_insert_eq | by apply concat_sized_length].
  - unfold built_data. simpl. destruct type; simpl; try done.
    destruct (out_p =? NULL) eqn:Ho; simpl; [done |]. intros Hn.
    by destruct (Hscan eq_refl Hn).
  - rewrite Hadd. simpl. eexists. split; [done |]. simpl.
    repeat (split; [done |]). split; [| split; [| done]].
    + intros x ex Hex. destruct (Hold x ex Hex) as (e' & He' & Hd & Hr).
      exists e'. repeat (split; [done |]).
      eapply node_chunks_mono; try done. apply (wf_payload _ _ Hwf x ex Hex).
    + intros x ex Hex Hpos. left.
      destruct (Hold x ex Hex) as (e' & He' & Hd & Hr).
      exists e'. split; [done |]. split; [lia |]. split; [lia |]. split; [done |].
      intros Hdn. destruct (wf_payload _ _ Hwf x ex Hex) as (_ & _ & Hbuf).
      destruct (Hbuf Hdn) as (bytes & Hb & _). by rewrite Hb, (Hmono _ _ Hb).
Qed.

(** ** Every call keeps the invariant *)

Lemma lifetime_refl h b : lifetime h b h b.
Proof. apply (ev_life _ _ _ _ (evolves_refl h b)). Qed.

Lemma step_wf s Ls o :
  wf s Ls -> op_ok s o ->
  exists r buf s' Ls',
    step o s = Ok (r, buf, s') /\ wf s' Ls' /\
    lifetime (events s) (buffers s) (events s') (buffers s').
Proof.
  intros Hwf Hok. destruct o as [type items evt_p out_p junk | f buf len | f | f]; simpl in *.
  - destruct (decide (evt_p = NULL)) as [-> | Hp].
    { exists (-1), [], s, Ls. rewrite lwnl_add_event_nomem. simpl.
      split; [done |]. split; [done | apply lifetime_refl]. }
    destruct (decide (type = LWNL_UNKNOWN)) as [-> | Hty].
    { rewrite lwnl_add_event_unknown by done. simpl.
      destruct Hok as [Hfresh _]. specialize (Hfresh Hp).
      eexists _, _, _, Ls. split; [done |]. split; [by apply wf_leak |]. simpl.
      intros x ex Hex Hpos. left. exists ex.
      rewrite lookup_insert_ne by congruence.
      split; [done |]. split; [done |]. split; [lia |]. done. }
    destruct (lwnl_add_event_spec s Ls type items evt_p out_p junk Hwf Hp Hty Hok)
      as (s' & Hrun & _ & _ & _ & Hwf' & _ & Hlife & _).
    rewrite Hrun. simpl. eauto 10.
  - destruct (first_slot_dec f (g_queue s)) as [Hmiss | (qs1 & q & qs2 & Hfs)].
    { rewrite lwnl_get_event_miss by done.
      exists (-1), buf, s, Ls. split; [done |]. split; [done | apply lifetime_refl]. }
    destruct (lwnl_get_event_spec s Ls f buf len _ q Hwf (first_slot_at _ _ _ _ _ Hfs))
      as (L & r & buf' & q' & L' & s' & _ & Hrun & _ & _ & _ & Hwf' & _ & Hev & _).
    exists r, buf', s', (<[length qs1 := L']> Ls).
    split; [done |]. split; [done | apply (ev_life _ _ _ _ Hev)].
  - destruct (first_slot_dec NULL (g_queue s)) as [Hmiss | (qs1 & q & qs2 & Hfs)].
    { rewrite lwnl_add_listener_full by done.
      exists (-1), [], s, Ls. split; [done |]. split; [done | apply lifetime_refl]. }
    destruct (lwnl_add_listener_spec s Ls f _ q Hwf Hok (first_slot_at _ _ _ _ _ Hfs))
      as (s' & Hrun & _ & _ & Hh & Hb & _ & _ & _ & Hwf').
    rewrite Hrun. exists 0, [], s', Ls. split; [done |]. split; [done |].
    rewrite Hh, Hb. apply lifetime_refl.
  - destruct (first_slot_dec f (g_queue s)) as [Hmiss | (qs1 & q & qs2 & Hfs)].
    { rewrite lwnl_remove_listener_miss by done. simpl.
      exists 0, [], s, Ls. split; [done |]. split; [done | apply lifetime_refl]. }
    destruct (lwnl_remove_listener_spec s Ls f _ q (size (events s)) Hwf Hok
                (first_slot_at _ _ _ _ _ Hfs))
      as (s' & Hrun & _ & _ & Hwf' & Hev); [done |].
    rewrite Hrun. simpl. exists 0, [], s', (<[length qs1 := []]> Ls).
    split; [done |]. split; [done | apply (ev_life _ _ _ _ Hev)].
Qed.

Lemma reachable_wf s : reachable s -> exists Ls, wf s Ls.
Proof.
  induction 1 as [HN | s o r buf s' _ [Ls Hwf] Hok Hstep].
  - eexists. by apply wf_initialize.
  - destruct (step_wf s Ls o Hwf Hok) as (r0 & buf0 & s0 & Ls' & Hstep0 & Hwf' & _).
    rewrite Hstep in Hstep0. injection Hstep0 as -> -> ->. eauto.
Qed.

(** ** One consumer across a call *)

Lemma slot_chunks_frame s' Ls' i L q h b :
  wf s' Ls' -> Ls' !! i = Some L -> frame h b (events s') (buffers s') ->
  slot_chunks (events s') (buffers s') q L = slot_chunks h b q L.
Proof.
  intros Hwf HL Hfr. unfold slot_chunks. f_equal. apply chunks_frame.
  intros x Hx. apply Hfr.
  eapply (wf_chain_live _ _ L x Hwf); [by eapply list_elem_of_lookup_2 | done].
Qed.

Lemma filep_upd_slot e q : filep (upd_slot e q) = filep q.
Proof.
  unfold upd_slot. destruct (filep q =? NULL); [done |].
  by destruct (front q =? NULL).
Qed.

Lemma check_header_upd_slot e q : check_header (upd_slot e q) = check_header q.
Proof.
  unfold upd_slot. destruct (filep q =? NULL); [done |].
  by destruct (front q =? NULL).
Qed.

Lemma slot_at_map_upd f e qs i q :
  slot_at f qs i q -> slot_at f (map (upd_slot e) qs) i (upd_slot e q).
Proof.
  intros (Hi & Hf & Hb). split; [| split].
  - change (map (upd_slot e) qs) with (upd_slot e <$> qs).
    by rewrite list_lookup_fmap, Hi.
  - by rewrite filep_upd_slot.
  - intros k x Hk Hx. change (map (upd_slot e) qs) with (upd_slot e <$> qs) in Hx.
    rewrite list_lookup_fmap in Hx. destruct (qs !! k) as [y |] eqn:Hy; [| done].
    simpl in Hx. injection Hx as <-. rewrite filep_upd_slot. by eapply Hb.
Qed.

Lemma slot_chunks_append h b q L extra :
  slot_ok h q L ->
  drop (if check_header q =? 0 then 0%nat else 1%nat)
       (concat (map (node_chunks h b) L) ++ extra)
  = slot_chunks h b q L ++ extra.
Proof.
  intros Hok. unfold slot_chunks.
  destruct (check_header q =? 0) eqn:Hch; [done |].
  apply Z.eqb_neq in Hch.
  destruct (so_phase _ _ _ Hok) as [H0 | (_ & Hne & e & He & _)]; [done |].
  pose proof (chain_front_in _ _ _ (so_chain _ _ _ Hok) Hne) as Hin.
  pose proof (so_chain _ _ _ Hok) as Hc.
  destruct L as [| x L0]; [by apply elem_of_nil in Hin |].
  apply chain_cons_inv in Hc as (Hfx & _). subst x.
  simpl. unfold node_chunks at 1 3. rewrite He. simpl. done.
Qed.

Lemma built_chunks type items out_p (h' : gmap Z lwnl_event) b e e' :
  h' !! e = Some e' -> evt_data e' = built_data type items out_p ->
  node_chunks h' (built_buffers type items out_p b) e
  = event_chunks (built_data type items out_p) items.
Proof.
  intros He Hd. unfold node_chunks, event_chunks, header_of. rewrite He, Hd. f_equal.
  unfold built_data, built_buffers.
  destruct type; simpl; try done.
  destruct (out_p =? NULL); simpl; [done |].
  destruct (0 <? SCAN_INFO_SIZE * Z.of_nat (length items)); [| done].
  by rewrite lookup_insert_eq.
Qed.

Lemma step_watch s Ls f i q L o :
  wf s Ls -> f <> NULL -> slot_at f (g_queue s) i q -> Ls !! i = Some L ->
  op_ok s o -> stays f o ->
  exists r buf s' Ls' q' L',
    step o s = Ok (r, buf, s') /\ wf s' Ls' /\
    slot_at f (g_queue s') i q' /\ Ls' !! i = Some L' /\
    observed f o r buf ++ slot_chunks (events s') (buffers s') q' L'
    = slot_chunks (events s) (buffers s) q L ++ emitted o r.
Proof.
  intros Hwf Hf Hat HL Hok Hstay.
  assert (Hfq : filep q = f) by apply Hat.
  assert (Hsame : forall r buf, step o s = Ok (r, buf, s) ->
            observed f o r buf = [] -> emitted o r = [] ->
            exists r buf s' Ls' q' L',
              step o s = Ok (r, buf, s') /\ wf s' Ls' /\
              slot_at f (g_queue s') i q' /\ Ls' !! i = Some L' /\
              observed f o r buf ++ slot_chunks (events s') (buffers s') q' L'
              = slot_chunks (events s) (buffers s) q L ++ emitted o r).
  { intros r buf Hstep Hobs Hem. exists r, buf, s, Ls, q, L.
    rewrite Hobs, Hem, app_nil_r. done. }
  destruct o as [type items evt_p out_p junk | g buf len | g | g]; simpl in Hok, Hstay.
  - destruct (decide (evt_p = NULL)) as [-> | Hp].
    { apply (Hsame (-1) []); [reflexivity | done | done]. }
    destruct (decide (type = LWNL_UNKNOWN)) as [-> | Hty].
    { destruct Hok as [Hfresh _]. specialize (Hfresh Hp).
      eexists (-3), [], _, Ls, q, L. split.
      { simpl. rewrite lwnl_add_event_unknown by done. done. }
      split; [by apply wf_leak |]. simpl. split; [done |]. split; [done |].
      rewrite app_nil_r. unfold slot_chunks. f_equal. apply chunks_frame.
      intros x Hx. unfold node_chunks. rewrite lookup_insert_ne; [done |].
      intros <-.
      destruct (wf_chain_live _ _ L evt_p Hwf) as [[ex Hex] _];
        [by eapply list_elem_of_lookup_2 | done | congruence]. }
    destruct (lwnl_add_event_spec s Ls type items evt_p out_p junk Hwf Hp Hty Hok)
      as (s' & Hrun & Hqs & _ & Hbufs & Hwf' & Hold & _ & (e' & He' & Hd' & _)).
    exists 0, [], s', (zip_with (upd_chain evt_p) (g_queue s) Ls),
      (upd_slot evt_p q), (L ++ [evt_p]).
    split; [simpl; by rewrite Hrun |]. split; [done |].
    split; [rewrite Hqs; by apply slot_at_map_upd |].
    split.
    { rewrite lookup_zip_with. destruct Hat as (Hi & _). rewrite Hi, HL. simpl.
      unfold upd_chain. assert ((filep q =? NULL) = false) as -> by (apply Z.eqb_neq; congruence).
      done. }
    simpl. unfold slot_chunks at 1. rewrite check_header_upd_slot.
    rewrite map_app, concat_app. simpl. rewrite app_nil_r.
    assert (Hrest : concat (map (node_chunks (events s') (buffers s')) L)
                    = concat (map (node_chunks (events s) (buffers s)) L)).
    { apply chunks_frame. intros x Hx.
      destruct (wf_chain_live _ _ L x Hwf) as [[ex Hex] _];
        [by eapply list_elem_of_lookup_2 | done |].
      by destruct (Hold x ex Hex) as (? & _ & _ & _ & ?). }
    rewrite Hrest. rewrite Hbufs at 1. rewrite (built_chunks _ _ _ _ _ _ e') by done.
    apply slot_chunks_append.
    destruct Hat as (Hi & _).
    destruct (Forall2_lookup_l _ _ _ _ _ (wf_slots _ _ Hwf) Hi) as (L0 & HL0 & Hok0).
    by assert (L0 = L) as -> by congruence.
  - destruct (decide (g = f)) as [-> | Hgf].
    + destruct (lwnl_get_event_spec s Ls f buf len i q Hwf Hat)
        as (L0 & r & buf' & q' & L' & s' & HL0 & Hrun & _ & Hqs & _ & Hwf' & Hfq' & _ & Hres).
      assert (L0 = L) as -> by congruence.
      exists r, buf', s', (<[i := L']> Ls), q', L'.
      split; [done |]. split; [done |].
      split; [rewrite Hqs; by eapply slot_at_insert_same |].
      split; [apply list_lookup_insert_eq; by eapply lookup_lt_Some |].
      simpl. rewrite Z.eqb_refl, app_nil_r. simpl.
      destruct Hres as [(Hr & -> & -> & -> & -> & _) | [Hr Heq]].
      * assert ((0 <? r) = false) as -> by (apply Z.ltb_ge; lia). done.
      * assert ((0 <? r) = true) as -> by (by apply Z.ltb_lt). done.
    + assert (Hobs : forall r b0, observed f (Read g buf len) r b0 = []).
      { intros r b0. simpl. assert ((g =? f) = false) as -> by (by apply Z.eqb_neq). done. }
      destruct (first_slot_dec g (g_queue s)) as [Hmiss | (qs1 & qg & qs2 & Hfs)].
      { apply (Hsame (-1) buf); [| done | done]. simpl. by apply lwnl_get_event_miss. }
      pose proof (first_slot_at _ _ _ _ _ Hfs) as Hatg.
      destruct (lwnl_get_event_spec s Ls g buf len _ qg Hwf Hatg)
        as (Lg & r & buf' & qg' & Lg' & s' & _ & Hrun & _ & Hqs & _ & Hwf' & Hfq' & Hev & _).
      assert (Hij : i <> length qs1).
      { intros ->. destruct Hat as (Hi & _). destruct Hatg as (Hj & Hfg & _). congruence. }
      exists r, buf', s', (<[length qs1 := Lg']> Ls), q, L.
      split; [done |]. split; [done |].
      split; [rewrite Hqs; apply slot_at_insert_other; [done | done | congruence] |].
      assert (HLi : <[length qs1 := Lg']> Ls !! i = Some L)
        by (by rewrite list_lookup_insert_ne).
      split; [done |]. rewrite Hobs, app_nil_r. simpl.
      eapply slot_chunks_frame; [done | done | apply (ev_frame _ _ _ _ Hev)].
  - destruct (first_slot_dec NULL (g_queue s)) as [Hmiss | (qs1 & qn & qs2 & Hfs)].
    { apply (Hsame (-1) []); [| done | done]. simpl. by rewrite lwnl_add_listener_full. }
    pose proof (first_slot_at _ _ _ _ _ Hfs) as Hatn.
    destruct (lwnl_add_listener_spec s Ls g _ qn Hwf Hok Hatn)
      as (s' & Hrun & Hqs & _ & Hh & Hb & _ & _ & _ & Hwf').
    assert (Hij : i <> length qs1).
    { intros ->. destruct Hat as (Hi & _). destruct Hatn as (Hj & Hfn & _). congruence. }
    exists 0, [], s', Ls, q, L. split; [simpl; by rewrite Hrun |]. split; [done |].
    split; [rewrite Hqs; apply slot_at_insert_other; [done | done | done] |].
    split; [done |]. simpl. by rewrite Hh, Hb, app_nil_r.
  - destruct (first_slot_dec g (g_queue s)) as [Hmiss | (qs1 & qg & qs2 & Hfs)].
    { apply (Hsame 0 []); [| done | done]. simpl.
      by rewrite lwnl_remove_listener_miss. }
    pose proof (first_slot_at _ _ _ _ _ Hfs) as Hatg.
    destruct (lwnl_remove_listener_spec s Ls g _ qg (size (events s)) Hwf Hok Hatg)
      as (s' & Hrun & Hqs & _ & Hwf' & Hev); [done |].
    assert (Hij : i <> length qs1).
    { intros ->. destruct Hat as (Hi & _). destruct Hatg as (Hj & Hfg & _). congruence. }
    exists 0, [], s', (<[length qs1 := []]> Ls), q, L.
    split; [simpl; by rewrite Hrun |]. split; [done |].
    split; [rewrite Hqs; apply slot_at_insert_other; [done | done | simpl; congruence] |].
    assert (HLi : <[length qs1 := []]> Ls !! i = Some L)
      by (by rewrite list_lookup_insert_ne).
    split; [done |]. simpl. rewrite app_nil_r.
    eapply slot_chunks_frame; [done | done | apply (ev_frame _ _ _ _ Hev)].
Qed.

(** ** One consumer across a whole run *)

Lemma run_watch f i ops : forall s Ls q L,
  wf s Ls -> f <> NULL -> slot_at f (g_queue s) i q -> Ls !! i = Some L ->
  valid f ops s ->
  exists seen sent s' Ls' q' L',
    run f ops s = Ok (seen, sent, s') /\ wf s' Ls' /\
    slot_at f (g_queue s') i q' /\ Ls' !! i = Some L' /\
    seen ++ slot_chunks (events s') (buffers s') q' L'
    = slot_chunks (events s) (buffers s) q L ++ sent.
Proof.
  induction ops as [| o ops IH]; intros s Ls q L Hwf Hf Hat HL Hval.
  - exists [], [], s, Ls, q, L. simpl. by rewrite app_nil_r.
  - destruct Hval as (Hok & Hstay & Hnext).
    destruct (step_watch s Ls f i q L o Hwf Hf Hat HL Hok Hstay)
      as (r & buf & s1 & Ls1 & q1 & L1 & Hstep & Hwf1 & Hat1 & HL1 & Heq1).
    destruct (IH s1 Ls1 q1 L1 Hwf1 Hf Hat1 HL1 (Hnext _ _ _ Hstep))
      as (seen & sent & s2 & Ls2 & q2 & L2 & Hrun & Hwf2 & Hat2 & HL2 & Heq2).
    exists (observed f o r buf ++ seen), (emitted o r ++ sent), s2, Ls2, q2, L2.
    split; [simpl; by rewrite Hstep; simpl; rewrite Hrun |].
    repeat (split; [done |]).
    rewrite <- app_assoc, Heq2, !app_assoc, Heq1. done.
Qed.

Lemma slot_chunks_nil h b q L : slot_ok h q L -> slot_chunks h b q L = [] -> L = [].
Proof.
  intros Hok Hnil. destruct L as [| x L0]; [done |]. exfalso.
  pose proof (so_chain _ _ _ Hok) as Hc.
  apply chain_cons_inv in Hc as (Hfx & Hx & e & He & _).
  rewrite (slot_chunks_cons _ _ _ _ _ _ He) in Hnil.
  destruct (check_header q =? 0) eqn:Hch; [done |].
  apply Z.eqb_neq in Hch.
  destruct (so_phase _ _ _ Hok) as [H0 | (_ & _ & e0 & He0 & Hpos)]; [done |].
  rewrite Hfx in He0. assert (e0 = e) as -> by congruence.
  apply Z.ltb_lt in Hpos. rewrite Hpos in Hnil. done.
Qed.

Lemma read_n_spec f i chunks : forall s Ls q L,
  wf s Ls -> slot_at f (g_queue s) i q -> Ls !! i = Some L ->
  slot_chunks (events s) (buffers s) q L = chunks ->
  exists s' Ls' q',
    read_n (length chunks) f s = Ok (chunks, s') /\ wf s' Ls' /\
    slot_at f (g_queue s') i q' /\ Ls' !! i = Some [] /\ front q' = NULL.
Proof.
  induction chunks as [| c cs IH]; intros s Ls q L Hwf Hat HL Hch.
  - destruct (Forall2_lookup_r _ _ _ _ _ (wf_slots _ _ Hwf) HL) as (q0 & Hq0 & Hok).
    assert (q0 = q) as -> by (destruct Hat as (Hi & _); congruence).
    pose proof (slot_chunks_nil _ _ _ _ Hok Hch) as ->.
    exists s, Ls, q. repeat (split; [done |]).
    apply (chain_front_null (events s)), (so_chain _ _ _ Hok).
  - destruct (lwnl_get_event_spec s Ls f [] INT_MAX i q Hwf Hat)
      as (L0 & r & buf' & q' & L' & s' & HL0 & Hrun & _ & Hqs & _ & Hwf' & Hfq' & _ & Hres).
    assert (L0 = L) as -> by congruence.
    destruct Hres as [(_ & _ & _ & _ & _ & Hwhy) | [Hr Heq]].
    { exfalso. destruct Hwhy as [[_ ->] | (_ & e & He & Hne & Hsmall)].
      { unfold slot_chunks in Hch. simpl in Hch. by rewrite drop_nil in Hch. }
      unfold too_small in Hsmall.
      destruct (check_header q =? 0).
      - unfold to_size_t, INT_MAX in Hsmall. rewrite Z.mod_small in Hsmall; lia.
      - destruct (wf_payload _ _ Hwf _ e He) as ([_ Hmax] & _).
        unfold to_uint32, INT_MAX in *. rewrite Z.mod_small in Hsmall; lia. }
    rewrite Hch in Heq. injection Heq as Hc Hcs.
    destruct (IH s' (<[i := L']> Ls) q' L' Hwf') as (s2 & Ls2 & q2 & Hrd & Hwf2 & Hat2 & HL2 & Hfr2).
    { rewrite Hqs. by eapply slot_at_insert_same. }
    { apply list_lookup_insert_eq. by eapply lookup_lt_Some. }
    { done. }
    exists s2, Ls2, q2. split; [| done].
    simpl. rewrite Hrun. simpl. rewrite Hrd. simpl.
    rewrite Z.eqb_refl. assert ((0 <? r) = true) as -> by (by apply Z.ltb_lt).
    simpl. by rewrite Hc.
Qed.

(** * The claims *)

Lemma wf_chains s Ls :
  wf s Ls -> Forall2 (fun q L => chain (events s) (front q) L) (g_queue s) Ls.
Proof.
  intros Hwf. eapply Forall2_impl; [apply (wf_slots _ _ Hwf) |].
  intros q L Hok. apply (so_chain _ _ _ Hok).
Qed.

(** C1 (refcount correctness).  In every state reached from the
    initialised queue by emit, read, register and deregister calls, each
    slot's cursor walks a chain of live nodes (no freed node is referenced)
    and the [refs] field of every live node is the number of slot chains
    that still contain it.  Every further call returns, and a node that
    had a positive count is afterwards either still live, with a positive
    count equal to the number of chains containing it and with its payload,
    or destroyed together with its payload, and then no chain contains it:
    a node is destroyed exactly when its count drops to zero. *)
Theorem refcount_correctness s :
  reachable s ->
  exists Ls,
    Forall2 (fun q L => chain (events s) (front q) L) (g_queue s) Ls /\
    (forall p e, events s !! p = Some e ->
       refs e = holders Ls p /\ payload_ok (buffers s) e) /\
    forall o, op_ok s o ->
      exists r buf s' Ls',
        step o s = Ok (r, buf, s') /\
        Forall2 (fun q L => chain (events s') (front q) L) (g_queue s') Ls' /\
        forall p e, events s !! p = Some e -> 0 < refs e ->
          (exists e', events s' !! p = Some e' /\ refs e' = holders Ls' p /\
             0 < refs e' /\ evt_data e' = evt_data e /\ payload_ok (buffers s') e') \/
          (events s' !! p = None /\ holders Ls' p = 0 /\
           (data (evt_data e) <> NULL -> buffers s' !! data (evt_data e) = None)).
Proof.
  intros Hreach. destruct (reachable_wf s Hreach) as [Ls Hwf].
  exists Ls. split; [by apply wf_chains |]. split.
  { intros p e He. split; [by apply (wf_refs _ _ Hwf) | by apply (wf_payload _ _ Hwf p)]. }
  intros o Hok.
  destruct (step_wf s Ls o Hwf Hok) as (r & buf & s' & Ls' & Hstep & Hwf' & Hlife).
  exists r, buf, s', Ls'. split; [done |]. split; [by apply wf_chains |].
  intros p e He Hpos.
  destruct (Hlife p e He Hpos) as [(e' & He' & Hpos' & _ & Hd & _) | [Hnone Hfreed]].
  - left. exists e'. split; [done |]. split; [by apply (wf_refs _ _ Hwf') |].
    split; [done |]. split; [done |]. by apply (wf_payload _ _ Hwf' p).
  - right. split; [done |]. split; [| done].
    apply holders_none. intros L HL Hin.
    destruct (wf_chain_live _ _ _ _ Hwf' HL Hin) as [[ex Hex] _]. congruence.
Qed.

(** C2 (no event loss).  A consumer [f] that is registered with nothing
    pending and stays registered: whatever calls follow (emits, reads by
    anyone, other consumers coming and going), the deliveries [f] has
    received so far, followed by what its further reads return, are
    exactly the headers and payloads of the emitted events, each once and
    in emission order; after that nothing is pending. *)
Theorem no_event_loss f s i q ops :
  reachable s -> f <> NULL -> slot_at f (g_queue s) i q -> front q = NULL ->
  valid f ops s ->
  exists seen sent s1 rest s2,
    run f ops s = Ok (seen, sent, s1) /\
    read_n (length sent - length seen) f s1 = Ok (rest, s2) /\
    seen ++ rest = sent /\
    lwnl_check_queue f s2 = 0.
Proof.
  intros Hreach Hf Hat Hfront Hval. destruct (reachable_wf s Hreach) as [Ls Hwf].
  destruct (slot_at_split _ _ _ _ _ Hwf Hat)
    as (qs1 & qs2 & Ls1 & L & Ls2 & Hq & HLs & Hl1 & Hl2 & HL & Hfs).
  pose proof Hwf as Hwf0. rewrite HLs in Hwf0.
  destruct (wf_split _ _ _ _ _ _ _ Hwf0 Hq) as (_ & Hsq & _); [lia |].
  assert (L = []) as ->.
  { pose proof (so_chain _ _ _ Hsq) as Hc. rewrite Hfront in Hc. by apply chain_null_inv in Hc. }
  destruct (run_watch f i ops s Ls q [] Hwf Hf Hat HL Hval)
    as (seen & sent & s1 & Ls1' & q1 & L1 & Hrun & Hwf1 & Hat1 & HL1 & Heq).
  assert (Hnil : slot_chunks (events s) (buffers s) q [] = []).
  { unfold slot_chunks. simpl. by rewrite drop_nil. }
  rewrite Hnil in Heq. simpl in Heq.
  destruct (read_n_spec f i (slot_chunks (events s1) (buffers s1) q1 L1) s1 Ls1' q1 L1
              Hwf1 Hat1 HL1 eq_refl) as (s2 & Ls2' & q2 & Hrd & Hwf2 & Hat2 & HL2 & Hfr2).
  exists seen, sent, s1, (slot_chunks (events s1) (buffers s1) q1 L1), s2.
  split; [done |]. split.
  { rewrite <- Heq, length_app.
    replace (length seen + length (slot_chunks (events s1) (buffers s1) q1 L1) - length seen)%nat
      with (length (slot_chunks (events s1) (buffers s1) q1 L1)) by lia.
    done. }
  split; [done |].
  rewrite (lwnl_check_queue_spec f s2 i q2 Hat2), Hfr2. done.
Qed.

(** C9 (tail subscription).  A consumer that registers now starts with an
    absent front cursor: nothing is pending and a read returns 0 without
    touching its buffer.  Whatever calls follow, all it ever receives is a
    prefix of the deliveries of the events emitted after its registration;
    as long as there is no later emission it receives nothing and nothing
    is pending for it.  Events emitted before play no part. *)
Theorem tail_subscription f s buf len :
  reachable s -> f <> NULL ->
  Forall (fun q => filep q <> f) (g_queue s) ->
  (exists i q, slot_at NULL (g_queue s) i q) ->
  exists s1,
    lwnl_add_listener f s = (0, s1) /\
    (exists i q, slot_at f (g_queue s1) i q /\ front q = NULL /\ check_header q = 0) /\
    lwnl_check_queue f s1 = 0 /\
    lwnl_get_event f buf len s1 = Ok (0, buf, s1) /\
    forall ops, valid f ops s1 ->
      exists seen sent s2,
        run f ops s1 = Ok (seen, sent, s2) /\
        (exists rest, seen ++ rest = sent) /\
        (sent = [] -> seen = [] /\ lwnl_check_queue f s2 = 0).
Proof.
  intros Hreach Hf Hnot (i & q & Hfree). destruct (reachable_wf s Hreach) as [Ls Hwf].
  destruct (lwnl_add_listener_spec s Ls f i q Hwf Hf Hfree)
    as (s1 & Hadd & Hqs & _ & Hh & Hb & Hfront & Hch & HL & Hwf1).
  assert (Hat : slot_at f (g_queue s1) i (set_filep f q)).
  { rewrite Hqs. destruct Hfree as (Hi & _ & _).
    split; [apply list_lookup_insert_eq; by eapply lookup_lt_Some |]. split; [done |].
    intros k x Hk Hx. rewrite list_lookup_insert_ne in Hx by lia.
    rewrite Forall_forall in Hnot. apply Hnot. by eapply list_elem_of_lookup_2. }
  assert (Hnil : slot_chunks (events s1) (buffers s1) (set_filep f q) [] = []).
  { unfold slot_chunks. simpl. by rewrite drop_nil. }
  exists s1. split; [done |]. split; [by exists i, (set_filep f q) |]. split.
  { rewrite (lwnl_check_queue_spec f s1 i _ Hat). simpl. by rewrite Hfront. }
  split.
  { destruct (lwnl_get_event_spec s1 Ls f buf len i _ Hwf1 Hat)
      as (L0 & r & buf' & q' & L' & s' & HL0 & Hrun & _ & _ & _ & _ & _ & _ & Hres).
    assert (L0 = []) as -> by congruence.
    destruct Hres as [(_ & -> & _ & -> & _ & Hwhy) | [_ Heq]].
    - destruct Hwhy as [[-> _] | (_ & e & _ & Hne & _)]; [done |].
      simpl in Hne. congruence.
    - by rewrite Hnil in Heq. }
  intros ops Hval.
  destruct (run_watch f i ops s1 Ls _ [] Hwf1 Hf Hat HL Hval)
    as (seen & sent & s2 & Ls2 & q2 & L2 & Hrun & Hwf2 & Hat2 & HL2 & Heq).
  rewrite Hnil in Heq. simpl in Heq.
  exists seen, sent, s2. split; [done |]. split; [eauto |].
  intros ->. apply app_eq_nil in Heq as [-> Hpend]. split; [done |].
  destruct (Forall2_lookup_r _ _ _ _ _ (wf_slots _ _ Hwf2) HL2) as (q0 & Hq0 & Hok).
  assert (q0 = q2) as -> by (destruct Hat2 as (Hi & _); congruence).
  pose proof (slot_chunks_nil _ _ _ _ Hok Hpend) as ->.
  rewrite (lwnl_check_queue_spec f s2 i q2 Hat2).
  by rewrite (chain_front_null _ _ (so_chain _ _ _ Hok)).
Qed.

Lemma add_event_loop_free e gc qs h :
  Forall (fun q => filep q = NULL) qs -> add_event_loop e gc qs h = Ok (h, qs).
Proof.
  induction 1 as [| q qs Hq _ IH]; [done |].
  rewrite add_event_loop_cons. unfold add_event_slot. rewrite Hq. simpl.
  rewrite IH. done.
Qed.

(** C3 (emit without consumer).  When no slot is occupied, emit of a kind
    without payload returns 0, links the node into no slot (the slots are
    unchanged) and leaves the node allocated, with a reference count of
    zero: it is not freed before emit returns. *)
Theorem emit_without_consumer_leaks s type items evt_p out_p junk :
  Forall (fun q => filep q = NULL) (g_queue s) ->
  evt_p <> NULL -> type <> LWNL_UNKNOWN -> type <> LWNL_SCAN_DONE ->
  lwnl_add_event type items evt_p out_p junk s
  = Ok (0, mk_state (g_queue s) (g_connected s)
             (<[evt_p := mk_event NULL (mk_cb_data type NULL 0) 0]> (events s))
             (buffers s)).
Proof.
  intros Hfree Hp Hty Hscan.
  rewrite lwnl_add_event_built; [| done | done | done].
  assert (Hd : built_data type items out_p = mk_cb_data type NULL 0) by (by destruct type).
  assert (Hb : built_buffers type items out_p (buffers s) = buffers s) by (by destruct type).
  rewrite Hd, Hb. unfold _lwnl_add_event. simpl.
  rewrite (store_event_some _ _ _ (mk_event NULL (mk_cb_data type NULL 0) 0))
    by apply lookup_insert_eq.
  simpl. rewrite add_event_loop_free by done. simpl.
  by rewrite insert_insert_eq.
Qed.

(** C4 (read with nothing to deliver), as the code has it.  For an
    identity that no slot holds the read returns -1; for an identity whose
    slot has an absent front cursor it returns 0.  In both cases neither
    the buffer nor the state changes. *)
Theorem read_nothing_pending f buf len s :
  (Forall (fun q => filep q <> f) (g_queue s) ->
   lwnl_get_event f buf len s = Ok (-1, buf, s)) /\
  (forall i q, slot_at f (g_queue s) i q -> front q = NULL ->
   lwnl_get_event f buf len s = Ok (0, buf, s)).
Proof.
  split; [apply lwnl_get_event_miss |].
  intros i q Hat Hfront. destruct (slot_at_first _ _ _ _ Hat) as [Hfs _].
  unfold lwnl_get_event. rewrite (get_event_loop_hit _ _ _ _ _ _ _ _ _ Hfs).
  unfold get_event_slot. rewrite Hfront. simpl.
  destruct Hfs as (Hq & _). rewrite <- Hq. by destruct s.
Qed.

(** C5 (header read).  A registered consumer in the header phase with a
    pending node and a buffer of at least 8 bytes: the read returns 8 and
    the first 8 bytes of the buffer are the kind tag followed by the
    payload length.  With a non-zero length the slot moves to the payload
    phase and nothing else changes (same front, same nodes, same counts).
    With a zero length the node is released in the same call (its count,
    which is at least 1, is decremented and the node is freed when that
    gives zero), front moves to the next node and the phase stays
    header. *)
Theorem header_read f s Ls i q e buf len :
  wf s Ls -> slot_at f (g_queue s) i q ->
  check_header q = 0 -> front q <> NULL -> events s !! front q = Some e ->
  8 <= len <= INT_MAX ->
  exists buf' s',
    lwnl_get_event f buf len s = Ok (8, buf', s') /\
    take 8 buf' = le32 (status_code (status (evt_data e))) ++ le32 (data_len (evt_data e)) /\
    g_connected s' = g_connected s /\
    1 <= refs e /\
    if 0 <? data_len (evt_data e) then
      g_queue s' = <[i := set_check_header 1 q]> (g_queue s) /\
      events s' = events s /\ buffers s' = buffers s
    else
      g_queue s' = <[i := set_front (flink e) q]> (g_queue s) /\
      check_header (set_front (flink e) q) = 0 /\
      events s' = release_events (front q) e (events s) /\
      buffers s' = release_buffers e (buffers s).
Proof.
  intros Hwf Hat Hch Hfront He Hlen.
  destruct (slot_at_split _ _ _ _ _ Hwf Hat)
    as (qs1 & qs2 & Ls1 & L & Ls2 & Hq & -> & Hl1 & Hl2 & HL & Hfs).
  destruct (wf_split _ _ _ _ _ _ _ Hwf Hq) as (_ & Hsq & _); [lia |].
  pose proof (so_chain _ _ _ Hsq) as Hc.
  destruct L as [| p L']; [apply chain_front_null in Hc; congruence |].
  destruct (release_head _ _ _ _ _ _ _ _ Hwf Hq)
    as (e0 & He0 & Hfr & Hp & _ & Hrefs & _ & Hrem & _); [lia |].
  rewrite Hfr in *. assert (e0 = e) as -> by congruence.
  unfold lwnl_get_event. rewrite (get_event_loop_hit _ _ _ _ _ _ _ _ _ Hfs).
  unfold get_event_slot. rewrite Hfr.
  apply Z.eqb_neq in Hp as Hpb. rewrite Hpb, He, Hch. simpl (0 =? 0).
  assert (Hbig : (to_size_t len <? 4 + 4) = false).
  { apply Z.ltb_ge. unfold to_size_t, INT_MAX in *. rewrite Z.mod_small; lia. }
  rewrite Hbig. cbv iota.
  destruct (0 <? data_len (evt_data e)) eqn:Hpl.
  - eexists _, _. split; [reflexivity |]. simpl.
    split; [apply header_read_bytes |]. split; [done |]. split; [lia |].
    split; [| done]. by rewrite Hq, <- Hl1, insert_app_cons.
  - rewrite Hrem. eexists _, _. split; [reflexivity |]. simpl.
    split; [apply header_read_bytes |]. split; [done |]. split; [lia |].
    split; [by rewrite Hq, <- Hl1, insert_app_cons | done].
Qed.

(** C6 (buffer too small).  When a node is pending and the caller's buffer
    is smaller than what the current phase delivers (8 bytes for the
    header, the payload length for the payload), the read returns -1,
    writes nothing into the buffer and leaves the whole state (phase,
    front cursor, reference counts) as it was. *)
Theorem buffer_too_small f s i q e buf len :
  slot_at f (g_queue s) i q -> front q <> NULL -> events s !! front q = Some e ->
  0 <= len <= INT_MAX ->
  (if check_header q =? 0 then len < 8 else len < data_len (evt_data e)) ->
  lwnl_get_event f buf len s = Ok (-1, buf, s).
Proof.
  intros Hat Hfront He Hlen Hsmall. destruct (slot_at_first _ _ _ _ Hat) as [Hfs _].
  unfold lwnl_get_event. rewrite (get_event_loop_hit _ _ _ _ _ _ _ _ _ Hfs).
  unfold get_event_slot. apply Z.eqb_neq in Hfront. rewrite Hfront, He.
  destruct Hfs as (Hq & _).
  destruct (check_header q =? 0).
  - assert ((to_size_t len <? 4 + 4) = true) as ->.
    { apply Z.ltb_lt. unfold to_size_t, INT_MAX in *. rewrite Z.mod_small; lia. }
    simpl. rewrite <- Hq. by destruct s.
  - assert ((to_uint32 len <? data_len (evt_data e)) = true) as ->.
    { apply Z.ltb_lt. unfold to_uint32, INT_MAX in *. rewrite Z.mod_small; lia. }
    simpl. rewrite <- Hq. by destruct s.
Qed.

(** C7 (scan failure is downgraded, not dropped).  When emit is called
    with the scan-completed kind and the payload buffer cannot be
    allocated, emit returns 0 and behaves exactly as an emit of the
    scan-failed kind: the new node has kind scan-failed, no payload and
    length 0, its count is the number of registered consumers, and it is
    appended to the chain of every occupied slot. *)
Theorem scan_failure_downgraded s Ls items evt_p junk :
  wf s Ls -> evt_p <> NULL -> events s !! evt_p = None ->
  exists s',
    lwnl_add_event LWNL_SCAN_DONE items evt_p NULL junk s = Ok (0, s') /\
    lwnl_add_event LWNL_SCAN_FAILED items evt_p NULL junk s = Ok (0, s') /\
    (exists e, events s' !! evt_p = Some e /\
               evt_data e = mk_cb_data LWNL_SCAN_FAILED NULL 0 /\
               refs e = g_connected s) /\
    buffers s' = buffers s /\
    forall i q L, g_queue s !! i = Some q -> filep q <> NULL -> Ls !! i = Some L ->
      exists q', g_queue s' !! i = Some q' /\ filep q' = filep q /\
                 chain (events s') (front q') (L ++ [evt_p]).
Proof.
  intros Hwf Hp Hfresh.
  assert (Hok : emit_ok s LWNL_SCAN_DONE items evt_p NULL) by (by split).
  destruct (lwnl_add_event_spec s Ls LWNL_SCAN_DONE items evt_p NULL junk Hwf Hp)
    as (s' & Hrun & Hqs & _ & Hb & Hwf' & _ & _ & Hnew); [done | done |].
  exists s'. split; [done |]. split.
  { rewrite <- Hrun. rewrite !lwnl_add_event_built by done. done. }
  split; [done |]. split; [done |].
  intros i q L Hq Hocc HL. exists (upd_slot evt_p q).
  split.
  { rewrite Hqs. change (map (upd_slot evt_p) (g_queue s)) with (upd_slot evt_p <$> g_queue s).
    by rewrite list_lookup_fmap, Hq. }
  split; [apply filep_upd_slot |].
  assert (HL' : zip_with (upd_chain evt_p) (g_queue s) Ls !! i = Some (L ++ [evt_p])).
  { rewrite lookup_zip_with, Hq, HL. simpl. unfold upd_chain.
    apply Z.eqb_neq in Hocc. by rewrite Hocc. }
  destruct (Forall2_lookup_r _ _ _ _ _ (wf_slots _ _ Hwf') HL') as (q0 & Hq0 & Hok0).
  rewrite Hqs in Hq0. change (map (upd_slot evt_p) (g_queue s)) with (upd_slot evt_p <$> g_queue s) in Hq0.
  rewrite list_lookup_fmap, Hq in Hq0. injection Hq0 as <-.
  apply (so_chain _ _ _ Hok0).
Qed.

(** C8 (scan-list serializer).  For a scan list of n records of the fixed
    record size (the total fitting the [int] result): when the buffer is
    allocated the call returns n times the record size and the buffer
    holds exactly the n records one after the other in list order; when
    the allocation fails it returns -1, hands out no buffer and writes
    nothing. *)
Theorem serializer_all_or_nothing out junk items b :
  0 < SCAN_INFO_SIZE -> Forall sized items ->
  SCAN_INFO_SIZE * Z.of_nat (length items) <= INT_MAX ->
  (out <> NULL ->
   _lwnl_copy_scan_info out junk items b
   = Ok (SCAN_INFO_SIZE * Z.of_nat (length items), out, <[out := concat items]> b) /\
   Z.of_nat (length (concat items)) = SCAN_INFO_SIZE * Z.of_nat (length items)) /\
  (out = NULL ->
   _lwnl_copy_scan_info out junk items b = Ok (-1, NULL, b)).
Proof.
  intros Hs Hall Hmax. split.
  - intros Hout. split; [by apply copy_scan_info_ok | by apply concat_sized_length].
  - intros ->. apply copy_scan_info_fail.
Qed.

Lemma _lwnl_add_event_returns_0 event s r s' :
  _lwnl_add_event event s = Ok (r, s') -> r = 0.
Proof.
  unfold _lwnl_add_event.
  destruct (store_event (set_flink NULL) event (events s)) as [h0 | |]; simpl; try done.
  destruct (add_event_loop event (g_connected s) (g_queue s) h0) as [[h qs] | |];
    simpl; try done.
  by intros [= <- _].
Qed.

(** C10 (the append never fails).  Whenever [_lwnl_add_event] returns, it
    returns 0; hence [lwnl_add_event] never returns its append-failure
    code -2; and in a well-formed queue, with a node allocated and a
    recognized kind, [lwnl_add_event] does return, with 0. *)
Theorem append_never_fails :
  (forall event s r s', _lwnl_add_event event s = Ok (r, s') -> r = 0) /\
  (forall type items evt_p out_p junk s r s',
     lwnl_add_event type items evt_p out_p junk s = Ok (r, s') -> r <> -2) /\
  (forall s Ls type items evt_p out_p junk,
     wf s Ls -> evt_p <> NULL -> type <> LWNL_UNKNOWN ->
     emit_ok s type items evt_p out_p ->
     exists s', lwnl_add_event type items evt_p out_p junk s = Ok (0, s')).
Proof.
  split; [apply _lwnl_add_event_returns_0 |]. split.
  - intros type items evt_p out_p junk s r s'. unfold lwnl_add_event.
    destruct (evt_p =? NULL); [by intros [= <- _] |].
    set (app := fun (evt : lwnl_event) (b' : gmap Z (list Z)) =>
      _lwnl_add_event evt_p
        (mk_state (g_queue s) (g_connected s) (<[evt_p := evt]> (events s)) b')).
    assert (Hgen : forall evt b',
      ('(res, s2) ← app evt b';
       if res <? 0 then
         b2 ← (if data (evt_data evt) =? NULL then Ok (buffers s2)
               else kmm_free_buffer (data (evt_data evt)) (buffers s2));
         Ok (-2, mk_state (g_queue s2) (g_connected s2) (delete evt_p (events s2)) b2)
       else Ok (0, s2)) = Ok (r, s') -> r <> -2).
    { intros evt b'. unfold app.
      destruct (_lwnl_add_event evt_p _) as [[res s2] | |] eqn:Happ; simpl; try done.
      rewrite (_lwnl_add_event_returns_0 _ _ _ _ Happ). simpl. by intros [= <- _]. }
    destruct type; simpl; try (apply Hgen); try (by intros [= <- _]).
    destruct (_lwnl_copy_scan_info out_p junk items (buffers s)) as [[[res output] b'] | |];
      simpl; try done.
    destruct (res <? 0); simpl; apply Hgen.
  - intros s Ls type items evt_p out_p junk Hwf Hp Hty Hok.
    destruct (lwnl_add_event_spec s Ls type items evt_p out_p junk Hwf Hp Hty Hok)
      as (s' & Hrun & _). eauto.
Qed.

(** * Further properties *)

(** ** The two phases of a read, exactly *)

Lemma get_event_header_exact f s Ls i q e buf len :
  wf s Ls -> slot_at f (g_queue s) i q ->
  check_header q = 0 -> front q <> NULL -> events s !! front q = Some e ->
  4 + 4 <= to_size_t len ->
  1 <= refs e <= 127 /\
  lwnl_get_event f buf len s
  = Ok (8,
        memcpy (memcpy buf 0 (le32 (status_code (status (evt_data e)))))
               4 (le32 (data_len (evt_data e))),
        if 0 <? data_len (evt_data e) then
          mk_state (<[i := set_check_header 1 q]> (g_queue s)) (g_connected s)
                   (events s) (buffers s)
        else
          mk_state (<[i := set_front (flink e) q]> (g_queue s)) (g_connected s)
                   (release_events (front q) e (events s))
                   (release_buffers e (buffers s))).
Proof.
  intros Hwf Hat Hch Hfront He Hlen.
  destruct (slot_at_split _ _ _ _ _ Hwf Hat)
    as (qs1 & qs2 & Ls1 & L & Ls2 & Hq & -> & Hl1 & Hl2 & HL & Hfs).
  destruct (wf_split _ _ _ _ _ _ _ Hwf Hq) as (_ & Hsq & _); [lia |].
  pose proof (so_chain _ _ _ Hsq) as Hc.
  destruct L as [| p L']; [apply chain_front_null in Hc; congruence |].
  destruct (release_head _ _ _ _ _ _ _ _ Hwf Hq)
    as (e0 & He0 & Hfr & Hp & _ & Hrefs & _ & Hrem & _); [lia |].
  rewrite Hfr in *. assert (e0 = e) as -> by congruence.
  split; [done |].
  unfold lwnl_get_event. rewrite (get_event_loop_hit _ _ _ _ _ _ _ _ _ Hfs).
  unfold get_event_slot. rewrite Hfr.
  apply Z.eqb_neq in Hp as Hpb. rewrite Hpb, He, Hch. simpl (0 =? 0).
  assert (Hbig : (to_size_t len <? 4 + 4) = false) by (apply Z.ltb_ge; lia).
  rewrite Hbig. cbv iota.
  destruct (0 <? data_len (evt_data e)) eqn:Hpl.
  - simpl. by rewrite Hq, <- Hl1, insert_app_cons.
  - rewrite Hrem. simpl. by rewrite Hq, <- Hl1, insert_app_cons.
Qed.

Lemma get_event_payload_exact f s Ls i q e buf len :
  wf s Ls -> slot_at f (g_queue s) i q ->
  check_header q <> 0 -> events s !! front q = Some e ->
  data_len (evt_data e) <= to_uint32 len ->
  exists payload,
    buffers s !! data (evt_data e) = Some payload /\
    Z.of_nat (length payload) = data_len (evt_data e) /\
    0 < data_len (evt_data e) /\ 1 <= refs e <= 127 /\
    lwnl_get_event f buf len s
    = Ok (data_len (evt_data e), memcpy buf 0 payload,
          mk_state (<[i := set_front (flink e) (set_check_header 0 q)]> (g_queue s))
                   (g_connected s)
                   (release_events (front q) e (events s))
                   (release_buffers e (buffers s))).
Proof.
  intros Hwf Hat Hch He Hlen.
  destruct (slot_at_split _ _ _ _ _ Hwf Hat)
    as (qs1 & qs2 & Ls1 & L & Ls2 & Hq & -> & Hl1 & Hl2 & HL & Hfs).
  destruct (wf_split _ _ _ _ _ _ _ Hwf Hq) as (_ & Hsq & _); [lia |].
  destruct (so_phase _ _ _ Hsq) as [H0 | (_ & Hfront & e0 & He0 & Hpos)]; [done |].
  assert (e0 = e) as -> by congruence.
  pose proof (so_chain _ _ _ Hsq) as Hc.
  destruct L as [| p L']; [apply chain_front_null in Hc; congruence |].
  destruct (release_head _ _ _ _ _ _ _ _ Hwf Hq)
    as (e1 & He1 & Hfr & Hp & _ & Hrefs & _ & Hrem & _); [lia |].
  rewrite Hfr in *. assert (e1 = e) as -> by congruence.
  destruct (wf_payload _ _ Hwf p e He) as ([_ Hmax] & Hnull & Hbuf).
  assert (Hdn : data (evt_data e) <> NULL) by (intros Hn; specialize (Hnull Hn); lia).
  destruct (Hbuf Hdn) as (payload & Hpayload & Hplen).
  exists payload. repeat (split; [done |]).
  unfold lwnl_get_event. rewrite (get_event_loop_hit _ _ _ _ _ _ _ _ _ Hfs).
  unfold get_event_slot. rewrite Hfr.
  apply Z.eqb_neq in Hp as Hpb. rewrite Hpb, He.
  apply Z.eqb_neq in Hch. rewrite Hch.
  assert (Hbig : (to_uint32 len <? data_len (evt_data e)) = false) by (apply Z.ltb_ge; lia).
  rewrite Hbig, Hpayload, Hplen, Z.ltb_irrefl, Hrem. simpl.
  rewrite to_int_small by (unfold INT_MAX in Hmax; lia).
  assert (Z.to_nat (data_len (evt_data e)) = length payload) as -> by lia.
  rewrite firstn_all. by rewrite Hq, <- Hl1, insert_app_cons.
Qed.

Lemma get_event_front_null f buf len s i q :
  slot_at f (g_queue s) i q -> front q = NULL ->
  lwnl_get_event f buf len s = Ok (0, buf, s).
Proof.
  intros Hat Hfront. destruct (slot_at_first _ _ _ _ Hat) as [Hfs _].
  unfold lwnl_get_event. rewrite (get_event_loop_hit _ _ _ _ _ _ _ _ _ Hfs).
  unfold get_event_slot. rewrite Hfront. simpl.
  destruct Hfs as (Hq & _). rewrite <- Hq. by destruct s.
Qed.

Lemma memcpy_prefix buf src : take (length src) (memcpy buf 0 src) = src.
Proof. unfold memcpy. simpl. by rewrite take_app_length. Qed.

(** X1 (payload read).  A consumer in the payload phase whose buffer holds
    the payload: the read returns the payload length, the buffer starts
    with the payload bytes, the node is released (its count, at least 1,
    is decremented and the node and its payload are freed when that gives
    zero), front moves to the next node and the phase is header again. *)
Theorem payload_read f s Ls i q e buf len :
  wf s Ls -> slot_at f (g_queue s) i q ->
  check_header q <> 0 -> events s !! front q = Some e ->
  data_len (evt_data e) <= len <= INT_MAX ->
  exists payload buf' s',
    buffers s !! data (evt_data e) = Some payload /\
    lwnl_get_event f buf len s = Ok (data_len (evt_data e), buf', s') /\
    take (Z.to_nat (data_len (evt_data e))) buf' = payload /\
    0 < data_len (evt_data e) /\ 1 <= refs e /\
    g_queue s' = <[i := set_front (flink e) (set_check_header 0 q)]> (g_queue s) /\
    g_connected s' = g_connected s /\
    events s' = release_events (front q) e (events s) /\
    buffers s' = release_buffers e (buffers s).
Proof.
  intros Hwf Hat Hch He Hlen.
  assert (H0 : 0 <= data_len (evt_data e)).
  { destruct (wf_payload _ _ Hwf _ e He) as ([? _] & _). done. }
  destruct (get_event_payload_exact f s Ls i q e buf len Hwf Hat Hch He)
    as (payload & Hp & Hplen & Hpos & Hrefs & Hrun).
  { unfold to_uint32, INT_MAX in *. rewrite Z.mod_small; lia. }
  exists payload. eexists _, _. split; [done |]. split; [exact Hrun |]. simpl.
  split.
  { assert (Z.to_nat (data_len (evt_data e)) = length payload) as -> by lia.
    apply memcpy_prefix. }
  split; [done |]. split; [lia |]. done.
Qed.

(** X2 (length compared as unsigned).  The size check of the header phase
    converts [len] to an unsigned value, so a negative [len] is not
    rejected: with a node pending the call returns 8 and writes the
    8-byte header into the buffer. *)
Theorem negative_len_accepted f s Ls i q e buf len :
  wf s Ls -> slot_at f (g_queue s) i q ->
  check_header q = 0 -> front q <> NULL -> events s !! front q = Some e ->
  - 2147483648 <= len < 0 ->
  exists buf' s',
    lwnl_get_event f buf len s = Ok (8, buf', s') /\
    take 8 buf' = le32 (status_code (status (evt_data e))) ++ le32 (data_len (evt_data e)).
Proof.
  intros Hwf Hat Hch Hfront He Hlen.
  destruct (get_event_header_exact f s Ls i q e buf len Hwf Hat Hch Hfront He)
    as (_ & Hrun).
  { unfold to_size_t.
    replace len with (len + 4294967296 + (-1) * 4294967296) by lia.
    rewrite Z.mod_add by lia. rewrite Z.mod_small; lia. }
  eexists _, _. split; [exact Hrun |]. apply header_read_bytes.
Qed.

(** X3 (length compared as unsigned, payload phase).  The size check of the
    payload phase compares [len] with the unsigned payload length, so a
    negative [len] is not rejected either: the call returns the payload
    length and writes the whole payload into the buffer. *)
Theorem negative_len_payload f s Ls i q e buf len :
  wf s Ls -> slot_at f (g_queue s) i q ->
  check_header q <> 0 -> events s !! front q = Some e ->
  - 2147483648 <= len < 0 ->
  exists payload buf' s',
    buffers s !! data (evt_data e) = Some payload /\
    lwnl_get_event f buf len s = Ok (data_len (evt_data e), buf', s') /\
    take (Z.to_nat (data_len (evt_data e))) buf' = payload.
Proof.
  intros Hwf Hat Hch He Hlen.
  assert (H0 : 0 <= data_len (evt_data e) <= INT_MAX).
  { destruct (wf_payload _ _ Hwf _ e He) as (? & _). done. }
  destruct (get_event_payload_exact f s Ls i q e buf len Hwf Hat Hch He)
    as (payload & Hp & Hplen & _ & _ & Hrun).
  { unfold to_uint32, INT_MAX in *.
    replace len with (len + 4294967296 + (-1) * 4294967296) by lia.
    rewrite Z.mod_add by lia. rewrite Z.mod_small; lia. }
  exists payload. eexists _, _. split; [done |]. split; [exact Hrun |].
  assert (Z.to_nat (data_len (evt_data e)) = length payload) as -> by lia.
  apply memcpy_prefix.
Qed.

(** X4 (unknown identity).  For an identity that no slot holds,
    de-registration returns 0 and the readiness check returns 0; neither
    changes the state, whatever the fuel of the drain loop. *)
Theorem unknown_identity_benign fuel f s :
  Forall (fun q => filep q <> f) (g_queue s) ->
  lwnl_remove_listener fuel f s = Ok (0, s) /\ lwnl_check_queue f s = 0.
Proof.
  intros Hmiss. split; [by apply lwnl_remove_listener_miss | by apply lwnl_check_queue_miss].
Qed.

(** X5 (readiness agrees with read).  For a registered identity the
    readiness check returns 1 exactly when a read with a large buffer
    delivers bytes, and 0 exactly when such a read returns 0 and changes
    nothing. *)
Theorem check_queue_agrees_with_read f s Ls i q buf :
  wf s Ls -> slot_at f (g_queue s) i q ->
  (lwnl_check_queue f s = 0 /\ lwnl_get_event f buf INT_MAX s = Ok (0, buf, s)) \/
  (lwnl_check_queue f s = 1 /\
   exists r buf' s', lwnl_get_event f buf INT_MAX s = Ok (r, buf', s') /\ 0 < r).
Proof.
  intros Hwf Hat. rewrite (lwnl_check_queue_spec f s i q Hat).
  destruct (front q =? NULL) eqn:Hfr.
  { left. apply Z.eqb_eq in Hfr. split; [done |]. by eapply get_event_front_null. }
  right. split; [done |]. apply Z.eqb_neq in Hfr.
  destruct (lwnl_get_event_spec s Ls f buf INT_MAX i q Hwf Hat)
    as (L & r & buf' & q' & L' & s' & HL & Hrun & _ & _ & _ & _ & _ & _ & Hres).
  destruct Hres as [(_ & _ & _ & _ & _ & Hwhy) | [Hr _]]; [exfalso | eauto 10].
  destruct Hwhy as [[_ ->] | (_ & e & He & Hne & Hsmall)].
  - destruct (Forall2_lookup_r _ _ _ _ _ (wf_slots _ _ Hwf) HL) as (q0 & Hq0 & Hok).
    assert (q0 = q) as -> by (destruct Hat as (Hi & _); congruence).
    by apply Hfr, (chain_front_null (events s)), (so_chain _ _ _ Hok).
  - unfold too_small in Hsmall. destruct (check_header q =? 0).
    + unfold to_size_t, INT_MAX in Hsmall. rewrite Z.mod_small in Hsmall; lia.
    + destruct (wf_payload _ _ Hwf _ e He) as ([_ Hmax] & _).
      unfold to_uint32, INT_MAX in *. rewrite Z.mod_small in Hsmall; lia.
Qed.

(** ** Registration and the fixed table *)

Lemma register_all_fills fs : forall occ k gc h b,
  Forall (fun q => filep q <> NULL) occ ->
  Forall (fun f => f <> NULL) fs ->
  (length fs <= k)%nat -> 0 <= gc -> gc + Z.of_nat (length fs) <= INT_MAX ->
  register_all fs (mk_state (occ ++ replicate k empty_queue) gc h b)
  = (replicate (length fs) 0,
     mk_state (occ ++ map (fun f => set_filep f empty_queue) fs
                   ++ replicate (k - length fs) empty_queue)
              (gc + Z.of_nat (length fs)) h b).
Proof.
  unfold INT_MAX.
  induction fs as [| f fs IH]; intros occ k gc h b Hocc Hfs Hk Hgc Hmax.
  - simpl. by rewrite Nat.sub_0_r, Z.add_0_r.
  - apply Forall_cons in Hfs as [Hf Hfs]. simpl in Hk, Hmax.
    destruct k as [| k]; [lia |].
    assert (Hfs1 : first_slot NULL (occ ++ empty_queue :: replicate k empty_queue) occ
                     empty_queue (replicate k empty_queue)) by (by split).
    cbn [register_all]. unfold lwnl_add_listener. simpl g_queue.
    rewrite (add_listener_loop_hit f _ _ _ _ Hfs1). simpl.
    rewrite to_int_small by lia.
    specialize (IH (occ ++ [set_filep f empty_queue]) k (gc + 1) h b).
    rewrite <- !app_assoc in IH. simpl in IH. rewrite IH; [| | done | lia | lia | lia].
    + simpl. do 2 f_equal. lia.
    + apply Forall_app. split; [done |]. by constructor.
Qed.

(** X6 (capacity).  After initialisation, registering as many identities
    as there are slots succeeds every time and fills the slots in index
    order; the live count is then the number of slots, and any further
    registration returns -1 and changes nothing. *)
Theorem registration_capacity fs s0 :
  Forall (fun f => f <> NULL) fs -> length fs = LWNL_NPOLLWAITERS ->
  Z.of_nat LWNL_NPOLLWAITERS <= INT_MAX ->
  exists s,
    register_all fs (lwnl_queue_initialize s0) = (replicate LWNL_NPOLLWAITERS 0, s) /\
    map filep (g_queue s) = fs /\
    g_connected s = Z.of_nat LWNL_NPOLLWAITERS /\
    forall g, lwnl_add_listener g s = (-1, s).
Proof.
  intros Hfs Hlen Hmax. unfold lwnl_queue_initialize.
  pose proof (register_all_fills fs [] LWNL_NPOLLWAITERS 0 (events s0) (buffers s0)) as Hreg.
  simpl in Hreg. rewrite Hreg; [| done | done | lia | lia | lia].
  rewrite Hlen, Nat.sub_diag. simpl. rewrite app_nil_r.
  eexists. split; [reflexivity |]. simpl.
  assert (Hmap : map filep (map (fun f => set_filep f empty_queue) fs) = fs).
  { clear. induction fs as [| f fs IH]; simpl; [done | by rewrite IH]. }
  split; [done |]. split; [done |].
  intros g. apply lwnl_add_listener_full. simpl.
  apply Forall_forall. intros q Hq. apply list_elem_of_In, in_map_iff in Hq as (f & <- & Hin).
  simpl. rewrite Forall_forall in Hfs. apply Hfs. by apply list_elem_of_In.
Qed.

(** X7 (a freed slot can be taken again).  De-registering a registered
    identity empties its slot and decrements the live count; a
    registration that follows succeeds, even if the table was full, and
    brings the live count back. *)
Theorem deregister_frees_slot s Ls f g i q fuel :
  wf s Ls -> f <> NULL -> g <> NULL -> slot_at f (g_queue s) i q ->
  (size (events s) <= fuel)%nat ->
  exists s1 s2,
    lwnl_remove_listener fuel f s = Ok (0, s1) /\
    g_queue s1 !! i = Some empty_queue /\
    g_connected s1 = g_connected s - 1 /\
    lwnl_add_listener g s1 = (0, s2) /\
    g_connected s2 = g_connected s /\
    exists j q', (j <= i)%nat /\ g_queue s2 !! j = Some q' /\
                filep q' = g /\ front q' = NULL /\ check_header q' = 0.
Proof.
  intros Hwf Hf Hg Hat Hfuel.
  destruct (lwnl_remove_listener_spec s Ls f i q fuel Hwf Hf Hat Hfuel)
    as (s1 & Hrem & Hqs1 & Hgc1 & Hwf1 & _).
  assert (Hlt : (i < length (g_queue s))%nat).
  { destruct Hat as (Hi & _). by eapply lookup_lt_Some. }
  assert (Hi1 : g_queue s1 !! i = Some empty_queue).
  { rewrite Hqs1. by apply list_lookup_insert_eq. }
  destruct (first_slot_dec NULL (g_queue s1)) as [Hfull | (qs1 & qn & qs2 & Hfs)].
  { rewrite Forall_forall in Hfull. exfalso.
    apply (Hfull empty_queue); [by eapply list_elem_of_lookup_2 | done]. }
  pose proof (first_slot_at _ _ _ _ _ Hfs) as Hatn.
  destruct (lwnl_add_listener_spec s1 _ g _ qn Hwf1 Hg Hatn)
    as (s2 & Hadd & Hqs2 & Hgc2 & _ & _ & Hfr & Hch & _ & _).
  exists s1, s2. repeat (split; [done |]). split; [lia |].
  exists (length qs1), (set_filep g qn). split.
  - destruct Hatn as (_ & _ & Hbefore).
    destruct (decide (length qs1 <= i)%nat) as [Hle | Hgt]; [done |].
    exfalso. apply (Hbefore i empty_queue); [lia | done | done].
  - rewrite Hqs2. destruct Hatn as (Hj & Hfn & _).
    rewrite list_lookup_insert_eq by (by eapply lookup_lt_Some). done.
Qed.

Lemma step_table s Ls o r buf s' :
  wf s Ls -> op_ok s o -> step o s = Ok (r, buf, s') ->
  length (g_queue s') = length (g_queue s).
Proof.
  intros Hwf Hok Hstep.
  destruct o as [type items evt_p out_p junk | f b0 len | f | f]; simpl in *.
  - destruct (decide (evt_p = NULL)) as [-> | Hp].
    { rewrite lwnl_add_event_nomem in Hstep. simpl in Hstep. by injection Hstep as _ _ <-. }
    destruct (decide (type = LWNL_UNKNOWN)) as [-> | Hty].
    { rewrite lwnl_add_event_unknown in Hstep by done. simpl in Hstep.
      by injection Hstep as _ _ <-. }
    destruct (lwnl_add_event_spec s Ls type items evt_p out_p junk Hwf Hp Hty Hok)
      as (s1 & Hrun & Hqs & _).
    rewrite Hrun in Hstep. simpl in Hstep. injection Hstep as _ _ <-.
    by rewrite Hqs, length_map.
  - destruct (first_slot_dec f (g_queue s)) as [Hmiss | (qs1 & q & qs2 & Hfs)].
    { rewrite lwnl_get_event_miss in Hstep by done. by injection Hstep as _ _ <-. }
    destruct (lwnl_get_event_spec s Ls f b0 len _ q Hwf (first_slot_at _ _ _ _ _ Hfs))
      as (L & r1 & buf1 & q' & L' & s1 & _ & Hrun & _ & Hqs & _).
    rewrite Hrun in Hstep. injection Hstep as _ _ <-. by rewrite Hqs, length_insert.
  - destruct (first_slot_dec NULL (g_queue s)) as [Hmiss | (qs1 & q & qs2 & Hfs)].
    { rewrite lwnl_add_listener_full in Hstep by done. by injection Hstep as _ _ <-. }
    destruct (lwnl_add_listener_spec s Ls f _ q Hwf Hok (first_slot_at _ _ _ _ _ Hfs))
      as (s1 & Hrun & Hqs & _).
    rewrite Hrun in Hstep. injection Hstep as _ _ <-. by rewrite Hqs, length_insert.
  - destruct (first_slot_dec f (g_queue s)) as [Hmiss | (qs1 & q & qs2 & Hfs)].
    { rewrite lwnl_remove_listener_miss in Hstep by done. simpl in Hstep.
      by injection Hstep as _ _ <-. }
    destruct (lwnl_remove_listener_spec s Ls f _ q (size (events s)) Hwf Hok
                (first_slot_at _ _ _ _ _ Hfs)) as (s1 & Hrun & Hqs & _); [done |].
    rewrite Hrun in Hstep. simpl in Hstep. injection Hstep as _ _ <-.
    by rewrite Hqs, length_insert.
Qed.

Lemma step_wf_result s Ls o r buf s' :
  wf s Ls -> op_ok s o -> step o s = Ok (r, buf, s') -> exists Ls', wf s' Ls'.
Proof.
  intros Hwf Hok Hstep.
  destruct (step_wf s Ls o Hwf Hok) as (r0 & buf0 & s0 & Ls' & Hstep0 & Hwf' & _).
  rewrite Hstep in Hstep0. injection Hstep0 as -> -> ->. eauto.
Qed.

(** X8 (the table is fixed).  In every state reached from the initialised
    queue the table has exactly the configured number of slots, and the
    live count is the number of occupied slots, between 0 and the number
    of slots. *)
Theorem table_size_fixed s :
  reachable s ->
  length (g_queue s) = LWNL_NPOLLWAITERS /\
  g_connected s = occupied_count (g_queue s) /\
  0 <= g_connected s <= Z.of_nat LWNL_NPOLLWAITERS.
Proof.
  intros Hreach.
  assert (Hlen : length (g_queue s) = LWNL_NPOLLWAITERS).
  { induction Hreach as [HN | s o r buf s' Hr IH Hok Hstep].
    - simpl. apply length_replicate.
    - destruct (reachable_wf s Hr) as [Ls Hwf].
      by rewrite (step_table s Ls o r buf s' Hwf Hok Hstep). }
  destruct (reachable_wf s Hreach) as [Ls Hwf].
  pose proof (wf_connected _ _ Hwf) as Hgc.
  pose proof (occupied_count_bounds (g_queue s)) as Hb.
  split; [done |]. split; [done |]. rewrite Hgc, <- Hlen. done.
Qed.

(** X9 (NULL as an identity).  A free slot has a NULL [filep], so a NULL
    identity matches it.  Registering NULL returns 0 and increments the
    live count although no slot becomes occupied; de-registering NULL
    returns 0 and decrements the live count although no slot is released.
    Either way the live count no longer is the number of occupied
    slots. *)
Theorem null_listener_miscounts s Ls i q fuel :
  wf s Ls -> slot_at NULL (g_queue s) i q ->
  (exists s',
     lwnl_add_listener NULL s = (0, s') /\
     g_queue s' = g_queue s /\
     g_connected s' = occupied_count (g_queue s') + 1) /\
  (exists s',
     lwnl_remove_listener fuel NULL s = Ok (0, s') /\
     occupied_count (g_queue s') = occupied_count (g_queue s) /\
     events s' = events s /\
     g_connected s' = occupied_count (g_queue s') - 1).
Proof.
  intros Hwf Hat.
  destruct (slot_at_split _ _ _ _ _ Hwf Hat)
    as (qs1 & qs2 & Ls1 & L & Ls2 & Hq & -> & Hl1 & Hl2 & HL & Hfs).
  destruct (wf_split _ _ _ _ _ _ _ Hwf Hq) as (_ & Hsq & _); [lia |].
  assert (Hfq : filep q = NULL) by apply Hat.
  destruct (so_free _ _ _ Hsq Hfq) as [Hfront Hch].
  pose proof (wf_connected _ _ Hwf) as Hgc.
  pose proof (occupied_count_bounds (g_queue s)) as Hb.
  pose proof (wf_bound _ _ Hwf) as Hbound.
  split.
  - eexists. unfold lwnl_add_listener. rewrite (add_listener_loop_hit _ _ _ _ _ Hfs).
    split; [reflexivity |]. simpl.
    assert (Hsame : set_filep NULL q = q) by (destruct q; simpl in *; by subst).
    rewrite Hsame, <- Hq. split; [done |].
    rewrite to_int_small by lia. lia.
  - eexists. unfold lwnl_remove_listener.
    rewrite (remove_listener_loop_hit _ _ _ _ _ _ _ _ Hfs), Hfront.
    assert (Hdr : drain fuel NULL (events s) (buffers s) = Ok (events s, buffers s))
      by (by destruct fuel).
    rewrite Hdr. simpl. split; [reflexivity |]. simpl.
    assert (Hcnt : occupied_count (qs1 ++ empty_queue :: qs2) = occupied_count (g_queue s)).
    { rewrite Hq, !occupied_count_app. simpl. by rewrite Hfq. }
    fold empty_queue. rewrite Hcnt. split; [done |]. split; [done |].
    rewrite to_int_small by lia. lia.
Qed.

(** ** Emission *)

(** X10 (return values of emit).  Whenever [lwnl_add_event] returns, the
    value is 0, -1 or -3: -1 exactly when the node could not be allocated,
    and then nothing changed; -3 exactly when the node was allocated and
    the kind is not recognized, and then the slots, the live count and the
    payload buffers are unchanged and the node stays allocated; 0 in all
    other cases. *)
Theorem emit_return_codes type items evt_p out_p junk s r s' :
  lwnl_add_event type items evt_p out_p junk s = Ok (r, s') ->
  (r = -1 /\ evt_p = NULL /\ s' = s) \/
  (r = -3 /\ evt_p <> NULL /\ type = LWNL_UNKNOWN /\
   g_queue s' = g_queue s /\ g_connected s' = g_connected s /\
   buffers s' = buffers s /\ is_Some (events s' !! evt_p) /\
   forall x, x <> evt_p -> events s' !! x = events s !! x) \/
  (r = 0 /\ evt_p <> NULL /\ type <> LWNL_UNKNOWN).
Proof.
  unfold lwnl_add_event.
  destruct (evt_p =? NULL) eqn:Hp.
  { apply Z.eqb_eq in Hp. intros [= <- <-]. by left. }
  apply Z.eqb_neq in Hp.
  set (app := fun (evt : lwnl_event) (b' : gmap Z (list Z)) =>
    _lwnl_add_event evt_p
      (mk_state (g_queue s) (g_connected s) (<[evt_p := evt]> (events s)) b')).
  assert (Hgen : forall evt b',
    ('(res, s2) ← app evt b';
     if res <? 0 then
       b2 ← (if data (evt_data evt) =? NULL then Ok (buffers s2)
             else kmm_free_buffer (data (evt_data evt)) (buffers s2));
       Ok (-2, mk_state (g_queue s2) (g_connected s2) (delete evt_p (events s2)) b2)
     else Ok (0, s2)) = Ok (r, s') -> r = 0).
  { intros evt b'. unfold app.
    destruct (_lwnl_add_event evt_p _) as [[res s2] | |] eqn:Happ; simpl; try done.
    rewrite (_lwnl_add_event_returns_0 _ _ _ _ Happ). simpl. by intros [= <- _]. }
  destruct type; simpl;
    try (intros Hrun; right; right; split; [| done];
         match type of Hrun with
         | context [mk_cb_data ?T NULL 0] =>
             exact (Hgen (mk_event NULL (mk_cb_data T NULL 0) 0) (buffers s) Hrun)
         end).
  - destruct (_lwnl_copy_scan_info out_p junk items (buffers s)) as [[[res output] b'] | |];
      simpl; try done.
    destruct (res <? 0); intros Hrun; right; right; (split; [| done]).
    + exact (Hgen (mk_event NULL (mk_cb_data LWNL_SCAN_FAILED NULL 0) 0) b' Hrun).
    + exact (Hgen (mk_event NULL (mk_cb_data LWNL_SCAN_DONE output (to_uint32 res)) 0)
               b' Hrun).
  - intros [= <- <-]. right. left. simpl.
    repeat (split; [done |]). split; [by rewrite lookup_insert_eq |].
    intros x Hx. by rewrite lookup_insert_ne.
Qed.

(** X11 (broadcast).  A successful emit creates one node whose count is
    the number of occupied slots and appends that same node to the chain
    of every occupied slot, keeping the slot's identity and phase (and its
    front, when something was pending); free slots are untouched. *)
Theorem emit_appends_everywhere s Ls type items evt_p out_p junk :
  wf s Ls -> evt_p <> NULL -> type <> LWNL_UNKNOWN ->
  emit_ok s type items evt_p out_p ->
  exists s',
    lwnl_add_event type items evt_p out_p junk s = Ok (0, s') /\
    (exists e, events s' !! evt_p = Some e /\
               evt_data e = built_data type items out_p /\
               refs e = occupied_count (g_queue s)) /\
    forall i q L, g_queue s !! i = Some q -> Ls !! i = Some L ->
      if filep q =? NULL then g_queue s' !! i = Some q
      else exists q',
             g_queue s' !! i = Some q' /\ filep q' = filep q /\
             check_header q' = check_header q /\
             (front q <> NULL -> front q' = front q) /\
             rear q' = evt_p /\
             chain (events s') (front q') (L ++ [evt_p]).
Proof.
  intros Hwf Hp Hty Hok.
  destruct (lwnl_add_event_spec s Ls type items evt_p out_p junk Hwf Hp Hty Hok)
    as (s' & Hrun & Hqs & _ & _ & Hwf' & _ & _ & (e & He & Hd & Hr)).
  exists s'. split; [done |]. split.
  { exists e. by rewrite <- (wf_connected _ _ Hwf). }
  intros i q L Hq HL.
  assert (Hq' : g_queue s' !! i = Some (upd_slot evt_p q)).
  { rewrite Hqs. change (map (upd_slot evt_p) (g_queue s)) with (upd_slot evt_p <$> g_queue s).
    by rewrite list_lookup_fmap, Hq. }
  destruct (filep q =? NULL) eqn:Hf.
  { rewrite Hq'. unfold upd_slot. by rewrite Hf. }
  exists (upd_slot evt_p q). split; [done |].
  split; [apply filep_upd_slot |]. split; [apply check_header_upd_slot |].
  split.
  { intros Hfr. unfold upd_slot. rewrite Hf.
    apply Z.eqb_neq in Hfr. by rewrite Hfr. }
  split.
  { unfold upd_slot. rewrite Hf. by destruct (front q =? NULL). }
  assert (HL' : zip_with (upd_chain evt_p) (g_queue s) Ls !! i = Some (L ++ [evt_p])).
  { rewrite lookup_zip_with, Hq, HL. simpl. unfold upd_chain. by rewrite Hf. }
  destruct (Forall2_lookup_r _ _ _ _ _ (wf_slots _ _ Hwf') HL') as (q0 & Hq0 & Hok0).
  assert (q0 = upd_slot evt_p q) as -> by congruence.
  apply (so_chain _ _ _ Hok0).
Qed.

(** ** De-registration *)

Lemma drain_lookup L : forall s qs1 q qs2 Ls1 Ls2 fuel h' b',
  wf s (Ls1 ++ L :: Ls2) -> g_queue s = qs1 ++ q :: qs2 -> length qs1 = length Ls1 ->
  drain fuel (front q) (events s) (buffers s) = Ok (h', b') ->
  forall x,
    h' !! x =
    match events s !! x with
    | Some e =>
        if decide (x ∈ L) then
          if decide (refs e = 1) then None else Some (set_refs (refs e - 1) e)
        else Some e
    | None => None
    end.
Proof.
  induction L as [| p L' IH]; intros s qs1 q qs2 Ls1 Ls2 fuel h' b' Hwf Hq Hlen Hdr x.
  - destruct (wf_split _ _ _ _ _ _ _ Hwf Hq Hlen) as (_ & Hsq & _).
    rewrite (chain_front_null _ _ (so_chain _ _ _ Hsq)) in Hdr.
    assert (h' = events s) as -> by (destruct fuel; simpl in Hdr; congruence).
    destruct (events s !! x); [| done]. by rewrite decide_False by apply not_elem_of_nil.
  - destruct (release_head _ _ _ _ _ _ _ _ Hwf Hq Hlen)
      as (e & He & Hfr & Hp & _ & Hrefs & Hct & Hrem & Hwf').
    rewrite Hfr in Hdr. apply Z.eqb_neq in Hp as Hpb.
    destruct fuel as [| fuel']; simpl in Hdr; rewrite Hpb in Hdr; [done |].
    rewrite He, Hrem in Hdr. simpl in Hdr.
    specialize (IH _ qs1 (set_front (flink e) (set_check_header 0 q)) qs2 Ls1 Ls2 fuel'
                  h' b' Hwf' eq_refl Hlen Hdr x).
    simpl in IH. rewrite IH. clear IH.
    assert (HpL' : p ∉ L') by (by eapply chain_head_fresh).
    unfold release_events. destruct (decide (x = p)) as [-> | Hne].
    + rewrite He. rewrite (decide_True (P := p ∈ p :: L')) by (by left).
      destruct (0 <? refs e - 1) eqn:Hr.
      * apply Z.ltb_lt in Hr. rewrite lookup_insert_eq.
        rewrite decide_False by done. rewrite decide_False by lia. done.
      * apply Z.ltb_ge in Hr. rewrite lookup_delete_eq.
        rewrite decide_True by lia. done.
    + assert (Hsame : (if 0 <? refs e - 1
                       then <[p := set_refs (refs e - 1) e]> (events s)
                       else delete p (events s)) !! x = events s !! x).
      { destruct (0 <? refs e - 1);
          [by rewrite lookup_insert_ne | by rewrite lookup_delete_ne]. }
      rewrite Hsame. destruct (events s !! x) as [ex |]; [| done].
      destruct (decide (x ∈ L')) as [Hin | Hnin].
      * by rewrite (decide_True (P := x ∈ p :: L')) by (by right).
      * rewrite (decide_False (P := x ∈ p :: L')); [done |].
        intros Hin. apply elem_of_cons in Hin as [? | ?]; done.
Qed.

(** X12 (what a de-registration releases).  De-registering a consumer
    takes one reference from every node of its chain and from no other
    node: a node of the chain with count 1 is freed, one with a larger
    count stays with the count decremented, and every node outside the
    chain is left exactly as it was. *)
Theorem deregister_effect_on_nodes s Ls f i q L fuel :
  wf s Ls -> f <> NULL -> slot_at f (g_queue s) i q -> Ls !! i = Some L ->
  (size (events s) <= fuel)%nat ->
  exists s',
    lwnl_remove_listener fuel f s = Ok (0, s') /\
    forall x,
      events s' !! x =
      match events s !! x with
      | Some e =>
          if decide (x ∈ L) then
            if decide (refs e = 1) then None else Some (set_refs (refs e - 1) e)
          else Some e
      | None => None
      end.
Proof.
  intros Hwf Hf Hat HL Hfuel.
  destruct (lwnl_remove_listener_spec s Ls f i q fuel Hwf Hf Hat Hfuel)
    as (s' & Hrem & _).
  exists s'. split; [done |].
  destruct (slot_at_split _ _ _ _ _ Hwf Hat)
    as (qs1 & qs2 & Ls1 & L0 & Ls2 & Hq & -> & Hl1 & Hl2 & HL0 & Hfs).
  assert (L0 = L) as -> by congruence.
  unfold lwnl_remove_listener in Hrem.
  rewrite (remove_listener_loop_hit _ _ _ _ _ _ _ _ Hfs) in Hrem.
  destruct (drain fuel (front q) (events s) (buffers s)) as [[h' b'] | |] eqn:Hdr;
    simpl in Hrem; try done.
  injection Hrem as <-. simpl.
  eapply (drain_lookup L s qs1 q qs2 Ls1 Ls2 fuel h' b'); try done. lia.
Qed.

(** X13 (an identity registered twice).  De-registration releases only the
    first slot that holds the identity: when a second slot holds it too,
    the identity is still registered afterwards, through a later slot. *)
Theorem duplicate_registration s Ls f i q j q2 fuel :
  wf s Ls -> f <> NULL -> slot_at f (g_queue s) i q ->
  j <> i -> g_queue s !! j = Some q2 -> filep q2 = f ->
  (size (events s) <= fuel)%nat ->
  exists s' j' q',
    lwnl_remove_listener fuel f s = Ok (0, s') /\
    slot_at f (g_queue s') j' q' /\ (i < j')%nat /\
    g_queue s' !! j = Some q2.
Proof.
  intros Hwf Hf Hat Hji Hj Hfj Hfuel.
  destruct (lwnl_remove_listener_spec s Ls f i q fuel Hwf Hf Hat Hfuel)
    as (s' & Hrem & Hqs & _).
  assert (Hj' : g_queue s' !! j = Some q2) by (rewrite Hqs; by rewrite list_lookup_insert_ne).
  destruct (first_slot_dec f (g_queue s')) as [Hmiss | (qs1 & q' & qs2 & Hfs)].
  { rewrite Forall_forall in Hmiss. exfalso.
    apply (Hmiss q2); [by eapply list_elem_of_lookup_2 | done]. }
  pose proof (first_slot_at _ _ _ _ _ Hfs) as Hat'.
  exists s', (length qs1), q'. split; [done |]. split; [done |]. split; [| done].
  destruct Hat as (Hi & _ & Hbefore). destruct Hat' as (Hk & Hfk & _).
  destruct (Nat.lt_trichotomy (length qs1) i) as [Hlt | [Heq | Hgt]]; [| | done].
  - exfalso. rewrite Hqs, list_lookup_insert_ne in Hk by lia.
    by apply (Hbefore _ _ Hlt Hk).
  - exfalso. rewrite Hqs, Heq in Hk.
    rewrite list_lookup_insert_eq in Hk by (by eapply lookup_lt_Some).
    injection Hk as <-. simpl in Hfk. congruence.
Qed.

(** ** Consumers do not disturb each other *)

(** X14 (independence).  A read, a registration or a de-registration made
    for another identity returns, and leaves the consumer's slot (its
    front, rear and phase), the deliveries it still has to receive and
    its readiness exactly as they were. *)
Theorem consumers_independent s Ls f i q L o :
  wf s Ls -> f <> NULL -> slot_at f (g_queue s) i q -> Ls !! i = Some L ->
  op_ok s o -> foreign f o ->
  exists r buf s' Ls',
    step o s = Ok (r, buf, s') /\ wf s' Ls' /\
    slot_at f (g_queue s') i q /\ Ls' !! i = Some L /\
    slot_chunks (events s') (buffers s') q L
    = slot_chunks (events s) (buffers s) q L /\
    lwnl_check_queue f s' = lwnl_check_queue f s.
Proof.
  intros Hwf Hf Hat HL Hok Hfor.
  assert (Hfq : filep q = f) by apply Hat.
  assert (Hready : forall s1, slot_at f (g_queue s1) i q ->
            lwnl_check_queue f s1 = lwnl_check_queue f s).
  { intros s1 Hat1.
    by rewrite (lwnl_check_queue_spec f s1 i q Hat1), (lwnl_check_queue_spec f s i q Hat). }
  assert (Hsame : forall r buf, step o s = Ok (r, buf, s) ->
            exists r buf s' Ls',
              step o s = Ok (r, buf, s') /\ wf s' Ls' /\
              slot_at f (g_queue s') i q /\ Ls' !! i = Some L /\
              slot_chunks (events s') (buffers s') q L
              = slot_chunks (events s) (buffers s) q L /\
              lwnl_check_queue f s' = lwnl_check_queue f s).
  { intros r buf Hstep. exists r, buf, s, Ls. done. }
  destruct o as [type items evt_p out_p junk | g buf len | g | g];
    simpl in Hok, Hfor; [done | | |].
  - destruct (first_slot_dec g (g_queue s)) as [Hmiss | (qs1 & qg & qs2 & Hfs)].
    { apply (Hsame (-1) buf). simpl. by apply lwnl_get_event_miss. }
    pose proof (first_slot_at _ _ _ _ _ Hfs) as Hatg.
    destruct (lwnl_get_event_spec s Ls g buf len _ qg Hwf Hatg)
      as (Lg & r & buf' & qg' & Lg' & s' & _ & Hrun & _ & Hqs & _ & Hwf' & Hfq' & Hev & _).
    assert (Hij : i <> length qs1).
    { intros ->. destruct Hat as (Hi & _). destruct Hatg as (Hj & Hfg & _). congruence. }
    assert (Hat' : slot_at f (g_queue s') i q).
    { rewrite Hqs. apply slot_at_insert_other; [done | done | congruence]. }
    assert (HLi : <[length qs1 := Lg']> Ls !! i = Some L)
      by (by rewrite list_lookup_insert_ne).
    exists r, buf', s', (<[length qs1 := Lg']> Ls).
    repeat (split; [done |]). split; [| by apply Hready].
    eapply slot_chunks_frame; [done | done | apply (ev_frame _ _ _ _ Hev)].
  - destruct (first_slot_dec NULL (g_queue s)) as [Hmiss | (qs1 & qn & qs2 & Hfs)].
    { apply (Hsame (-1) []). simpl. by rewrite lwnl_add_listener_full. }
    pose proof (first_slot_at _ _ _ _ _ Hfs) as Hatn.
    destruct (lwnl_add_listener_spec s Ls g _ qn Hwf Hok Hatn)
      as (s' & Hrun & Hqs & _ & Hh & Hb & _ & _ & _ & Hwf').
    assert (Hij : i <> length qs1).
    { intros ->. destruct Hat as (Hi & _). destruct Hatn as (Hj & Hfn & _). congruence. }
    assert (Hat' : slot_at f (g_queue s') i q).
    { rewrite Hqs. apply slot_at_insert_other; [done | done | done]. }
    exists 0, [], s', Ls. split; [simpl; by rewrite Hrun |].
    repeat (split; [done |]). split; [by rewrite Hh, Hb | by apply Hready].
  - destruct (first_slot_dec g (g_queue s)) as [Hmiss | (qs1 & qg & qs2 & Hfs)].
    { apply (Hsame 0 []). simpl. by rewrite lwnl_remove_listener_miss. }
    pose proof (first_slot_at _ _ _ _ _ Hfs) as Hatg.
    destruct (lwnl_remove_listener_spec s Ls g _ qg (size (events s)) Hwf Hok Hatg)
      as (s' & Hrun & Hqs & _ & Hwf' & Hev); [done |].
    assert (Hij : i <> length qs1).
    { intros ->. destruct Hat as (Hi & _). destruct Hatg as (Hj & Hfg & _). congruence. }
    assert (Hat' : slot_at f (g_queue s') i q).
    { rewrite Hqs. apply slot_at_insert_other; [done | done | simpl; congruence]. }
    assert (HLi : <[length qs1 := []]> Ls !! i = Some L)
      by (by rewrite list_lookup_insert_ne).
    exists 0, [], s', (<[length qs1 := []]> Ls).
    split; [simpl; by rewrite Hrun |].
    repeat (split; [done |]). split; [| by apply Hready].
    eapply slot_chunks_frame; [done | done | apply (ev_frame _ _ _ _ Hev)].
Qed.

(** ** From the scan list to the consumer's buffer *)

(** X15 (a scan result, end to end).  A consumer is registered with
    nothing pending and a non-empty scan list is emitted as scan-completed
    with both allocations succeeding.  Then a read with an 8-byte buffer
    returns 8 and delivers the scan-completed tag and the total size of the
    records; the next read, with a buffer of at least that size, returns
    that size and delivers the records of the list one after the other in
    list order; after it nothing is pending for the consumer. *)
Theorem scan_round_trip s Ls f i q items evt_p out_p junk buf1 buf2 len2 :
  wf s Ls -> f <> NULL -> slot_at f (g_queue s) i q -> front q = NULL ->
  evt_p <> NULL -> out_p <> NULL -> items <> [] ->
  emit_ok s LWNL_SCAN_DONE items evt_p out_p ->
  SCAN_INFO_SIZE * Z.of_nat (length items) <= len2 <= INT_MAX ->
  exists s1 b1 s2 b2 s3,
    lwnl_add_event LWNL_SCAN_DONE items evt_p out_p junk s = Ok (0, s1) /\
    lwnl_get_event f buf1 8 s1 = Ok (8, b1, s2) /\
    take 8 b1 = le32 (status_code LWNL_SCAN_DONE)
                ++ le32 (SCAN_INFO_SIZE * Z.of_nat (length items)) /\
    lwnl_get_event f buf2 len2 s2
    = Ok (SCAN_INFO_SIZE * Z.of_nat (length items), b2, s3) /\
    take (Z.to_nat (SCAN_INFO_SIZE * Z.of_nat (length items))) b2 = concat items /\
    lwnl_check_queue f s3 = 0.
Proof.
  intros Hwf Hf Hat Hfront Hp Hout Hitems Hok Hlen2.
  destruct Hok as [Hfresh Hscan]. destruct (Hscan eq_refl Hout) as (Hofresh & Hsz & Hall & Hmax).
  assert (Hn : 0 < Z.of_nat (length items)) by (destruct items; [done | simpl; lia]).
  set (total := SCAN_INFO_SIZE * Z.of_nat (length items)) in *.
  assert (Htot : 0 < total) by (unfold total; nia).
  destruct (lwnl_add_event_spec s Ls LWNL_SCAN_DONE items evt_p out_p junk Hwf Hp)
    as (s1 & Hrun & Hqs & _ & Hbufs & Hwf1 & _ & _ & (e & He & Hd & _));
    [done | by split |].
  assert (Hd' : evt_data e = mk_cb_data LWNL_SCAN_DONE out_p total).
  { rewrite Hd. unfold built_data. apply Z.eqb_neq in Hout. by rewrite Hout. }
  assert (Hb1 : buffers s1 !! out_p = Some (concat items)).
  { rewrite Hbufs. unfold built_buffers. apply Z.eqb_neq in Hout. rewrite Hout.
    apply lookup_insert_eq. }
  (* the slot of the consumer after the emit *)
  destruct (slot_at_split _ _ _ _ _ Hwf Hat)
    as (qs1 & qs2 & Ls1 & L & Ls2 & Hq & HLs & Hl1 & Hl2 & HL & Hfs).
  pose proof Hwf as Hwf0. rewrite HLs in Hwf0.
  destruct (wf_split _ _ _ _ _ _ _ Hwf0 Hq) as (_ & Hsq & _); [lia |].
  assert (L = []) as ->.
  { pose proof (so_chain _ _ _ Hsq) as Hc. rewrite Hfront in Hc. by apply chain_null_inv in Hc. }
  assert (Hch : check_header q = 0).
  { destruct (so_phase _ _ _ Hsq) as [H0 | (_ & Hne & _)]; [done | congruence]. }
  assert (Hfq : filep q = f) by apply Hat.
  set (q1 := set_rear evt_p (set_front evt_p q)).
  assert (Hupd : upd_slot evt_p q = q1).
  { unfold upd_slot. rewrite Hfront. simpl.
    assert ((filep q =? NULL) = false) as -> by (apply Z.eqb_neq; congruence). done. }
  assert (Hat1 : slot_at f (g_queue s1) i q1).
  { rewrite Hqs, <- Hupd. by apply slot_at_map_upd. }
  assert (HL1 : zip_with (upd_chain evt_p) (g_queue s) Ls !! i = Some [evt_p]).
  { rewrite lookup_zip_with. destruct Hat as (Hi & _). rewrite Hi, HL. simpl.
    unfold upd_chain.
    assert ((filep q =? NULL) = false) as -> by (apply Z.eqb_neq; congruence). done. }
  assert (Hflink : flink e = NULL).
  { destruct (Forall2_lookup_r _ _ _ _ _ (wf_slots _ _ Hwf1) HL1) as (q0 & Hq0 & Hok0).
    assert (q0 = q1) as -> by (destruct Hat1 as (Hi1 & _); congruence).
    pose proof (so_chain _ _ _ Hok0) as Hc. simpl in Hc.
    apply chain_cons_inv in Hc as (_ & _ & e0 & He0 & Hc).
    assert (e0 = e) as -> by congruence. by apply chain_front_null in Hc. }
  (* the header *)
  destruct (get_event_header_exact f s1 _ i q1 e buf1 8 Hwf1 Hat1) as (_ & Hrd1);
    [done | done | done | by vm_compute |].
  rewrite Hd' in Hrd1. simpl in Hrd1.
  assert (Hpos : (0 <? total) = true) by (by apply Z.ltb_lt).
  rewrite Hpos in Hrd1.
  destruct (lwnl_get_event_spec s1 _ f buf1 8 i q1 Hwf1 Hat1)
    as (L0 & r & b1 & q' & L' & s2 & _ & Hrd1' & _ & _ & _ & Hwf2 & _).
  rewrite Hrd1 in Hrd1'. injection Hrd1' as <- <- <-.
  set (q2 := set_check_header 1 q1) in *.
  set (s2 := mk_state (<[i := q2]> (g_queue s1)) (g_connected s1) (events s1) (buffers s1)) in *.
  assert (Hat2 : slot_at f (g_queue s2) i q2) by (by eapply slot_at_insert_same).
  (* the payload *)
  destruct (get_event_payload_exact f s2 _ i q2 e buf2 len2 Hwf2 Hat2)
    as (payload & Hpl & Hplen & _ & _ & Hrd2); [done | done | |].
  { rewrite Hd'. simpl. unfold to_uint32, INT_MAX in *. rewrite Z.mod_small; lia. }
  rewrite Hd' in Hpl, Hplen, Hrd2. simpl in Hpl, Hplen, Hrd2.
  assert (payload = concat items) as -> by congruence.
  eexists s1, _, s2, _, _. split; [done |]. split; [exact Hrd1 |].
  split; [apply header_read_bytes |]. split; [exact Hrd2 |].
  split.
  { assert (Z.to_nat total = length (concat items)) as -> by lia. apply memcpy_prefix. }
  erewrite lwnl_check_queue_spec.
  2: { simpl. eapply slot_at_insert_same; [exact Hat2 | done]. }
  simpl. by rewrite Hflink.
Qed.

End LwnlEvtQueue.

(** * The concrete queue *)

Lemma demo_boot_wf : wf demo_boot [[]; []].
Proof. apply (wf_initialize 2 [] 0). lia. Qed.

Lemma demo_boot_free : slot_at NULL (g_queue demo_boot) 0 empty_queue.
Proof. split; [done |]. split; [done |]. intros k x Hk. lia. Qed.

Lemma demo_registered_wf : wf demo_registered [[]; []].
Proof.
  destruct (lwnl_add_listener_spec demo_boot [[]; []] 100 0%nat empty_queue
              demo_boot_wf ltac:(done) demo_boot_free)
    as (s' & Hrun & _ & _ & _ & _ & _ & _ & _ & Hwf).
  vm_compute in Hrun. injection Hrun as <-. exact Hwf.
Qed.

Lemma demo_registered_slot :
  slot_at 100 (g_queue demo_registered) 0 (mk_queue 100 0 NULL NULL).
Proof. split; [done |]. split; [done |]. intros k x Hk. lia. Qed.

Lemma demo_emit_connected_ok : op_ok 2 demo_registered demo_emit_connected.
Proof. split; [done |]. intros Hty. discriminate. Qed.

Lemma demo_emit_scan_ok : op_ok 2 demo_registered demo_emit_scan.
Proof.
  split; [done |]. intros _ _. split; [done |]. split; [done |].
  split; [| vm_compute; discriminate].
  repeat constructor.
Qed.

Lemma demo_scanned_step :
  step demo_status_code 2 demo_emit_scan demo_registered = Ok (0, [], demo_scanned).
Proof. vm_compute. reflexivity. Qed.

Lemma demo_scanned_wf : wf demo_scanned [[11]; []].
Proof.
  destruct (lwnl_add_event_spec demo_status_code 2 demo_registered [[]; []]
              LWNL_SCAN_DONE [[1; 2]; [3; 4]] 11 20 [] demo_registered_wf)
    as (s' & Hrun & _ & _ & _ & Hwf & _); [done | done | apply demo_emit_scan_ok |].
  pose proof demo_scanned_step as Hstep. simpl in Hstep. rewrite Hrun in Hstep.
  injection Hstep as ->. exact Hwf.
Qed.

Lemma demo_registered_reachable : reachable demo_status_code 2 2 demo_registered.
Proof.
  eapply (reach_step demo_status_code 2 2 demo_boot demo_register 0 []).
  - apply (reach_init demo_status_code 2 2). lia.
  - done.
  - reflexivity.
Qed.

Lemma demo_scanned_reachable : reachable demo_status_code 2 2 demo_scanned.
Proof.
  eapply (reach_step demo_status_code 2 2 demo_registered demo_emit_scan 0 []).
  - apply demo_registered_reachable.
  - apply demo_emit_scan_ok.
  - apply demo_scanned_step.
Qed.

Lemma demo_ops_valid :
  valid demo_status_code 2 100 [demo_emit_connected; demo_emit_scan] demo_registered.
Proof.
  split; [apply demo_emit_connected_ok |]. split; [done |].
  intros r buf s' Hstep. vm_compute in Hstep. injection Hstep as <- <- <-.
  split.
  { split; [done |]. intros _ _. split; [done |]. split; [done |].
    split; [repeat constructor | vm_compute; discriminate]. }
  split; [done |]. intros r buf s' Hstep. exact I.
Qed.

Lemma demo_scanned_front : events demo_scanned !! 11 = Some demo_scan_node.
Proof. reflexivity. Qed.

Lemma demo_scanned_slot :
  slot_at 100 (g_queue demo_scanned) 0 (mk_queue 100 0 11 11).
Proof. split; [done |]. split; [done |]. intros k x Hk. lia. Qed.

Lemma demo_registered_free : slot_at NULL (g_queue demo_registered) 1 empty_queue.
Proof.
  split; [done |]. split; [done |]. intros k x Hk Hx.
  assert (k = 0%nat) as -> by lia. injection Hx as <-. discriminate.
Qed.

Lemma demo_payload_slot :
  slot_at 100 (g_queue demo_payload) 0 (mk_queue 100 1 11 11).
Proof. split; [done |]. split; [done |]. intros k x Hk. lia. Qed.

Lemma demo_payload_wf : wf demo_payload [[11]; []].
Proof.
  destruct (lwnl_get_event_spec demo_status_code demo_scanned [[11]; []] 100
              [0; 0; 0; 0; 0; 0; 0; 0] 8 0%nat (mk_queue 100 0 11 11)
              demo_scanned_wf demo_scanned_slot)
    as (L & r & buf' & q' & L' & s' & _ & Hrun & _ & _ & _ & Hwf & _).
  vm_compute in Hrun. injection Hrun as <- <- <-.
  assert (L' = [11]) as ->; [| exact Hwf].
  pose proof (wf_slots _ _ Hwf) as Hslots.
  apply Forall2_cons_1 in Hslots as [Hslot _].
  pose proof (so_chain _ _ _ Hslot) as Hc. simpl in Hc.
  eapply chain_det; [exact Hc |].
  apply (chain_cons _ 11 demo_scan_node []); [discriminate | reflexivity | constructor].
Qed.

Lemma demo_twice_slot :
  slot_at 100 (g_queue demo_twice) 0 (mk_queue 100 0 NULL NULL).
Proof. split; [done |]. split; [done |]. intros k x Hk. lia. Qed.

Lemma demo_twice_wf : wf demo_twice [[]; []].
Proof.
  destruct (lwnl_add_listener_spec demo_registered [[]; []] 100 1%nat empty_queue
              demo_registered_wf ltac:(done) demo_registered_free)
    as (s' & Hrun & _ & _ & _ & _ & _ & _ & _ & Hwf).
  vm_compute in Hrun. injection Hrun as <-. exact Hwf.
Qed.

(** ** Scenarios

    The model run on the scenarios of the specification. *)

(** A connection failure has no payload: one read delivers the header and
    the consumer is at once ready for the next event. *)
Example scenario_header_only :
  match run demo_status_code 2 100
          [Emit LWNL_STA_CONNECT_FAILED [] 10 0 []; Read 100 [] 8; Read 100 [] 8]
          demo_registered with
  | Ok (seen, sent, s) =>
      seen = [[1; 0; 0; 0; 0; 0; 0; 0]] /\ sent = seen /\
      lwnl_check_queue 100 s = 0 /\ events s = ∅
  | _ => False
  end.
Proof. vm_compute. repeat split; reflexivity. Qed.

(** A scan result of three records: the header announces six bytes, the
    next read delivers the three records in list order and frees the
    node and its payload. *)
Example scenario_scan_done :
  match run demo_status_code 2 100
          [Emit LWNL_SCAN_DONE [[1; 2]; [3; 4]; [5; 6]] 10 20 [];
           Read 100 [] 8; Read 100 [] 6]
          demo_registered with
  | Ok (seen, sent, s) =>
      seen = [[6; 0; 0; 0; 6; 0; 0; 0]; [1; 2; 3; 4; 5; 6]] /\ sent = seen /\
      events s = ∅ /\ buffers s = ∅
  | _ => False
  end.
Proof. vm_compute. repeat split; reflexivity. Qed.

(** Two consumers; the first leaves between two emits.  The second still
    reads both events in order, and both nodes are freed in the end. *)
Example scenario_two_consumers :
  match run demo_status_code 2 200
          [Register 100; Register 200;
           Emit LWNL_STA_CONNECTED [] 10 0 [];
           Deregister 100;
           Emit LWNL_STA_DISCONNECTED [] 11 0 [];
           Read 200 [] 8; Read 200 [] 8]
          demo_boot with
  | Ok (seen, sent, s) =>
      seen = [[0; 0; 0; 0; 0; 0; 0; 0]; [2; 0; 0; 0; 0; 0; 0; 0]] /\ sent = seen /\
      events s = ∅
  | _ => False
  end.
Proof. vm_compute. repeat split; reflexivity. Qed.

(** An event emitted while nobody listens stays in the heap, whatever
    happens later. *)
Example scenario_no_consumer :
  match run demo_status_code 2 100
          [Emit LWNL_STA_CONNECTED [] 10 0 [];
           Register 100;
           Emit LWNL_STA_DISCONNECTED [] 11 0 [];
           Read 100 [] 8; Read 100 [] 8;
           Deregister 100]
          demo_boot with
  | Ok (seen, sent, s) =>
      seen = [[2; 0; 0; 0; 0; 0; 0; 0]] /\
      events s = {[10 := mk_event NULL (mk_cb_data LWNL_STA_CONNECTED NULL 0) 0]}
  | _ => False
  end.
Proof. vm_compute. repeat split; reflexivity. Qed.

(** ** The theorems at the concrete queue *)

Lemma refcount_correctness_witness :
  reachable demo_status_code 2 2 demo_scanned /\
  exists Ls,
    Forall2 (fun q L => chain (events demo_scanned) (front q) L) (g_queue demo_scanned) Ls /\
    (forall p e, events demo_scanned !! p = Some e ->
       refs e = holders Ls p /\ payload_ok (buffers demo_scanned) e) /\
    forall o, op_ok 2 demo_scanned o ->
      exists r buf s' Ls',
        step demo_status_code 2 o demo_scanned = Ok (r, buf, s') /\
        Forall2 (fun q L => chain (events s') (front q) L) (g_queue s') Ls' /\
        forall p e, events demo_scanned !! p = Some e -> 0 < refs e ->
          (exists e', events s' !! p = Some e' /\ refs e' = holders Ls' p /\
             0 < refs e' /\ evt_data e' = evt_data e /\ payload_ok (buffers s') e') \/
          (events s' !! p = None /\ holders Ls' p = 0 /\
           (data (evt_data e) <> NULL -> buffers s' !! data (evt_data e) = None)).
Proof.
  split; [apply demo_scanned_reachable |].
  apply (refcount_correctness demo_status_code 2 2 demo_scanned).
  apply demo_scanned_reachable.
Defined.

Lemma no_event_loss_witness :
  valid demo_status_code 2 100 [demo_emit_connected; demo_emit_scan] demo_registered /\
  exists seen sent s1 rest s2,
    run demo_status_code 2 100 [demo_emit_connected; demo_emit_scan] demo_registered
    = Ok (seen, sent, s1) /\
    read_n demo_status_code (length sent - length seen) 100 s1 = Ok (rest, s2) /\
    seen ++ rest = sent /\
    lwnl_check_queue 100 s2 = 0.
Proof.
  split; [apply demo_ops_valid |].
  apply (no_event_loss demo_status_code 2 2 100 demo_registered 0 (mk_queue 100 0 NULL NULL)).
  - apply demo_registered_reachable.
  - discriminate.
  - apply demo_registered_slot.
  - reflexivity.
  - apply demo_ops_valid.
Defined.

Lemma tail_subscription_witness :
  Forall (fun q => filep q <> 200) (g_queue demo_scanned) /\
  exists s1,
    lwnl_add_listener 200 demo_scanned = (0, s1) /\
    (exists i q, slot_at 200 (g_queue s1) i q /\ front q = NULL /\ check_header q = 0) /\
    lwnl_check_queue 200 s1 = 0 /\
    lwnl_get_event demo_status_code 200 [7; 7] 8 s1 = Ok (0, [7; 7], s1) /\
    forall ops, valid demo_status_code 2 200 ops s1 ->
      exists seen sent s2,
        run demo_status_code 2 200 ops s1 = Ok (seen, sent, s2) /\
        (exists rest, seen ++ rest = sent) /\
        (sent = [] -> seen = [] /\ lwnl_check_queue 200 s2 = 0).
Proof.
  assert (Hnot : Forall (fun q => filep q <> 200) (g_queue demo_scanned)).
  { repeat constructor; discriminate. }
  split; [exact Hnot |].
  apply (tail_subscription demo_status_code 2 2 200 demo_scanned [7; 7] 8).
  - apply demo_scanned_reachable.
  - discriminate.
  - exact Hnot.
  - exists 1%nat, empty_queue. split; [reflexivity |]. split; [reflexivity |].
    intros k x Hk Hx. assert (k = 0%nat) as -> by lia.
    injection Hx as <-. discriminate.
Defined.

Lemma emit_without_consumer_leaks_witness :
  Forall (fun q => filep q = NULL) (g_queue demo_boot) /\
  lwnl_add_event 2 LWNL_STA_CONNECTED [] 10 0 [] demo_boot
  = Ok (0, mk_state (g_queue demo_boot) (g_connected demo_boot)
             (<[10 := mk_event NULL (mk_cb_data LWNL_STA_CONNECTED NULL 0) 0]>
                (events demo_boot))
             (buffers demo_boot)).
Proof.
  assert (Hfree : Forall (fun q => filep q = NULL) (g_queue demo_boot)).
  { repeat constructor. }
  split; [exact Hfree |].
  apply (emit_without_consumer_leaks 2 demo_boot LWNL_STA_CONNECTED [] 10 0 []);
    [exact Hfree | discriminate | discriminate | discriminate].
Defined.

(** Reading with an identity that no slot holds returns -1, not 0. *)
Lemma read_unregistered_counterexample :
  Forall (fun q => filep q <> 300) (g_queue demo_scanned) /\
  lwnl_get_event demo_status_code 300 [7; 7] 8 demo_scanned = Ok (-1, [7; 7], demo_scanned).
Proof.
  split; [repeat constructor; discriminate | reflexivity].
Qed.

Lemma read_nothing_pending_witness :
  lwnl_get_event demo_status_code 300 [7; 7] 8 demo_scanned = Ok (-1, [7; 7], demo_scanned) /\
  lwnl_get_event demo_status_code 100 [7; 7] 8 demo_registered = Ok (0, [7; 7], demo_registered).
Proof.
  split.
  - apply (read_nothing_pending demo_status_code 300 [7; 7] 8 demo_scanned).
    repeat constructor; discriminate.
  - apply (proj2 (read_nothing_pending demo_status_code 100 [7; 7] 8 demo_registered)
             0%nat (mk_queue 100 0 NULL NULL)).
    + apply demo_registered_slot.
    + reflexivity.
Defined.

Lemma header_read_witness :
  exists buf' s',
    lwnl_get_event demo_status_code 100 [7; 7; 7; 7; 7; 7; 7; 7; 7] 8 demo_scanned
    = Ok (8, buf', s') /\
    take 8 buf' = [6; 0; 0; 0; 4; 0; 0; 0] /\
    g_connected s' = 1 /\
    g_queue s' = [mk_queue 100 1 11 11; empty_queue] /\
    events s' = events demo_scanned /\ buffers s' = buffers demo_scanned.
Proof.
  destruct (header_read demo_status_code 100 demo_scanned [[11]; []] 0
              (mk_queue 100 0 11 11)
              demo_scan_node
              [7; 7; 7; 7; 7; 7; 7; 7; 7] 8)
    as (buf' & s' & Hrun & Hhdr & Hgc & _ & Hq & Hh & Hb).
  - apply demo_scanned_wf.
  - apply demo_scanned_slot.
  - reflexivity.
  - discriminate.
  - apply demo_scanned_front.
  - unfold INT_MAX. lia.
  - exists buf', s'. repeat split; assumption.
Defined.

Lemma buffer_too_small_witness :
  lwnl_get_event demo_status_code 100 [7; 7; 7; 7] 4 demo_scanned
  = Ok (-1, [7; 7; 7; 7], demo_scanned).
Proof.
  apply (buffer_too_small demo_status_code 100 demo_scanned 0 (mk_queue 100 0 11 11)
           demo_scan_node).
  - apply demo_scanned_slot.
  - discriminate.
  - apply demo_scanned_front.
  - unfold INT_MAX. lia.
  - simpl. lia.
Defined.

Lemma scan_failure_downgraded_witness :
  exists s',
    lwnl_add_event 2 LWNL_SCAN_DONE [[1; 2]; [3; 4]] 11 NULL [] demo_registered = Ok (0, s') /\
    lwnl_add_event 2 LWNL_SCAN_FAILED [[1; 2]; [3; 4]] 11 NULL [] demo_registered = Ok (0, s') /\
    (exists e, events s' !! 11 = Some e /\
               evt_data e = mk_cb_data LWNL_SCAN_FAILED NULL 0 /\
               refs e = g_connected demo_registered) /\
    buffers s' = buffers demo_registered /\
    forall i q L, g_queue demo_registered !! i = Some q -> filep q <> NULL ->
      [[]; []] !! i = Some L ->
      exists q', g_queue s' !! i = Some q' /\ filep q' = filep q /\
                 chain (events s') (front q') (L ++ [11]).
Proof.
  apply (scan_failure_downgraded demo_status_code 2 demo_registered [[]; []]
           [[1; 2]; [3; 4]] 11 []).
  - apply demo_registered_wf.
  - discriminate.
  - reflexivity.
Defined.

Lemma serializer_all_or_nothing_witness :
  (_lwnl_copy_scan_info 2 20 [] [[1; 2]; [3; 4]] ∅
   = Ok (2 * 2, 20, <[20 := [1; 2; 3; 4]]> ∅) /\
   Z.of_nat (length [1; 2; 3; 4]) = 2 * 2) /\
  _lwnl_copy_scan_info 2 NULL [] [[1; 2]; [3; 4]] ∅ = Ok (-1, NULL, ∅).
Proof.
  assert (H : forall out, 
    (out <> NULL ->
     _lwnl_copy_scan_info 2 out [] [[1; 2]; [3; 4]] ∅
     = Ok (2 * Z.of_nat (length [[1; 2]; [3; 4]]), out, <[out := concat [[1; 2]; [3; 4]]]> ∅) /\
     Z.of_nat (length (concat [[1; 2]; [3; 4]])) = 2 * Z.of_nat (length [[1; 2]; [3; 4]])) /\
    (out = NULL -> _lwnl_copy_scan_info 2 out [] [[1; 2]; [3; 4]] ∅ = Ok (-1, NULL, ∅))).
  { intros out. apply (serializer_all_or_nothing 2 out [] [[1; 2]; [3; 4]] ∅).
    - lia.
    - repeat constructor.
    - vm_compute. discriminate. }
  split.
  - apply (proj1 (H 20)). discriminate.
  - apply (proj2 (H NULL)). reflexivity.
Defined.

Lemma append_never_fails_witness :
  exists s', lwnl_add_event 2 LWNL_STA_CONNECTED [] 10 0 [] demo_registered = Ok (0, s').
Proof.
  apply (proj2 (proj2 (append_never_fails demo_status_code 2)) demo_registered [[]; []]).
  - apply demo_registered_wf.
  - discriminate.
  - discriminate.
  - apply demo_emit_connected_ok.
Defined.

(** ** The further properties at the concrete queue *)

Lemma payload_read_witness :
  exists buf' s',
    lwnl_get_event demo_status_code 100 [7; 7; 7; 7; 7] 4 demo_payload = Ok (4, buf', s') /\
    take 4 buf' = [1; 2; 3; 4] /\
    g_queue s' = [mk_queue 100 0 NULL 11; empty_queue] /\
    events s' = release_events 11 demo_scan_node (events demo_payload) /\
    buffers s' = release_buffers demo_scan_node (buffers demo_payload).
Proof.
  destruct (payload_read demo_status_code 100 demo_payload [[11]; []] 0
              (mk_queue 100 1 11 11) demo_scan_node [7; 7; 7; 7; 7] 4)
    as (payload & buf' & s' & Hp & Hrun & Htake & _ & _ & Hq & _ & Hev & Hb).
  - apply demo_payload_wf.
  - apply demo_payload_slot.
  - discriminate.
  - reflexivity.
  - unfold INT_MAX. simpl. lia.
  - vm_compute in Hp. injection Hp as <-.
    exists buf', s'. repeat split; assumption.
Defined.

Lemma negative_len_accepted_witness :
  exists buf' s',
    lwnl_get_event demo_status_code 100 [7; 7; 7; 7; 7; 7; 7; 7] (-1) demo_scanned
    = Ok (8, buf', s') /\
    take 8 buf' = [6; 0; 0; 0; 4; 0; 0; 0].
Proof.
  apply (negative_len_accepted demo_status_code 100 demo_scanned [[11]; []] 0
           (mk_queue 100 0 11 11) demo_scan_node [7; 7; 7; 7; 7; 7; 7; 7] (-1)).
  - apply demo_scanned_wf.
  - apply demo_scanned_slot.
  - reflexivity.
  - discriminate.
  - apply demo_scanned_front.
  - lia.
Defined.

Lemma negative_len_payload_witness :
  exists payload buf' s',
    buffers demo_payload !! 20 = Some payload /\
    lwnl_get_event demo_status_code 100 [7; 7; 7; 7; 7] (-1) demo_payload
    = Ok (4, buf', s') /\
    take 4 buf' = payload.
Proof.
  apply (negative_len_payload demo_status_code 100 demo_payload [[11]; []] 0
           (mk_queue 100 1 11 11) demo_scan_node [7; 7; 7; 7; 7] (-1)).
  - apply demo_payload_wf.
  - apply demo_payload_slot.
  - discriminate.
  - reflexivity.
  - lia.
Defined.

Lemma unknown_identity_benign_witness :
  lwnl_remove_listener 0 300 demo_scanned = Ok (0, demo_scanned) /\
  lwnl_check_queue 300 demo_scanned = 0.
Proof.
  apply (unknown_identity_benign 0 300 demo_scanned).
  repeat constructor; discriminate.
Defined.

Lemma check_queue_agrees_with_read_witness :
  (lwnl_check_queue 100 demo_scanned = 0 /\
   lwnl_get_event demo_status_code 100 [] INT_MAX demo_scanned = Ok (0, [], demo_scanned)) \/
  (lwnl_check_queue 100 demo_scanned = 1 /\
   exists r buf' s',
     lwnl_get_event demo_status_code 100 [] INT_MAX demo_scanned = Ok (r, buf', s') /\ 0 < r).
Proof.
  apply (check_queue_agrees_with_read demo_status_code 100 demo_scanned [[11]; []] 0
           (mk_queue 100 0 11 11) []).
  - apply demo_scanned_wf.
  - apply demo_scanned_slot.
Defined.

Lemma registration_capacity_witness :
  exists s,
    register_all [100; 200] (lwnl_queue_initialize 2 demo_scanned) = ([0; 0], s) /\
    map filep (g_queue s) = [100; 200] /\
    g_connected s = 2 /\
    forall g, lwnl_add_listener g s = (-1, s).
Proof.
  apply (registration_capacity 2 [100; 200] demo_scanned).
  - repeat constructor; discriminate.
  - reflexivity.
  - unfold INT_MAX. lia.
Defined.

Lemma deregister_frees_slot_witness :
  exists s1 s2,
    lwnl_remove_listener 1 100 demo_scanned = Ok (0, s1) /\
    g_queue s1 !! 0%nat = Some empty_queue /\
    g_connected s1 = g_connected demo_scanned - 1 /\
    lwnl_add_listener 200 s1 = (0, s2) /\
    g_connected s2 = g_connected demo_scanned /\
    exists j q', (j <= 0)%nat /\ g_queue s2 !! j = Some q' /\
                filep q' = 200 /\ front q' = NULL /\ check_header q' = 0.
Proof.
  apply (deregister_frees_slot demo_status_code demo_scanned [[11]; []] 100 200 0
           (mk_queue 100 0 11 11) 1).
  - apply demo_scanned_wf.
  - discriminate.
  - discriminate.
  - apply demo_scanned_slot.
  - vm_compute. lia.
Defined.

Lemma emit_return_codes_witness :
  exists s',
    lwnl_add_event 2 LWNL_UNKNOWN [] 10 0 [] demo_registered = Ok (-3, s') /\
    ((-3 = -1 /\ 10 = NULL /\ s' = demo_registered) \/
     (-3 = -3 /\ 10 <> NULL /\ LWNL_UNKNOWN = LWNL_UNKNOWN /\
      g_queue s' = g_queue demo_registered /\
      g_connected s' = g_connected demo_registered /\
      buffers s' = buffers demo_registered /\ is_Some (events s' !! 10) /\
      forall x, x <> 10 -> events s' !! x = events demo_registered !! x) \/
     (-3 = 0 /\ 10 <> NULL /\ LWNL_UNKNOWN <> LWNL_UNKNOWN)).
Proof.
  eexists. split; [reflexivity |].
  apply (emit_return_codes 2 LWNL_UNKNOWN [] 10 0 [] demo_registered).
  reflexivity.
Defined.

Lemma deregister_effect_on_nodes_witness :
  exists s',
    lwnl_remove_listener 1 100 demo_scanned = Ok (0, s') /\
    forall x,
      events s' !! x =
      match events demo_scanned !! x with
      | Some e =>
          if decide (x ∈ [11]) then
            if decide (refs e = 1) then None else Some (set_refs (refs e - 1) e)
          else Some e
      | None => None
      end.
Proof.
  apply (deregister_effect_on_nodes demo_status_code demo_scanned [[11]; []] 100 0
           (mk_queue 100 0 11 11) [11] 1).
  - apply demo_scanned_wf.
  - discriminate.
  - apply demo_scanned_slot.
  - reflexivity.
  - vm_compute. lia.
Defined.

Lemma consumers_independent_witness :
  exists r buf s' Ls',
    step demo_status_code 2 (Register 200) demo_scanned = Ok (r, buf, s') /\
    wf s' Ls' /\
    slot_at 100 (g_queue s') 0 (mk_queue 100 0 11 11) /\ Ls' !! 0%nat = Some [11] /\
    slot_chunks demo_status_code (events s') (buffers s') (mk_queue 100 0 11 11) [11]
    = slot_chunks demo_status_code (events demo_scanned) (buffers demo_scanned)
        (mk_queue 100 0 11 11) [11] /\
    lwnl_check_queue 100 s' = lwnl_check_queue 100 demo_scanned.
Proof.
  apply (consumers_independent demo_status_code 2 demo_scanned [[11]; []] 100 0
           (mk_queue 100 0 11 11) [11] (Register 200)).
  - apply demo_scanned_wf.
  - discriminate.
  - apply demo_scanned_slot.
  - reflexivity.
  - discriminate.
  - discriminate.
Defined.

Lemma table_size_fixed_witness :
  length (g_queue demo_scanned) = 2%nat /\
  g_connected demo_scanned = occupied_count (g_queue demo_scanned) /\
  0 <= g_connected demo_scanned <= 2.
Proof.
  apply (table_size_fixed demo_status_code 2 2 demo_scanned).
  apply demo_scanned_reachable.
Defined.

Lemma null_listener_miscounts_witness :
  (exists s',
     lwnl_add_listener NULL demo_registered = (0, s') /\
     g_queue s' = g_queue demo_registered /\
     g_connected s' = occupied_count (g_queue s') + 1) /\
  (exists s',
     lwnl_remove_listener 0 NULL demo_registered = Ok (0, s') /\
     occupied_count (g_queue s') = occupied_count (g_queue demo_registered) /\
     events s' = events demo_registered /\
     g_connected s' = occupied_count (g_queue s') - 1).
Proof.
  apply (null_listener_miscounts demo_registered [[]; []] 1 empty_queue 0).
  - apply demo_registered_wf.
  - apply demo_registered_free.
Defined.

Lemma emit_appends_everywhere_witness :
  exists s',
    lwnl_add_event 2 LWNL_STA_CONNECTED [] 10 0 [] demo_scanned = Ok (0, s') /\
    (exists e, events s' !! 10 = Some e /\
               evt_data e = built_data 2 LWNL_STA_CONNECTED [] 0 /\
               refs e = occupied_count (g_queue demo_scanned)) /\
    forall i q L, g_queue demo_scanned !! i = Some q -> [[11]; []] !! i = Some L ->
      if filep q =? NULL then g_queue s' !! i = Some q
      else exists q',
             g_queue s' !! i = Some q' /\ filep q' = filep q /\
             check_header q' = check_header q /\
             (front q <> NULL -> front q' = front q) /\
             rear q' = 10 /\
             chain (events s') (front q') (L ++ [10]).
Proof.
  apply (emit_appends_everywhere demo_status_code 2 demo_scanned [[11]; []]
           LWNL_STA_CONNECTED [] 10 0 []).
  - apply demo_scanned_wf.
  - discriminate.
  - discriminate.
  - split; [done |]. intros Hty. discriminate.
Defined.

Lemma scan_round_trip_witness :
  exists s1 b1 s2 b2 s3,
    lwnl_add_event 2 LWNL_SCAN_DONE [[1; 2]; [3; 4]] 11 20 [] demo_registered = Ok (0, s1) /\
    lwnl_get_event demo_status_code 100 [0; 0; 0; 0; 0; 0; 0; 0] 8 s1 = Ok (8, b1, s2) /\
    take 8 b1 = le32 (demo_status_code LWNL_SCAN_DONE) ++ le32 (2 * 2) /\
    lwnl_get_event demo_status_code 100 [0; 0; 0; 0] 4 s2 = Ok (2 * 2, b2, s3) /\
    take (Z.to_nat (2 * 2)) b2 = [1; 2; 3; 4] /\
    lwnl_check_queue 100 s3 = 0.
Proof.
  apply (scan_round_trip demo_status_code 2 demo_registered [[]; []] 100 0
           (mk_queue 100 0 NULL NULL) [[1; 2]; [3; 4]] 11 20 []
           [0; 0; 0; 0; 0; 0; 0; 0] [0; 0; 0; 0] 4).
  - apply demo_registered_wf.
  - discriminate.
  - apply demo_registered_slot.
  - reflexivity.
  - discriminate.
  - discriminate.
  - discriminate.
  - apply demo_emit_scan_ok.
  - unfold INT_MAX. simpl. lia.
Defined.

Lemma duplicate_registration_witness :
  exists s' j' q',
    lwnl_remove_listener 0 100 demo_twice = Ok (0, s') /\
    slot_at 100 (g_queue s') j' q' /\ (0 < j')%nat /\
    g_queue s' !! 1%nat = Some (mk_queue 100 0 NULL NULL).
Proof.
  apply (duplicate_registration demo_status_code demo_twice [[]; []] 100 0
           (mk_queue 100 0 NULL NULL) 1 (mk_queue 100 0 NULL NULL) 0).
  - apply demo_twice_wf.
  - discriminate.
  - apply demo_twice_slot.
  - lia.
  - reflexivity.
  - reflexivity.
  - vm_compute. lia.
Defined.
